(** * E-commerce dataset generator: inventory ledger, browsing state machine,
      session and transaction synthesis (dataset_generator.py), with the
      product pairs of the affinity job (spark/ecommerce_affinity.py) and
      the HBase put script (hbase/generate_hbase_puts.py)

    The programs are embedded as executable Rocq functions.  Stocks,
    quantities and times are [Z], the loop counters are [nat], and
    timestamps are seconds rather than their ISO rendering.  Monetary
    values are the interpreter's floats: IEEE 754 binary64 numbers, with the
    operations of the Standard Library's [SpecFloat] at precision 53, so
    that every sum, product, difference and [round(x, 2)] of a price gives
    the bits that the interpreter gives.  The draws of [random.random()]
    and the weights of [random.choices] are exact rationals.

    The [products] list is a heap of product objects addressed by position,
    and the inventory manager's dictionary maps a product id to the position
    of the object it aliases.  Every draw from a random source ([random],
    [Faker], [uuid]) reads the next cell of an arbitrary tape, so a
    statement quantified over tapes covers every possible run.  The
    bootstrap of categories, products and users, the progress messages and
    the serialisation to JSON are left out; of the export, the split of the
    sessions into chunks is modelled. *)

From Stdlib Require Import ZArith QArith Qround List Ascii Lia DecimalString.
From Stdlib Require Import Qabs SpecFloat.
From stdpp Require Import gmap strings list fin_maps sorting.

Local Open Scope string_scope.
Local Open Scope Z_scope.

(* ===================================================================== *)
(** ** Random sources and exceptions *)
(* ===================================================================== *)

Module Random.

(** The exceptions the modelled statements can raise. *)
Inductive exn := IndexError | ValueError | TypeError | KeyError | OverflowError.

(** A generator state: an infinite tape of raw draws and a read position. *)
Record rng := mkRng { tape : nat -> N; cursor : nat }.

Inductive result (A : Type) :=
| Ok (a : A) (s : rng)
| Raise (e : exn).
Arguments Ok {A} a s.
Arguments Raise {A} e.

Definition Rand (A : Type) : Type := rng -> result A.

Definition ret {A} (a : A) : Rand A := fun s => Ok a s.

Definition bind {A B} (m : Rand A) (k : A -> Rand B) : Rand B :=
  fun s => match m s with
           | Ok a s' => k a s'
           | Raise e => Raise e
           end.

Definition raise {A} (e : exn) : Rand A := fun _ => Raise e.

(** One raw draw. *)
Definition getrandbits : Rand N :=
  fun s => Ok (tape s (cursor s)) (mkRng (tape s) (S (cursor s))).

End Random.
Export Random.

Notation "'let!' x ':=' m 'in' k" := (bind m (fun x => k))
  (at level 10, x name, m at level 100, k at level 200).
Notation "'let!' ' p ':=' m 'in' k" := (bind m (fun x => match x with p => k end))
  (at level 10, p pattern, m at level 100, k at level 200).

(** [random._randbelow(n)] for [n > 0]: a cell of the tape stands for the
    draw that the library accepts after rejecting those out of range. *)
Definition randbelow (n : Z) : Rand Z :=
  let! d := getrandbits in ret (Z.of_N d mod n).

(** [random.random()]: a value of [[0, 1)] with 53 bits of resolution. *)
Definition random : Rand Q :=
  let! d := getrandbits in ret (Qmake (Z.of_N d mod 2 ^ 53) (2 ^ 53)).

(** [random.randint(a, b)]: [ValueError] on an empty range. *)
Definition randint (a b : Z) : Rand Z :=
  if b <? a then raise ValueError
  else let! r := randbelow (b - a + 1) in ret (a + r).

(** [random.choice(seq)]: [IndexError] on an empty sequence. *)
Definition choice {A} (seq : list A) : Rand A :=
  match seq with
  | [] => raise IndexError
  | x0 :: _ =>
      let! i := randbelow (Z.of_nat (length seq)) in
      ret (nth (Z.to_nat i) seq x0)
  end.

(** [itertools.accumulate(weights)]. *)
Fixpoint accumulate (acc : Q) (weights : list Q) : list Q :=
  match weights with
  | [] => []
  | w :: ws => (acc + w)%Q :: accumulate (acc + w)%Q ws
  end.

(** [bisect.bisect(cum_weights, x, 0, hi)] on a sorted list: the number of
    entries among the first [hi] that are [<= x]. *)
Definition bisect (cum_weights : list Q) (x : Q) (hi : nat) : nat :=
  length (filter (fun c => Qle_bool c x = true) (firstn hi cum_weights)).

(** [random.choices(population, weights=weights)[0]]. *)
Definition choices {A} (population : list A) (weights : list Q) : Rand A :=
  match population with
  | [] => raise IndexError
  | x0 :: _ =>
      let cum_weights := accumulate 0 weights in
      if negb (length cum_weights =? length population)%nat then raise ValueError
      else
        let total := default 0%Q (last cum_weights) in
        if Qle_bool total 0 then raise ValueError
        else
          let! u := random in
          ret (nth (bisect cum_weights (u * total)%Q (length population - 1))
                 population x0)
  end.

(** [random.sample(population, k)]: [k] elements at distinct positions.
    As in [randbelow], a cell of the tape stands for a draw that the library
    accepts: where the library draws again because the position was already
    selected, the cell picks among the positions not selected so far.  The
    order in which the library lists the elements is not reproduced. *)
Fixpoint sample {A} (population : list A) (k : nat) : Rand (list A) :=
  match k with
  | O => ret []
  | S k' =>
      match population with
      | [] => raise ValueError
      | x0 :: _ =>
          let! j := randbelow (Z.of_nat (length population)) in
          let! rest := sample (delete (Z.to_nat j) population) k' in
          ret (nth (Z.to_nat j) population x0 :: rest)
      end
  end.

(** A list comprehension [[m for _ in range(n)]]. *)
Fixpoint replicateM {A} (n : nat) (m : Rand A) : Rand (list A) :=
  match n with
  | O => ret []
  | S n' => let! x := m in let! xs := replicateM n' m in ret (x :: xs)
  end.

(** [uuid.uuid4().hex[:width]]: the leading hexadecimal digits of a draw. *)
Definition hex_digit (d : N) : Ascii.ascii :=
  nth (N.to_nat d)
    ["0"; "1"; "2"; "3"; "4"; "5"; "6"; "7"; "8"; "9"; "a"; "b"; "c"; "d"; "e"; "f"]%char
    "0"%char.

Fixpoint hex_fixed (width : nat) (d : N) (acc : string) : string :=
  match width with
  | O => acc
  | S w => hex_fixed w (d / 16)%N (String (hex_digit (d mod 16)%N) acc)
  end.

Definition uuid4_hex (width : nat) : Rand string :=
  let! d := getrandbits in ret (hex_fixed width d "").

(** [fake.date_time_between(start_date="-<days>d", end_date="now")], as a
    number of seconds relative to the instant of generation. *)
Definition date_time_between (days : Z) : Rand Z :=
  randint (- (days * 86400)) 0.

(** The integer nearest to a rational, ties to the even one. *)
Definition round_half_even (x : Q) : Z :=
  let n := Qnum x in
  let d := Z.pos (Qden x) in
  let fl := n / d in
  let r := n mod d in
  if 2 * r <? d then fl
  else if d <? 2 * r then fl + 1
  else if Z.even fl then fl else fl + 1.

(* ===================================================================== *)
(** ** Floats *)
(* ===================================================================== *)

(** A Python [float] is a binary64 number. *)
Abbreviation float := spec_float.

Definition float_prec : Z := 53.
Definition float_emax : Z := 1024.

(** [x + y], [x - y], [x * y] and [x / y] on floats: the exact result
    rounded to the nearest binary64 number, ties to even. *)
Definition fadd : float -> float -> float := SFadd float_prec float_emax.
Definition fsub : float -> float -> float := SFsub float_prec float_emax.
Definition fmul : float -> float -> float := SFmul float_prec float_emax.
Definition fdiv : float -> float -> float := SFdiv float_prec float_emax.

(** [float(z)], the conversion an [int] undergoes in [z * x]: the nearest
    binary64 number (exact below 2^53).  The interpreter raises
    [OverflowError] from 2^1024 on, where this gives an infinity; the
    quantities of the generator are at most 39. *)
Definition float_of_Z (z : Z) : float :=
  binary_normalize float_prec float_emax z 0 false.

(** A decimal literal such as [0.05], written [float_of_decimal 5 100]. *)
Definition float_of_decimal (n : Z) (d : positive) : float :=
  fdiv (float_of_Z n) (float_of_Z (Z.pos d)).

(** [0.0]. *)
Definition fzero : float := S754_zero false.

(** The rational that a finite float stands for. *)
Definition float_value (x : float) : Q :=
  match x with
  | S754_finite s m e =>
      let v := if 0 <=? e then inject_Z (Z.pos m * 2 ^ e)
               else Qmake (Z.pos m) (2 ^ Z.to_pos (- e)) in
      if s then (- v)%Q else v
  | _ => 0%Q
  end.

(** A hundred times the magnitude [m * 2^e] of a finite float. *)
Definition hundredfold (m : positive) (e : Z) : Q :=
  if 0 <=? e then inject_Z (Z.pos m * 100 * 2 ^ e)
  else Qmake (Z.pos m * 100) (2 ^ Z.to_pos (- e)).

(** [round(x, 2)] on a float: the exact value of [x] is rounded to the
    nearest multiple of 1/100, ties to the even multiple, and the result is
    the float nearest to that decimal; the sign is kept, and an infinity
    or a NaN is returned as it is. *)
Definition round2 (x : float) : float :=
  match x with
  | S754_finite s m e =>
      match round_half_even (hundredfold m e) with
      | Z.pos k => fdiv (S754_finite s k 0) (S754_finite false 100 0)
      | _ => S754_zero s
      end
  | _ => x
  end.

(* ===================================================================== *)
(** ** Data model *)
(* ===================================================================== *)

(** A product dictionary; [name], [price_history] and [creation_date] are
    never read by the generation loop and are left out. *)
Record product := mkProduct {
  product_id : string;
  product_category_id : string;
  base_price : float;
  current_stock : Z;
  is_active : bool
}.

Record category := mkCategory { category_id : string }.

Record geo := mkGeo { city : string; state : string; country : string }.

Record user := mkUser { user_id : string; geo_data : geo }.

Record page_view := mkPageView {
  timestamp : Z;
  page_type : string;
  pv_product_id : option string;
  pv_category_id : option string;
  view_duration : Z
}.

Record cart_entry := mkCartEntry { quantity : Z; price : float }.

(** [cart_contents] is a dictionary iterated in insertion order. *)
Abbreviation cart := (list (string * cart_entry)).

Record device := mkDevice { device_type : string; os : string; browser : string }.

Record session := mkSession {
  session_id : string;
  session_user_id : string;
  start_time : Z;
  end_time : Z;
  duration_seconds : Z;
  session_geo : geo;
  ip_address : N;
  device_profile : device;
  viewed_products : list string;
  page_views : list page_view;
  cart_contents : cart;
  conversion_status : string;
  referrer : string
}.

Record transaction_item := mkItem {
  item_product_id : string;
  item_quantity : Z;
  unit_price : float;
  item_subtotal : float
}.

Record transaction := mkTransaction {
  transaction_id : string;
  txn_session_id : option string;
  txn_user_id : string;
  txn_timestamp : Z;
  items : list transaction_item;
  subtotal : float;
  discount : float;
  total : float;
  payment_method : string;
  status : string
}.

(* ===================================================================== *)
(** ** Inventory manager *)
(* ===================================================================== *)

(** The heap of product objects: the [products] list itself. *)
Abbreviation heap := (list product).

(** [InventoryManager.products]: product id to the object it refers to. *)
Record InventoryManager := mkInventory { products : gmap string nat }.

(** [{p["product_id"]: p for p in products}]: a later object with the same
    id replaces an earlier one. *)
Fixpoint index_products (i : nat) (ps : list product) (m : gmap string nat)
  : gmap string nat :=
  match ps with
  | [] => m
  | p :: ps' => index_products (S i) ps' (<[product_id p := i]> m)
  end.

Definition InventoryManager_init (ps : heap) : InventoryManager :=
  mkInventory (index_products 0 ps ∅).

Definition set_stock (p : product) (s : Z) : product :=
  mkProduct (product_id p) (product_category_id p) (base_price p) s (is_active p).

(** [InventoryManager.get_product]. *)
Definition get_product (inv : InventoryManager) (h : heap) (pid : string)
  : option product :=
  match products inv !! pid with
  | Some r => h !! r
  | None => None
  end.

(** [InventoryManager.update_stock]: the returned flag and the heap after
    the call. *)
Definition update_stock (inv : InventoryManager) (h : heap) (pid : string)
    (qty : Z) : bool * heap :=
  match products inv !! pid with
  | None => (false, h)
  | Some r =>
      match h !! r with
      | None => (false, h)
      | Some p =>
          if qty <=? current_stock p
          then (true, <[r := set_stock p (current_stock p - qty)]> h)
          else (false, h)
      end
  end.

(** *** [update_stock] on dictionaries

    The method as it runs on the objects of the interpreter: a product is a
    dictionary from keys to values of any kind, and a subscript or a
    comparison can raise. *)

(** The values a dictionary holds under a key; [PyObject] is any value of
    another kind (a list, a dictionary, a date). *)
Inductive pyval :=
| PyNone
| PyBool (b : bool)
| PyInt (z : Z)
| PyFloat (x : float)
| PyStr (s : string)
| PyObject.

Abbreviation pydict := (gmap string pyval).

(** [x >= z] for a float and an integer: the comparison is exact. *)
Definition float_ge_Z (x : float) (z : Z) : bool :=
  match x with
  | S754_nan => false
  | S754_infinity s => negb s
  | S754_zero _ => z <=? 0
  | S754_finite _ _ _ => Qle_bool (inject_Z z) (float_value x)
  end.

(** [v >= quantity] for an integer [quantity]: [TypeError] unless [v] is a
    number. *)
Definition stock_ge (v : pyval) (quantity0 : Z) : exn + bool :=
  match v with
  | PyBool b => inr (quantity0 <=? Z.b2z b)
  | PyInt z => inr (quantity0 <=? z)
  | PyFloat x => inr (float_ge_Z x quantity0)
  | PyNone | PyStr _ | PyObject => inl TypeError
  end.

(** [v - quantity] for an integer [quantity]. *)
Definition stock_sub (v : pyval) (quantity0 : Z) : exn + pyval :=
  match v with
  | PyBool b => inr (PyInt (Z.b2z b - quantity0))
  | PyInt z => inr (PyInt (z - quantity0))
  | PyFloat x =>
      match float_of_Z quantity0 with
      | S754_infinity _ => inl OverflowError
      | q => inr (PyFloat (fsub x q))
      end
  | PyNone | PyStr _ | PyObject => inl TypeError
  end.

(** [InventoryManager.update_stock] for a string id and an integer
    quantity, on a heap of dictionaries: the exception raised, or the
    returned flag and the heap after the call.  An empty dictionary is
    false in [if not p]; a position outside the heap, which no reference
    of the interpreter is, is treated like a missing id. *)
Definition update_stock_dict (inv : InventoryManager) (h : list pydict)
    (pid : string) (qty : Z) : exn + (bool * list pydict) :=
  match products inv !! pid with
  | None => inr (false, h)
  | Some r =>
      match h !! r with
      | None => inr (false, h)
      | Some p =>
          if (size p =? 0)%nat then inr (false, h)
          else
            match p !! "current_stock" with
            | None => inl KeyError
            | Some v =>
                match stock_ge v qty with
                | inl e => inl e
                | inr false => inr (false, h)
                | inr true =>
                    match stock_sub v qty with
                    | inl e => inl e
                    | inr v' => inr (true, <[r := <["current_stock" := v']> p]> h)
                    end
                end
            end
      end
  end.

(** The dictionary [d] carries the stock of the product [p], an integer. *)
Definition holds_stock (d : pydict) (p : product) : Prop :=
  d !! "current_stock" = Some (PyInt (current_stock p)).

(** The dictionary of a product, with the keys the record keeps. *)
Definition product_dict (p : product) : pydict :=
  <["product_id" := PyStr (product_id p)]>
    (<["category_id" := PyStr (product_category_id p)]>
       (<["base_price" := PyFloat (base_price p)]>
          (<["current_stock" := PyInt (current_stock p)]>
             (<["is_active" := PyBool (is_active p)]> ∅)))).

(* ===================================================================== *)
(** ** Helper functions *)
(* ===================================================================== *)

Definition Qlt_bool (x y : Q) : bool := negb (Qle_bool y x).

(** [determine_page_type(position, previous_pages)]. *)
Definition determine_page_type (position : nat) (previous_pages : list page_view)
  : Rand string :=
  if (position =? 0)%nat then choice ["home"; "search"; "category_listing"]
  else
    let prev_page :=
      match last previous_pages with
      | Some p => page_type p
      | None => "home"
      end in
    if String.eqb prev_page "home" then
      choices ["category_listing"; "search"; "product_detail"]
              [0.5; 0.3; 0.2]%Q
    else if String.eqb prev_page "category_listing" then
      choices ["product_detail"; "category_listing"; "search"; "home"]
              [0.7; 0.1; 0.1; 0.1]%Q
    else if String.eqb prev_page "search" then
      choices ["product_detail"; "search"; "category_listing"; "home"]
              [0.6; 0.2; 0.1; 0.1]%Q
    else if String.eqb prev_page "product_detail" then
      choices ["product_detail"; "cart"; "category_listing"; "search"; "home"]
              [0.3; 0.3; 0.2; 0.1; 0.1]%Q
    else if String.eqb prev_page "cart" then
      choices ["checkout"; "product_detail"; "category_listing"; "home"]
              [0.6; 0.2; 0.1; 0.1]%Q
    else if String.eqb prev_page "checkout" then
      choices ["confirmation"; "cart"; "home"] [0.8; 0.1; 0.1]%Q
    else if String.eqb prev_page "confirmation" then
      choices ["home"; "product_detail"; "category_listing"] [0.6; 0.2; 0.2]%Q
    else ret "home".

(** [next((c for c in categories_list if c["category_id"] ==
    product["category_id"]), None)]. *)
Definition category_of (categories_list : list category) (p : product)
  : option category :=
  List.find (fun c => String.eqb (category_id c) (product_category_id p))
    categories_list.

(** The [product_detail] branch of [get_page_content]: [attempts] draws
    looking for an active product in stock, then an unrestricted draw. *)
Fixpoint product_detail_content (attempts : nat) (products_list : heap)
    (categories_list : list category) : Rand (option product * option category) :=
  match attempts with
  | O =>
      let! p := choice products_list in
      ret (Some p, category_of categories_list p)
  | S n =>
      let! p := choice products_list in
      if is_active p && (0 <? current_stock p)
      then ret (Some p, category_of categories_list p)
      else product_detail_content n products_list categories_list
  end.

(** [get_page_content(page_type, products_list, categories_list)]. *)
Definition get_page_content (pt : string) (products_list : heap)
    (categories_list : list category) : Rand (option product * option category) :=
  if String.eqb pt "product_detail" then
    product_detail_content 10 products_list categories_list
  else if String.eqb pt "category_listing" then
    let! c := choice categories_list in ret (None, Some c)
  else ret (None, None).

(** [generate_session_id()] and [generate_transaction_id()]. *)
Definition generate_session_id : Rand string :=
  let! h := uuid4_hex 10 in ret (String.append "sess_" h).

Definition generate_transaction_id : Rand string :=
  let! h := uuid4_hex 12 in ret (String.append "txn_" h).

(* ===================================================================== *)
(** ** The cart dictionary *)
(* ===================================================================== *)

(** [cart_contents.get(pid)]. *)
Fixpoint cart_get (pid : string) (c : cart) : option cart_entry :=
  match c with
  | [] => None
  | (k, e) :: c' => if String.eqb k pid then Some e else cart_get pid c'
  end.

(** [cart_contents[pid] = e]: an existing key keeps its place, a new key
    goes to the end. *)
Fixpoint cart_set (pid : string) (e : cart_entry) (c : cart) : cart :=
  match c with
  | [] => [(pid, e)]
  | (k, e0) :: c' =>
      if String.eqb k pid then (k, e) :: c' else (k, e0) :: cart_set pid e c'
  end.

(** [sorted(set(l))] on integers. *)
Fixpoint insert_sorted (x : Z) (l : list Z) : list Z :=
  match l with
  | [] => [x]
  | y :: l' =>
      if x <? y then x :: l
      else if x =? y then l
      else y :: insert_sorted x l'
  end.

Definition sorted_set (l : list Z) : list Z := foldr insert_sorted [] l.

(** Lines 297-304: the add-to-cart block, entered after the 30% draw. *)
Definition add_to_cart (inventory : InventoryManager) (h : heap)
    (prod : product) (cart_contents0 : cart) : Rand cart :=
  let pid := product_id prod in
  let cart1 :=
    match cart_get pid cart_contents0 with
    | Some _ => cart_contents0
    | None => cart_set pid (mkCartEntry 0 (base_price prod)) cart_contents0
    end in
  match get_product inventory h pid with
  | None => raise TypeError
  | Some p =>
      match cart_get pid cart1 with
      | None => raise KeyError
      | Some e =>
          let stock_left := current_stock p - quantity e in
          let max_possible := Z.min 3 stock_left in
          if 0 <? max_possible then
            let! r := randint 1 max_possible in
            ret (cart_set pid (mkCartEntry (quantity e + r) (price e)) cart1)
          else ret cart1
      end
  end.

(** The variables a session's page loop updates. *)
Definition page_loop_state : Type := list page_view * gset string * cart.

(** Lines 286-312: the body of the page-view loop for slot [i]. *)
Definition page_view_step (inventory : InventoryManager) (h : heap)
    (categories_list : list category) (session_start : Z)
    (i : nat) (t_i t_next : Z) (st : page_loop_state) : Rand page_loop_state :=
  let '(pvs, viewed, cart_contents0) := st in
  let vd := t_next - t_i in
  let! pt := determine_page_type i pvs in
  let! '(prod, cat) := get_page_content pt h categories_list in
  let! '(viewed', cart') :=
    match prod with
    | Some p =>
        if String.eqb pt "product_detail" then
          let viewed1 := {[product_id p]} ∪ viewed in
          let! r := random in
          if Qlt_bool r 0.3 then
            let! c := add_to_cart inventory h p cart_contents0 in
            ret (viewed1, c)
          else ret (viewed1, cart_contents0)
        else ret (viewed, cart_contents0)
    | None => ret (viewed, cart_contents0)
    end in
  ret ((pvs ++ [mkPageView (session_start + t_i) pt
                  (product_id <$> prod) (category_id <$> cat) vd])%list,
       viewed', cart').

(** [for i in range(len(time_slots) - 1)], with [slots] the part of
    [time_slots] from position [i] on. *)
Fixpoint page_view_loop (inventory : InventoryManager) (h : heap)
    (categories_list : list category) (session_start : Z)
    (i : nat) (slots : list Z) (st : page_loop_state) : Rand page_loop_state :=
  match slots with
  | t_i :: ((t_next :: _) as rest) =>
      let! st' := page_view_step inventory h categories_list session_start
                    i t_i t_next st in
      page_view_loop inventory h categories_list session_start (S i) rest st'
  | _ => ret st
  end.

(** [sum(i["subtotal"] for i in transaction_items)]: the subtotals are
    added from left to right, starting from zero (CPython up to 3.11; later
    versions also carry the rounding errors of the partial sums). *)
Definition sum_subtotals (its : list transaction_item) : float :=
  fold_left (fun acc i => fadd acc (item_subtotal i)) its fzero.

(** Lines 366-368 and 405-407: the discount draw. *)
Definition draw_discount (sub : float) : Rand float :=
  let! r := random in
  if Qlt_bool r 0.2 then
    let! d := choice [float_of_decimal 5 100; float_of_decimal 1 10;
                      float_of_decimal 15 100; float_of_decimal 2 10] in
    ret (round2 (fmul sub d))
  else ret fzero.

(** Lines 350-362: reserve every cart entry in order, stopping at the first
    refusal.  Returns [valid], the items and the heap. *)
Fixpoint reserve_cart (inventory : InventoryManager) (entries : cart)
    (h : heap) (transaction_items : list transaction_item)
  : bool * list transaction_item * heap :=
  match entries with
  | [] => (true, transaction_items, h)
  | (pid, details) :: rest =>
      let qty := quantity details in
      if 0 <? qty then
        let '(ok, h') := update_stock inventory h pid qty in
        if ok then
          reserve_cart inventory rest h'
            (transaction_items ++
               [mkItem pid qty (price details)
                  (round2 (fmul (float_of_Z qty) (price details)))])%list
        else (false, transaction_items, h')
      else reserve_cart inventory rest h transaction_items
  end.

(** Lines 392-401: reserve each sampled active product independently. *)
Fixpoint reserve_sampled (inventory : InventoryManager)
    (products_in_txn : list product) (h : heap)
    (transaction_items : list transaction_item)
  : Rand (list transaction_item * heap) :=
  match products_in_txn with
  | [] => ret (transaction_items, h)
  | p :: rest =>
      if is_active p then
        let! qty := randint 1 3 in
        let '(ok, h') := update_stock inventory h (product_id p) qty in
        if ok then
          reserve_sampled inventory rest h'
            (transaction_items ++
               [mkItem (product_id p) qty (base_price p)
                  (round2 (fmul (float_of_Z qty) (base_price p)))])%list
        else reserve_sampled inventory rest h' transaction_items
      else reserve_sampled inventory rest h transaction_items
  end.

(* ===================================================================== *)
(** ** Session and transaction generation *)
(* ===================================================================== *)

(** Truth value of a Python list or dictionary: non-empty. *)
Definition truthy {A} (l : list A) : bool :=
  match l with
  | [] => false
  | _ :: _ => true
  end.

(** The variables of the generation loop. [st_heap] is the [products] list,
    whose objects the inventory manager mutates. *)
Record gen_state := mkState {
  st_heap : heap;
  sessions : list session;
  transactions : list transaction;
  transaction_counter : nat;
  session_counter : nat;
  iteration : nat
}.

(** [TIMESPAN_DAYS] is 90 in both presets. *)
Definition TIMESPAN_DAYS : Z := 90.

Section Generation.

(** The preset ([TEST] or [SUBMISSION]) and the catalog bootstrap. *)
Variables NUM_SESSIONS NUM_TRANSACTIONS : nat.
Variable users : list user.
Variable categories : list category.

Definition MAX_ITERATIONS : nat := ((NUM_SESSIONS + NUM_TRANSACTIONS) * 3)%nat.

(** Lines 271-339: one session.  Returns the emitted record together with
    the working [cart_contents] and the [converted] flag, which the linked
    transaction block reads. *)
Definition generate_session (inventory : InventoryManager) (h : heap)
  : Rand (session * cart * bool) :=
  let! u := choice users in
  let! sid := generate_session_id in
  let! session_start := date_time_between TIMESPAN_DAYS in
  let! session_duration := randint 30 3600 in
  let! n_views := randint 4 12 in
  let! draws := replicateM (Z.to_nat n_views)
                  (randint 1 (Z.max 2 (session_duration - 1))) in
  let time_slots := sorted_set ([0] ++ draws ++ [session_duration])%list in
  let! '(pvs, viewed, cart_contents0) :=
    page_view_loop inventory h categories session_start 0 time_slots
      ([], ∅, []) in
  let! converted :=
    if truthy cart_contents0 &&
       existsb (fun p => String.eqb (page_type p) "checkout"
                         || String.eqb (page_type p) "confirmation") pvs
    then let! r := random in ret (Qlt_bool r 0.7)
    else ret false in
  let! ip := getrandbits in
  let! dtype := choice ["mobile"; "desktop"; "tablet"] in
  let! dos := choice ["iOS"; "Android"; "Windows"; "macOS"] in
  let! dbrowser := choice ["Chrome"; "Safari"; "Firefox"; "Edge"] in
  let! ref := choice ["direct"; "email"; "social"; "search_engine"; "affiliate"] in
  ret (mkSession sid (user_id u) session_start
         (session_start + session_duration) session_duration
         (geo_data u) ip (mkDevice dtype dos dbrowser)
         (elements viewed) pvs
         (List.filter (fun kv => 0 <? quantity (snd kv)) cart_contents0)
         (if converted then "converted"
          else if truthy cart_contents0 then "abandoned" else "browsed")
         ref,
       cart_contents0, converted).

(** Lines 364-384: the emit guard of the linked transaction; [h'] is the
    heap left by the reservations. *)
Definition emit_linked (st : gen_state) (s : session) (valid : bool)
    (transaction_items : list transaction_item) (h' : heap) : Rand gen_state :=
  if valid && truthy transaction_items then
    let sub := sum_subtotals transaction_items in
    let! disc := draw_discount sub in
    let tot := round2 (fsub sub disc) in
    let! tid := generate_transaction_id in
    let! pm := choice ["credit_card"; "paypal"; "apple_pay"; "bank_transfer"] in
    ret (mkState h' (sessions st)
           (transactions st ++
              [mkTransaction tid (Some (session_id s)) (session_user_id s)
                 (start_time s + duration_seconds s)
                 transaction_items (round2 sub) disc tot pm "completed"])%list
           (S (transaction_counter st)) (session_counter st) (iteration st))
  else
    ret (mkState h' (sessions st) (transactions st) (transaction_counter st)
           (session_counter st) (iteration st)).

(** Lines 347-384: the transaction linked to a converted session. *)
Definition linked_transaction (inventory : InventoryManager) (st : gen_state)
    (s : session) (cart_contents0 : cart) : Rand gen_state :=
  let '(valid, transaction_items, h') :=
    reserve_cart inventory cart_contents0 (st_heap st) [] in
  emit_linked st s valid transaction_items h'.

(** Lines 270-384: the session branch of one iteration. *)
Definition session_step (inventory : InventoryManager) (st : gen_state)
  : Rand gen_state :=
  let! '(s, cart_contents0, converted) :=
    generate_session inventory (st_heap st) in
  let st1 := mkState (st_heap st) (sessions st ++ [s])%list (transactions st)
               (transaction_counter st) (S (session_counter st))
               (iteration st) in
  if converted && (transaction_counter st1 <? NUM_TRANSACTIONS)%nat
  then linked_transaction inventory st1 s cart_contents0
  else ret st1.

(** Lines 403-423: the emit guard of the standalone transaction. *)
Definition emit_standalone (st : gen_state) (u : user)
    (transaction_items : list transaction_item) (h' : heap) : Rand gen_state :=
  if truthy transaction_items then
    let sub := sum_subtotals transaction_items in
    let! disc := draw_discount sub in
    let tot := round2 (fsub sub disc) in
    let! tid := generate_transaction_id in
    let! ts := date_time_between TIMESPAN_DAYS in
    let! pm := choice ["credit_card"; "paypal"; "bank_transfer"; "gift_card"] in
    let! stat := choice ["completed"; "processing"; "shipped"; "delivered"] in
    ret (mkState h' (sessions st)
           (transactions st ++
              [mkTransaction tid None (user_id u) ts transaction_items
                 (round2 sub) disc tot pm stat])%list
           (S (transaction_counter st)) (session_counter st)
           (iteration st))
  else
    ret (mkState h' (sessions st) (transactions st)
           (transaction_counter st) (session_counter st) (iteration st)).

(** Lines 387-423: the standalone transaction of one iteration. *)
Definition standalone_transaction (inventory : InventoryManager)
    (st : gen_state) : Rand gen_state :=
  if (transaction_counter st <? NUM_TRANSACTIONS)%nat then
    let! r := random in
    if Qlt_bool r 0.2 then
      let! u := choice users in
      let! products_in_txn :=
        sample (st_heap st) (Nat.min 3 (length (st_heap st))) in
      let! '(transaction_items, h') :=
        reserve_sampled inventory products_in_txn (st_heap st) [] in
      emit_standalone st u transaction_items h'
    else ret st
  else ret st.

(** Lines 265-423: one iteration of the [while] loop. *)
Definition loop_body (inventory : InventoryManager) (st : gen_state)
  : Rand gen_state :=
  let st0 := mkState (st_heap st) (sessions st) (transactions st)
               (transaction_counter st) (session_counter st)
               (S (iteration st)) in
  let! st1 :=
    if (session_counter st0 <? NUM_SESSIONS)%nat
    then session_step inventory st0
    else ret st0 in
  standalone_transaction inventory st1.

(** The [while] loop of line 264; [remaining] is
    [MAX_ITERATIONS - iteration]. *)
Fixpoint generation_loop (inventory : InventoryManager) (remaining : nat)
    (st : gen_state) : Rand gen_state :=
  match remaining with
  | O => ret st
  | S n =>
      if (session_counter st <? NUM_SESSIONS)%nat
         || (transaction_counter st <? NUM_TRANSACTIONS)%nat
      then
        let! st' := loop_body inventory st in
        generation_loop inventory n st'
      else ret st
  end.

(** Lines 255-423 on a bootstrapped product list. *)
Definition initial_state (products0 : heap) : gen_state :=
  mkState products0 [] [] 0 0 0.

Definition generate (products0 : heap) : Rand gen_state :=
  generation_loop (InventoryManager_init products0) MAX_ITERATIONS
    (initial_state products0).

End Generation.

(* ===================================================================== *)
(** ** Specifications *)
(* ===================================================================== *)

(** [triple E m Q]: from every generator state, [m] returns a value
    satisfying [Q], or raises an exception allowed by [E].  With [E] always
    false this is total correctness. *)
Definition triple {A} (E : exn -> Prop) (m : Rand A) (Q : A -> Prop) : Prop :=
  forall s, match m s with
            | Ok a _ => Q a
            | Raise e => E e
            end.

Definition no_exn : exn -> Prop := fun _ => False.
Definition any_exn : exn -> Prop := fun _ => True.

(** Stock of the object at position [r]. *)
Definition stock_at (h : heap) (r : nat) : Z :=
  match h !! r with
  | Some p => current_stock p
  | None => 0
  end.

Definition stocks_nonneg (h : heap) : Prop :=
  forall p, In p h -> 0 <= current_stock p.

(** The inventory dictionary refers to objects of the heap under their own
    id, and every object's id is a key. *)
Definition wf_inventory (inventory : InventoryManager) (h : heap) : Prop :=
  (forall pid r, products inventory !! pid = Some r ->
     exists p, h !! r = Some p /\ product_id p = pid) /\
  (forall p, In p h -> is_Some (products inventory !! product_id p)).

(** Two heaps hold the same objects up to their stock. *)
Definition same_objects (h h' : heap) : Prop :=
  Forall2 (fun p p' => p' = set_stock p (current_stock p')) h h'.

(** Quantity of [pid] over a list of items, and over the items of a list
    of transactions. *)
Definition sold_items (pid : string) (its : list transaction_item) : Z :=
  fold_right (fun i acc =>
                if String.eqb (item_product_id i) pid
                then item_quantity i + acc else acc) 0 its.

Definition sold (pid : string) (ts : list transaction) : Z :=
  fold_right (fun t acc => sold_items pid (items t) + acc) 0 ts.

(** Quantity recorded in a cart for [pid]; zero without an entry. *)
Definition cart_quantity (pid : string) (c : cart) : Z :=
  match cart_get pid c with
  | Some e => quantity e
  | None => 0
  end.

(** Every positive cart quantity is covered by the ledger stock of its
    product, and keys are not repeated. *)
Definition cart_fits (inventory : InventoryManager) (h : heap) (c : cart) : Prop :=
  List.NoDup (map fst c) /\
  forall pid e, In (pid, e) c -> 0 < quantity e ->
    exists p, get_product inventory h pid = Some p /\ quantity e <= current_stock p.

Fixpoint nondecreasing (l : list Z) : Prop :=
  match l with
  | x :: ((y :: _) as l') => x <= y /\ nondecreasing l'
  | _ => True
  end.

Fixpoint increasing (l : list Z) : Prop :=
  match l with
  | x :: ((y :: _) as l') => x < y /\ increasing l'
  | _ => True
  end.

Definition sum_Z (l : list Z) : Z := fold_right Z.add 0 l.

(** Gaps between consecutive slots. *)
Fixpoint gaps (slots : list Z) : list Z :=
  match slots with
  | x :: ((y :: _) as rest) => (y - x) :: gaps rest
  | _ => []
  end.

(** Session monotonicity. *)
Definition session_monotone (s : session) : Prop :=
  nondecreasing (map timestamp (page_views s)) /\
  Forall (fun p => 0 <= view_duration p) (page_views s) /\
  sum_Z (map view_duration (page_views s)) = duration_seconds s.

(** Page-view count bounds. *)
Definition page_view_bounds (s : session) : Prop :=
  30 <= duration_seconds s <= 3600 /\
  (2 <= length (page_views s) <= 13)%nat /\
  Forall (fun p => 0 < view_duration p) (page_views s) /\
  increasing (map timestamp (page_views s)).

Definition reaches_checkout (pvs : list page_view) : Prop :=
  exists p, In p pvs /\ (page_type p = "checkout" \/ page_type p = "confirmation").

(** The conversion precondition on an emitted record. *)
Definition conversion_precondition (s : session) : Prop :=
  conversion_status s = "converted" ->
  cart_contents s <> [] /\ reaches_checkout (page_views s).

(** [k] is an integer nearest to [q], and the even one when two are. *)
Definition nearest_even (q : Q) (k : Z) : Prop :=
  (Qabs (inject_Z k - q) <= 1 # 2)%Q /\
  ((Qabs (inject_Z k - q) == 1 # 2)%Q -> Z.even k = true).

(** The binary64 number nearest to [n / d]. *)
Definition binary64_decimal (s : bool) (n d : positive) : float :=
  SFdiv 53 1024 (S754_finite s n 0) (S754_finite false d 0).

(** The binary64 number nearest to [k] hundredths, with the sign [s]. *)
Definition binary64_cents (s : bool) (k : Z) : float :=
  match k with
  | Z.pos n => binary64_decimal s n 100
  | _ => S754_zero s
  end.

(** [r] is [x] rounded to two decimal places: the binary64 number nearest
    to the multiple of 1/100 nearest to the exact value of [x] (the even
    multiple at a tie), with the sign of [x]; a zero, an infinity or a NaN
    is left as it is. *)
Definition rounds_to_cents (x r : float) : Prop :=
  match x with
  | S754_finite s _ _ =>
      exists k : Z,
        nearest_even (Qabs (float_value x) * 100) k /\ r = binary64_cents s k
  | _ => r = x
  end.

(** The binary64 sum of a list, added from left to right from zero. *)
Definition binary64_sum (l : list float) : float :=
  fold_left (SFadd 53 1024) l (S754_zero false).

(** The binary64 number of an integer. *)
Definition binary64_of_Z (z : Z) : float := binary_normalize 53 1024 z 0 false.

(** The floats [0.05], [0.1], [0.15] and [0.2]. *)
Definition discount_rates : list float :=
  [binary64_decimal false 5 100; binary64_decimal false 1 10;
   binary64_decimal false 15 100; binary64_decimal false 2 10].

(** Transaction totals, in binary64 arithmetic: with [s] the sum of the
    item subtotals, the stored subtotal is [s] rounded to cents, every item
    subtotal is the rounded product of quantity and unit price, the
    discount is zero or the rounded product of [s] and a rate, and the
    total is the rounded difference of [s] and the discount. *)
Definition totals_ok (t : transaction) : Prop :=
  let s := binary64_sum (map item_subtotal (items t)) in
  rounds_to_cents s (subtotal t) /\
  Forall (fun i =>
            rounds_to_cents
              (SFmul 53 1024 (binary64_of_Z (item_quantity i)) (unit_price i))
              (item_subtotal i))
    (items t) /\
  (discount t = S754_zero false \/
   exists d, In d discount_rates /\
             rounds_to_cents (SFmul 53 1024 s d) (discount t)) /\
  rounds_to_cents (SFsub 53 1024 s (discount t)) (total t) /\
  (discount t = S754_zero false -> total t = subtotal t).






(** The seven page types of the browsing state machine. *)
Definition known_page_types : list string :=
  ["home"; "search"; "category_listing"; "product_detail"; "cart"; "checkout";
   "confirmation"].

(** Timestamp and duration of the page views built from [slots]. *)
Fixpoint slot_views (session_start : Z) (slots : list Z) : list (Z * Z) :=
  match slots with
  | x :: ((y :: _) as rest) => (session_start + x, y - x) :: slot_views session_start rest
  | _ => []
  end.

Definition view_times (pvs : list page_view) : list (Z * Z) :=
  map (fun p => (timestamp p, view_duration p)) pvs.

Definition item_priced (i : transaction_item) : Prop :=
  item_subtotal i = round2 (fmul (float_of_Z (item_quantity i)) (unit_price i)).

(** [h'] results from [h] by reservations recorded exactly in [new_items]. *)
Definition reserved (inventory : InventoryManager) (h h' : heap)
    (new_items : list transaction_item) : Prop :=
  same_objects h h' /\
  (stocks_nonneg h -> stocks_nonneg h') /\
  (forall pid r, products inventory !! pid = Some r ->
     stock_at h r - stock_at h' r = sold_items pid new_items) /\
  Forall item_priced new_items.

(** A transaction block took the loop variables from [st] to [st']. *)
Definition txn_step (inventory : InventoryManager) (st st' : gen_state) : Prop :=
  sessions st' = sessions st /\
  session_counter st' = session_counter st /\
  exists new_txns,
    transactions st' = (transactions st ++ new_txns)%list /\
    transaction_counter st' = (transaction_counter st + length new_txns)%nat /\
    Forall totals_ok new_txns /\
    Forall (fun t => items t <> []) new_txns /\
    same_objects (st_heap st) (st_heap st') /\
    (stocks_nonneg (st_heap st) -> stocks_nonneg (st_heap st')) /\
    (forall pid r, products inventory !! pid = Some r ->
       stock_at (st_heap st) r - stock_at (st_heap st') r = sold pid new_txns).

(** The invariant of the generation loop. *)
Record run_inv (inventory : InventoryManager) (products0 : heap)
    (st : gen_state) : Prop := mkRunInv {
  inv_objects : same_objects products0 (st_heap st);
  inv_conservation :
    forall pid r, products inventory !! pid = Some r ->
      stock_at products0 r - stock_at (st_heap st) r = sold pid (transactions st);
  inv_nonneg : stocks_nonneg products0 -> stocks_nonneg (st_heap st);
  inv_monotone : Forall session_monotone (sessions st);
  inv_bounds : Forall page_view_bounds (sessions st);
  inv_checkout :
    Forall (fun s => conversion_status s = "converted" ->
                     reaches_checkout (page_views s)) (sessions st);
  inv_totals : Forall totals_ok (transactions st);
  inv_nonempty : Forall (fun t => items t <> []) (transactions st);
  inv_counter : transaction_counter st = length (transactions st);
  inv_session_counter : session_counter st = length (sessions st)
}.

(** The two operations of the inventory manager, as a client issues them. *)
Inductive ledger_op :=
| Reserve (pid : string) (qty : Z)
| Peek (pid : string).

Definition apply_op (inventory : InventoryManager) (h : heap) (op : ledger_op)
  : heap :=
  match op with
  | Reserve pid qty => snd (update_stock inventory h pid qty)
  | Peek _ => h
  end.

(** The heap after each operation of a sequence. *)
Fixpoint heaps_after (inventory : InventoryManager) (h : heap)
    (ops : list ledger_op) : list heap :=
  match ops with
  | [] => []
  | op :: ops' =>
      let h' := apply_op inventory h op in
      h' :: heaps_after inventory h' ops'
  end.

Definition valid_op (op : ledger_op) : Prop :=
  match op with
  | Reserve _ qty => 1 <= qty
  | Peek _ => True
  end.

(* ===================================================================== *)
(** ** A small catalog and two recorded runs *)
(* ===================================================================== *)

Definition tape_of (draws : list N) : rng := mkRng (fun i => nth i draws 0%N) 0.

Definition sample_users : list user :=
  [mkUser "user_000000" (mkGeo "Lagos" "LA" "NG")].

Definition sample_categories : list category := [mkCategory "cat_000"].

Definition sample_products : heap :=
  [mkProduct "prod_00000" "cat_000" (float_of_decimal 10 1) 5 true;
   mkProduct "prod_00001" "cat_000" (float_of_decimal 25 2) 7 true].

(** One session of 100 seconds that views [prod_00000], adds 2 units, goes
    through cart, checkout and confirmation and converts; then a standalone
    transaction of one unit of each product. *)
Definition sample_tape : rng :=
  tape_of [0; 0; 0; 70; 0; 9; 19; 29; 39; 0; 9007199254740991; 0; 0; 1;
           4503599627370496]%N.

Definition sample_result : result gen_state :=
  generate 1 2 sample_users sample_categories sample_products sample_tape.

Definition sample_state : gen_state :=
  Eval vm_compute in
    match sample_result with
    | Ok st _ => st
    | Raise _ => initial_state []
    end.

Definition sample_cursor_end : nat :=
  Eval vm_compute in
    match sample_result with
    | Ok _ s => cursor s
    | Raise _ => O
    end.

Definition sample_tape_end : rng := mkRng (tape sample_tape) sample_cursor_end.

(** A catalog of one product with ten units.  Ten iterations sell one unit
    each; the eleventh session views the sold-out product, puts a
    zero-quantity entry in the cart and reaches checkout. *)
Definition soldout_products : heap :=
  [mkProduct "prod_00000" "cat_000" (float_of_decimal 10 1) 10 true].

Definition soldout_prefix : nat :=
  Eval vm_compute in
    match generate 10 10 sample_users sample_categories soldout_products
            (tape_of []) with
    | Ok _ s => cursor s
    | Raise _ => O
    end.

Definition soldout_tape : rng :=
  mkRng (fun i =>
           if (i <? soldout_prefix)%nat then 0%N
           else nth (i - soldout_prefix)
                  [0; 0; 0; 70; 0; 9; 19; 29; 39; 0; 9007199254740991;
                   0; 0; 0; 0; 0; 0; 0; 0; 0; 0; 0; 0; 4503599627370496]%N 0%N)
        0.

Definition soldout_result : result gen_state :=
  generate 11 11 sample_users sample_categories soldout_products soldout_tape.




(* ===================================================================== *)
(** ** Further specifications of the generator *)
(* ===================================================================== *)

(** What an item and a cart entry say about a purchase: product, quantity
    and unit price. *)
Definition item_key (i : transaction_item) : string * Z * float :=
  (item_product_id i, item_quantity i, unit_price i).

Definition cart_key (kv : string * cart_entry) : string * Z * float :=
  (fst kv, quantity (snd kv), price (snd kv)).

(** The cart entries a reservation or an emitted record keeps. *)
Definition positive_entries (c : cart) : cart :=
  List.filter (fun kv => 0 <? quantity (snd kv)) c.

(** The exceptions a run can end with: an [IndexError] from a draw in an
    empty list of users, categories or products. *)
Definition empty_catalog_error (users : list user) (categories : list category)
    (products0 : heap) : exn -> Prop :=
  fun e => e = IndexError /\ (users = [] \/ categories = [] \/ products0 = []).

(** Effect of one iteration on the counters. *)
Definition counters_step (NUM_SESSIONS NUM_TRANSACTIONS : nat)
    (st st' : gen_state) : Prop :=
  iteration st' = S (iteration st) /\
  session_counter st' =
    (if (session_counter st <? NUM_SESSIONS)%nat
     then S (session_counter st) else session_counter st) /\
  (transaction_counter st <= transaction_counter st')%nat /\
  ((transaction_counter st <= NUM_TRANSACTIONS)%nat ->
   (transaction_counter st' <= NUM_TRANSACTIONS)%nat).

(** Counters when the loop is left after at most [n] iterations from [st]. *)
Definition loop_exit (NUM_SESSIONS NUM_TRANSACTIONS n : nat)
    (st st' : gen_state) : Prop :=
  (iteration st <= iteration st' <= iteration st + n)%nat /\
  session_counter st' =
    Nat.min NUM_SESSIONS (session_counter st + (iteration st' - iteration st)) /\
  (transaction_counter st <= transaction_counter st' <= NUM_TRANSACTIONS)%nat /\
  ((NUM_SESSIONS <= session_counter st' /\
    NUM_TRANSACTIONS <= transaction_counter st')%nat \/
   iteration st' = (iteration st + n)%nat).

(** The transition table of [determine_page_type]: the page types that can
    follow [prev_page], and the page types a session can start on. *)
Definition entry_pages : list string := ["home"; "search"; "category_listing"].

Definition successors (prev_page : string) : list string :=
  if String.eqb prev_page "home" then
    ["category_listing"; "search"; "product_detail"]
  else if String.eqb prev_page "category_listing" then
    ["product_detail"; "category_listing"; "search"; "home"]
  else if String.eqb prev_page "search" then
    ["product_detail"; "search"; "category_listing"; "home"]
  else if String.eqb prev_page "product_detail" then
    ["product_detail"; "cart"; "category_listing"; "search"; "home"]
  else if String.eqb prev_page "cart" then
    ["checkout"; "product_detail"; "category_listing"; "home"]
  else if String.eqb prev_page "checkout" then
    ["confirmation"; "cart"; "home"]
  else if String.eqb prev_page "confirmation" then
    ["home"; "product_detail"; "category_listing"]
  else ["home"].

Fixpoint follows_table (pts : list string) : Prop :=
  match pts with
  | a :: ((b :: _) as rest) => In b (successors a) /\ follows_table rest
  | _ => True
  end.

Definition browsing_path (pts : list string) : Prop :=
  match pts with
  | [] => True
  | a :: _ => In a entry_pages
  end /\ follows_table pts.

(** References carried by a page view, against a product heap and the
    categories. *)
Definition page_view_refs (h : heap) (categories : list category)
    (pv : page_view) : Prop :=
  (page_type pv = "product_detail" <-> pv_product_id pv <> None) /\
  (forall pid, pv_product_id pv = Some pid -> In pid (map product_id h)) /\
  (forall cid, pv_category_id pv = Some cid ->
     In cid (map category_id categories)) /\
  (page_type pv = "category_listing" -> pv_category_id pv <> None) /\
  (pv_category_id pv <> None ->
   page_type pv = "category_listing" \/ page_type pv = "product_detail") /\
  (forall pid cid, pv_product_id pv = Some pid -> pv_category_id pv = Some cid ->
     exists p, In p h /\ product_id p = pid /\ product_category_id p = cid).

(** Page views [(timestamp, duration)] that tile the interval from [t0] to
    [t_end] without gap or overlap. *)
Fixpoint tiles (t0 : Z) (views : list (Z * Z)) (t_end : Z) : Prop :=
  match views with
  | [] => t0 = t_end
  | (t, d) :: rest => t = t0 /\ tiles (t + d) rest t_end
  end.

(** A cart entry after [n] page views: at most three units per view, at the
    base price of a product of the heap with that id. *)
Definition entry_ok (h : heap) (n : nat) (k : string) (e : cart_entry) : Prop :=
  0 <= quantity e <= 3 * Z.of_nat n /\
  exists p, In p h /\ product_id p = k /\ base_price p = price e.

(** The state of the page loop before slot [i]. *)
Definition page_loop_inv (h : heap) (categories : list category) (i : nat)
    (st : page_loop_state) : Prop :=
  let '(pvs, viewed, c) := st in
  i = length pvs /\
  browsing_path (map page_type pvs) /\
  Forall (page_view_refs h categories) pvs /\
  (forall pid, pid ∈ viewed <->
     exists pv, In pv pvs /\ pv_product_id pv = Some pid) /\
  (forall pid e, In (pid, e) c -> pid ∈ viewed /\ entry_ok h i pid e).

(** What a session record guarantees, against the heap it was built on. *)
Record session_wf (users : list user) (categories : list category) (h : heap)
    (s : session) : Prop := mkSessionWf {
  sw_user : exists u, In u users /\ session_user_id s = user_id u /\
                      session_geo s = geo_data u;
  sw_times : end_time s = start_time s + duration_seconds s /\
             - (TIMESPAN_DAYS * 86400) <= start_time s <= 0;
  sw_tiles : tiles (start_time s) (view_times (page_views s)) (end_time s);
  sw_path : browsing_path (map page_type (page_views s));
  sw_refs : Forall (page_view_refs h categories) (page_views s);
  sw_viewed : List.NoDup (viewed_products s) /\
              forall pid, In pid (viewed_products s) <->
                exists pv, In pv (page_views s) /\ pv_product_id pv = Some pid;
  sw_cart : List.NoDup (map fst (cart_contents s)) /\
            forall pid e, In (pid, e) (cart_contents s) ->
              In pid (viewed_products s) /\
              1 <= quantity e <= 3 * Z.of_nat (length (page_views s)) /\
              exists p, In p h /\ product_id p = pid /\ base_price p = price e;
  sw_status : In (conversion_status s) ["converted"; "abandoned"; "browsed"] /\
              (conversion_status s = "browsed" -> cart_contents s = []) /\
              (conversion_status s <> "browsed" -> viewed_products s <> []);
  sw_profile : In (device_type (device_profile s)) ["mobile"; "desktop"; "tablet"] /\
               In (os (device_profile s)) ["iOS"; "Android"; "Windows"; "macOS"] /\
               In (browser (device_profile s)) ["Chrome"; "Safari"; "Firefox"; "Edge"] /\
               In (referrer s)
                 ["direct"; "email"; "social"; "search_engine"; "affiliate"]
}.

(** An item sold at the base price of a catalog product with its id. *)
Definition item_in_catalog (products0 : heap) (i : transaction_item) : Prop :=
  exists p, In p products0 /\ product_id p = item_product_id i /\
            base_price p = unit_price i.

(** A transaction that mirrors a converted session. *)
Definition linked_to (t : transaction) (s : session) : Prop :=
  txn_session_id t = Some (session_id s) /\
  conversion_status s = "converted" /\
  txn_user_id t = session_user_id s /\
  txn_timestamp t = end_time s /\
  map item_key (items t) = map cart_key (cart_contents s).

(** What a transaction record guarantees, against the catalog and the
    sessions emitted so far. *)
Record txn_wf (users : list user) (products0 : heap) (ss : list session)
    (t : transaction) : Prop := mkTxnWf {
  tw_user : exists u, In u users /\ txn_user_id t = user_id u;
  tw_items : Forall (fun i => 1 <= item_quantity i /\ item_in_catalog products0 i)
               (items t);
  tw_linked :
    forall sid, txn_session_id t = Some sid ->
      (exists s, In s ss /\ linked_to t s) /\
      status t = "completed" /\
      In (payment_method t)
        ["credit_card"; "paypal"; "apple_pay"; "bank_transfer"] /\
      List.NoDup (map item_product_id (items t));
  tw_standalone :
    txn_session_id t = None ->
      (length (items t) <= 3)%nat /\
      Forall (fun i => 1 <= item_quantity i <= 3 /\
                exists p, In p products0 /\ product_id p = item_product_id i /\
                          base_price p = unit_price i /\ is_active p = true)
        (items t) /\
      - (TIMESPAN_DAYS * 86400) <= txn_timestamp t <= 0 /\
      In (payment_method t)
        ["credit_card"; "paypal"; "bank_transfer"; "gift_card"] /\
      In (status t) ["completed"; "processing"; "shipped"; "delivered"] /\
      (List.NoDup (map product_id products0) ->
       List.NoDup (map item_product_id (items t)))
}.

(** The records of a run. *)
Record run_facts (users : list user) (categories : list category)
    (products0 : heap) (st : gen_state) : Prop := mkRunFacts {
  rf_sessions : Forall (session_wf users categories products0) (sessions st);
  rf_txns : Forall (txn_wf users products0 (sessions st)) (transactions st)
}.

(* ===================================================================== *)
(** ** Export of the sessions in chunks (dataset_generator.py, 457-460) *)
(* ===================================================================== *)

(** [CHUNK_SIZE = 100000]: sessions per file. *)
Definition CHUNK_SIZE : nat := 100 * 1000.

(** [range(0, n, step)] for a positive step. *)
Definition range_step (n step : nat) : list nat :=
  map (fun k => (k * step)%nat) (seq 0 ((n + step - 1) / step)).

(** [l[i:j]] for [0 <= i <= j]. *)
Definition slice {A} (l : list A) (i j : nat) : list A :=
  firstn (j - i) (skipn i l).

(** The files written by the loop of lines 457-460 for a chunk size: the
    number in the name of each file, [i // CHUNK_SIZE], and its content. *)
Definition session_chunks_of {A} (chunk_size : nat) (sessions0 : list A)
  : list (nat * list A) :=
  map (fun i => ((i / chunk_size)%nat, slice sessions0 i (i + chunk_size)))
    (range_step (length sessions0) chunk_size).

Definition session_chunks {A} (sessions0 : list A) : list (nat * list A) :=
  session_chunks_of CHUNK_SIZE sessions0.

(* ===================================================================== *)
(** ** Product pairs of a transaction (spark/ecommerce_affinity.py) *)
(* ===================================================================== *)

(** The order of Python strings: code points, position by position. *)
Definition string_le (x y : string) : Prop := String.leb x y = true.

#[global] Instance string_le_dec : RelDecision string_le :=
  fun x y => decide (String.leb x y = true).

(** [sorted(products)]. *)
Definition sorted_strings (l : list string) : list string :=
  merge_sort string_le l.

(** [itertools.combinations(l, 2)]. *)
Fixpoint combinations2 {A} (l : list A) : list (A * A) :=
  match l with
  | [] => []
  | x :: l' => (map (pair x) l' ++ combinations2 l')%list
  end.

(** [generate_pairs(products)]. *)
Definition generate_pairs (product_ids : list string) : list (string * string) :=
  if (length product_ids <? 2)%nat then []
  else combinations2 (sorted_strings product_ids).

(* ===================================================================== *)
(** ** HBase shell commands for sessions (hbase/generate_hbase_puts.py) *)
(* ===================================================================== *)

Module HBase.

(** The JSON values that the fields read by [main] hold in a sessions file:
    [null] (or a missing key, which [dict.get] turns into [None]), a string,
    or an integer ([duration_seconds]). *)
Inductive scalar : Type :=
| SNone
| SStr (s : string)
| SInt (z : Z).

(** [str(x)]. *)
Definition str (x : scalar) : string :=
  match x with
  | SNone => "None"
  | SStr s => s
  | SInt z => NilZero.string_of_int (Z.to_int z)
  end.

Definition quote : ascii := "'"%char.
Definition backslash : ascii := "\"%char.

(** [s.replace("'", "\\'")]: a backslash is put before every quote. *)
Fixpoint replace_quote (s : string) : string :=
  match s with
  | EmptyString => EmptyString
  | String c s' =>
      if Ascii.eqb c quote then String backslash (String quote (replace_quote s'))
      else String c (replace_quote s')
  end.

Definition safe_str (x : scalar) : string :=
  match x with
  | SNone => ""
  | _ => replace_quote (str x)
  end.

Record geo_data : Type := {
  city : scalar;
  state : scalar;
  country : scalar;
  ip_address : scalar;
}.

Record device_profile : Type := {
  type : scalar;
  os : scalar;
  browser : scalar;
}.

(** A session object of a sessions file, with the keys that [main] reads.
    [None] for a nested value is a missing key, [null] or an empty
    container: [s.get(k, {}) or {}] treats the three alike. *)
Record session : Type := {
  user_id : scalar;
  session_id : scalar;
  start_time : scalar;
  end_time : scalar;
  duration_seconds : scalar;
  conversion_status : scalar;
  referrer : scalar;
  geo : option geo_data;
  device : option device_profile;
  viewed_products : option (list scalar);
}.

Definition geo_get (f : geo_data -> scalar) (g : option geo_data) : scalar :=
  match g with Some d => f d | None => SNone end.

Definition device_get (f : device_profile -> scalar) (d : option device_profile) : scalar :=
  match d with Some d => f d | None => SNone end.

Definition rowkey (s : session) : string :=
  safe_str (user_id s) ++ "#" ++ safe_str (start_time s) ++ "#" ++ safe_str (session_id s).

(** The dictionary [cols], in insertion order (its keys are distinct). *)
Definition cols (s : session) : list (string * string) :=
  [ ("s:user_id", safe_str (user_id s));
    ("s:session_id", safe_str (session_id s));
    ("s:start_time", safe_str (start_time s));
    ("s:end_time", safe_str (end_time s));
    ("s:duration_seconds", safe_str (duration_seconds s));
    ("s:conversion_status", safe_str (conversion_status s));
    ("s:referrer", safe_str (referrer s));
    ("s:geo_city", safe_str (geo_get city (geo s)));
    ("s:geo_state", safe_str (geo_get state (geo s)));
    ("s:geo_country", safe_str (geo_get country (geo s)));
    ("s:ip_address", safe_str (geo_get ip_address (geo s)));
    ("s:device_type", safe_str (device_get type (device s)));
    ("s:device_os", safe_str (device_get os (device s)));
    ("s:device_browser", safe_str (device_get browser (device s)));
    ("s:viewed_products",
     safe_str (SStr (String.concat "," (map str (default [] (viewed_products s)))))) ].

Definition newline : string := String "010"%char EmptyString.

Definition put_line (key : string) (kv : string * string) : string :=
  "put 'sessions_by_user', '" ++ key ++ "', '" ++ fst kv ++ "', '" ++ snd kv ++ "'"
    ++ newline.

(** The lines written for one session. *)
Definition puts (s : session) : list string :=
  map (put_line (rowkey s)) (cols s).

(** The state of the two loops: the counter [written] and the lines written
    to [out] so far. *)
Definition out_state : Type := Z * list string.

(** [for s in sessions], with its [break]. *)
Fixpoint write_sessions (limit : Z) (sessions0 : list session) (st : out_state)
  : out_state :=
  match sessions0 with
  | [] => st
  | s :: rest =>
      if limit <=? fst st then st
      else write_sessions limit rest (fst st + 1, (snd st ++ puts s)%list)
  end.

(** [for fp in files], with its [break]; a file is given by the sessions
    that [read_sessions] returns for it. *)
Fixpoint write_files (limit : Z) (files : list (list session)) (st : out_state)
  : out_state :=
  match files with
  | [] => st
  | sessions0 :: rest =>
      let st' := write_sessions limit sessions0 st in
      if limit <=? fst st' then st' else write_files limit rest st'
  end.

Definition header : list string :=
  [ "disable 'sessions_by_user'" ++ newline; "enable 'sessions_by_user'" ++ newline ].

Definition footer : list string := [ "count 'sessions_by_user'" ++ newline ].

(** [main]: [None] is the [SystemExit] raised when no file matches; otherwise
    the number of sessions written and the lines of the output file. *)
Definition main (limit : Z) (files : list (list session)) : option out_state :=
  match files with
  | [] => None
  | _ =>
      let st := write_files limit files (0, header) in
      Some (fst st, (snd st ++ footer)%list)
  end.

(** Every quote of a string directly follows a backslash. *)
Fixpoint quotes_escaped_after (prev : ascii) (s : string) : bool :=
  match s with
  | EmptyString => true
  | String c s' =>
      (negb (Ascii.eqb c quote) || Ascii.eqb prev backslash)
      && quotes_escaped_after c s'
  end.

Definition quotes_escaped (s : string) : bool := quotes_escaped_after "#"%char s.

Fixpoint count_quotes (s : string) : nat :=
  match s with
  | EmptyString => 0
  | String c s' => ((if Ascii.eqb c quote then 1 else 0) + count_quotes s')%nat
  end.

Definition sample_session (n : Z) : session :=
  {| user_id := SStr "user_000001"; session_id := SStr "sess_0000000001";
     start_time := SStr "2025-01-01T00:00:00"; end_time := SStr "2025-01-01T00:10:00";
     duration_seconds := SInt (600 + n); conversion_status := SStr "browsed";
     referrer := SStr "direct";
     geo := Some {| city := SStr "O'Fallon"; state := SStr "MO"; country := SStr "US";
                    ip_address := SNone |};
     device := None;
     viewed_products := Some [SStr "prod_00001"; SStr "prod_00002"] |}.

End HBase.

(* ===================================================================== *)
(** ** Rules of the program logic *)
(* ===================================================================== *)

Section Rules.

Variable E : exn -> Prop.

Lemma triple_ret {A} (a : A) (Q : A -> Prop) : Q a -> triple E (ret a) Q.
Proof. intros H s. exact H. Qed.

Lemma triple_raise {A} (e : exn) (Q : A -> Prop) : E e -> triple E (raise e) Q.
Proof. intros H s. exact H. Qed.

Lemma triple_bind {A B} (m : Rand A) (k : A -> Rand B) (P : A -> Prop)
    (Q : B -> Prop) :
  triple E m P -> (forall a, P a -> triple E (k a) Q) -> triple E (bind m k) Q.
Proof.
  intros Hm Hk s. unfold bind. specialize (Hm s).
  destruct (m s) as [a s'|e]; [exact (Hk a Hm s') | exact Hm].
Qed.

Lemma triple_conseq {A} (m : Rand A) (P Q : A -> Prop) :
  triple E m P -> (forall a, P a -> Q a) -> triple E m Q.
Proof.
  intros Hm HPQ s. specialize (Hm s). destruct (m s); auto.
Qed.

Lemma triple_getrandbits : triple E getrandbits (fun _ => True).
Proof. intros s. exact I. Qed.

Lemma triple_randbelow (n : Z) :
  0 < n -> triple E (randbelow n) (fun r => 0 <= r < n).
Proof.
  intros Hn. unfold randbelow.
  eapply triple_bind; [apply triple_getrandbits|].
  intros d _. apply triple_ret. apply Z.mod_pos_bound. exact Hn.
Qed.

Lemma triple_random : triple E random (fun _ => True).
Proof. intros s. exact I. Qed.

Lemma triple_randint (a b : Z) :
  (b < a -> E ValueError) ->
  triple E (randint a b) (fun r => a <= r <= b).
Proof.
  intros HE. unfold randint. destruct (Z.ltb_spec b a) as [Hlt|Hge].
  - apply triple_raise. auto.
  - eapply triple_bind; [apply triple_randbelow; lia|].
    intros r Hr. cbv beta in Hr. apply triple_ret. lia.
Qed.

Lemma triple_choice {A} (seq : list A) :
  (seq = [] -> E IndexError) ->
  triple E (choice seq) (fun x => In x seq).
Proof.
  intros HE. unfold choice. destruct seq as [|x0 seq'].
  - apply triple_raise. auto.
  - eapply triple_bind; [apply triple_randbelow; simpl length; lia|].
    intros i Hi. cbv beta in Hi. apply triple_ret. apply nth_In. lia.
Qed.

Lemma bisect_le (cum : list Q) (x : Q) (hi : nat) : (bisect cum x hi <= hi)%nat.
Proof.
  unfold bisect.
  etransitivity; [apply length_filter|].
  rewrite length_take. lia.
Qed.

Lemma triple_choices {A} (population : list A) (weights : list Q) :
  population <> [] ->
  length (accumulate 0 weights) = length population ->
  Qle_bool (default 0%Q (last (accumulate 0 weights))) 0 = false ->
  triple E (choices population weights) (fun x => In x population).
Proof.
  intros Hne Hlen Htot. unfold choices.
  destruct population as [|x0 pop']; [congruence|].
  rewrite Hlen, Nat.eqb_refl. simpl negb. cbv iota. rewrite Htot.
  eapply triple_bind; [apply triple_random|].
  intros u _. apply triple_ret. apply nth_In.
  pose proof (bisect_le (accumulate 0 weights) (u * default 0%Q (last (accumulate 0 weights)))%Q
                (length (x0 :: pop') - 1)).
  simpl length in *. lia.
Qed.

Lemma triple_sample {A} (k : nat) : forall (population : list A),
  (k <= length population)%nat ->
  triple E (sample population k) (fun l => forall x, In x l -> In x population).
Proof.
  induction k as [|k IH]; intros population Hk; simpl.
  - apply triple_ret. intros x [].
  - destruct population as [|x0 pop']; [simpl in Hk; lia|].
    eapply triple_bind; [apply triple_randbelow; simpl length; lia|].
    intros j Hj. cbv beta in Hj.
    eapply triple_bind.
    + apply IH. rewrite length_delete.
      * simpl length in *. lia.
      * apply lookup_lt_is_Some. simpl length in *. lia.
    + intros rest Hrest. cbv beta in Hrest. apply triple_ret. intros x [Hx|Hx].
      * subst x. apply nth_In. simpl length in *. lia.
      * apply Hrest in Hx. apply list_elem_of_In in Hx.
        apply list_elem_of_In.
        eapply list_elem_of_delete_inv; eauto.
Qed.

Lemma triple_replicateM {A} (m : Rand A) (P : A -> Prop) (n : nat) :
  triple E m P ->
  triple E (replicateM n m) (fun l => length l = n /\ Forall P l).
Proof.
  intros Hm. induction n as [|n IH]; simpl.
  - apply triple_ret. split; [reflexivity | constructor].
  - eapply triple_bind; [exact Hm|]. intros x Hx.
    eapply triple_bind; [exact IH|]. intros xs Hxs. cbv beta in Hxs. destruct Hxs as [Hlen Hall].
    apply triple_ret. split; [simpl; congruence | constructor; assumption].
Qed.

End Rules.

(* ===================================================================== *)
(** ** The inventory manager *)
(* ===================================================================== *)

Lemma set_stock_id (p : product) : set_stock p (current_stock p) = p.
Proof. destruct p; reflexivity. Qed.

Lemma same_objects_refl (h : heap) : same_objects h h.
Proof.
  unfold same_objects. induction h as [|p h IH]; constructor; auto.
  symmetry. apply set_stock_id.
Qed.

Lemma same_objects_trans (h1 h2 h3 : heap) :
  same_objects h1 h2 -> same_objects h2 h3 -> same_objects h1 h3.
Proof.
  unfold same_objects. intros H12. revert h3.
  induction H12 as [|p1 p2 l1 l2 Hp H12 IH]; intros h3 H23.
  - inversion H23; subst. constructor.
  - inversion H23 as [|p2' p3 l2' l3 Hp3 H23']; subst.
    constructor; [|apply IH; assumption].
    destruct p1, p2, p3; unfold set_stock in *; simpl in *; congruence.
Qed.

Lemma same_objects_insert (h : heap) (r : nat) (p : product) (s : Z) :
  h !! r = Some p -> same_objects h (<[r := set_stock p s]> h).
Proof.
  intros Hr. unfold same_objects.
  rewrite <- (list_insert_id h r p Hr) at 1.
  apply Forall2_insert; [apply same_objects_refl|].
  destruct p; reflexivity.
Qed.

Lemma same_objects_lookup (h h' : heap) (r : nat) (p : product) :
  same_objects h h' -> h !! r = Some p ->
  exists p', h' !! r = Some p' /\ p' = set_stock p (current_stock p').
Proof.
  intros Hs Hr. destruct (Forall2_lookup_l _ _ _ _ _ Hs Hr) as (p' & Hp' & Heq).
  exists p'. split; assumption.
Qed.

Lemma same_objects_In (h h' : heap) (p' : product) :
  same_objects h h' -> In p' h' ->
  exists p, In p h /\ p' = set_stock p (current_stock p').
Proof.
  intros Hs Hin. apply list_elem_of_In, list_elem_of_lookup in Hin.
  destruct Hin as [r Hr].
  destruct (Forall2_lookup_r _ _ _ _ _ Hs Hr) as (p & Hp & Heq).
  exists p. split; [|assumption].
  apply list_elem_of_In, list_elem_of_lookup. eauto.
Qed.

Lemma same_objects_length (h h' : heap) :
  same_objects h h' -> length h' = length h.
Proof. intros Hs. symmetry. eapply Forall2_length; eauto. Qed.

Lemma wf_inventory_same_objects (inventory : InventoryManager) (h h' : heap) :
  same_objects h h' -> wf_inventory inventory h -> wf_inventory inventory h'.
Proof.
  intros Hs [Hrefs Hkeys]. split.
  - intros pid r Hpid. destruct (Hrefs pid r Hpid) as (p & Hp & Hid).
    destruct (same_objects_lookup _ _ _ _ Hs Hp) as (p' & Hp' & Heq).
    exists p'. split; [assumption|]. rewrite Heq. simpl. assumption.
  - intros p' Hin. destruct (same_objects_In _ _ _ Hs Hin) as (p & Hp & Heq).
    rewrite Heq. simpl. apply Hkeys. assumption.
Qed.

(** The three outcomes of [update_stock]. *)
Lemma update_stock_cases (inventory : InventoryManager) (h : heap)
    (pid : string) (qty : Z) :
  (get_product inventory h pid = None /\
   update_stock inventory h pid qty = (false, h)) \/
  (exists p, get_product inventory h pid = Some p /\ current_stock p < qty /\
     update_stock inventory h pid qty = (false, h)) \/
  (exists r p, products inventory !! pid = Some r /\ h !! r = Some p /\
     qty <= current_stock p /\
     update_stock inventory h pid qty =
       (true, <[r := set_stock p (current_stock p - qty)]> h)).
Proof.
  unfold get_product, update_stock.
  destruct (products inventory !! pid) as [r|]; [|left; auto].
  destruct (h !! r) as [p|] eqn:Hr; [|left; auto].
  destruct (Z.leb_spec qty (current_stock p)).
  - right. right. exists r, p. auto.
  - right. left. exists p. auto.
Qed.

Lemma update_stock_same_objects (inventory : InventoryManager) (h : heap)
    (pid : string) (qty : Z) :
  same_objects h (snd (update_stock inventory h pid qty)).
Proof.
  destruct (update_stock_cases inventory h pid qty)
    as [[_ ->]|[(p & _ & _ & ->)|(r & p & _ & Hr & _ & ->)]]; cbn [snd].
  - apply same_objects_refl.
  - apply same_objects_refl.
  - apply same_objects_insert. assumption.
Qed.

Lemma update_stock_nonneg (inventory : InventoryManager) (h : heap)
    (pid : string) (qty : Z) :
  stocks_nonneg h -> stocks_nonneg (snd (update_stock inventory h pid qty)).
Proof.
  intros Hnn.
  destruct (update_stock_cases inventory h pid qty)
    as [[_ ->]|[(p & _ & _ & ->)|(r & p & _ & Hr & Hle & ->)]]; cbn [snd]; auto.
  intros p' Hin. apply list_elem_of_In in Hin.
  apply list_elem_of_lookup in Hin. destruct Hin as [i Hi].
  destruct (decide (i = r)) as [->|Hne].
  - rewrite list_lookup_insert_eq in Hi by (eapply lookup_lt_Some; eauto).
    injection Hi as <-. simpl. lia.
  - rewrite list_lookup_insert_ne in Hi by congruence.
    apply Hnn. apply list_elem_of_In, list_elem_of_lookup. eauto.
Qed.

(** Effect of one [update_stock] on the stock seen through any key. *)
Lemma update_stock_stock_at (inventory : InventoryManager) (h : heap)
    (pid : string) (qty : Z) (pid' : string) (r' : nat) :
  wf_inventory inventory h ->
  products inventory !! pid' = Some r' ->
  stock_at h r' - stock_at (snd (update_stock inventory h pid qty)) r' =
  if fst (update_stock inventory h pid qty) && String.eqb pid pid'
  then qty else 0.
Proof.
  intros [Hrefs _] Hr'.
  destruct (update_stock_cases inventory h pid qty)
    as [[_ ->]|[(p & _ & _ & ->)|(r & p & Hpid & Hr & Hle & ->)]];
    cbn [snd fst andb]; try lia.
  unfold stock_at.
  destruct (String.eqb_spec pid pid') as [->|Hne].
  - assert (r' = r) by congruence. subst r'.
    rewrite list_lookup_insert_eq by (eapply lookup_lt_Some; eauto).
    rewrite Hr. simpl. lia.
  - assert (r' <> r).
    { intros ->. destruct (Hrefs _ _ Hpid) as (p1 & Hp1 & Hid1).
      destruct (Hrefs _ _ Hr') as (p2 & Hp2 & Hid2). congruence. }
    rewrite list_lookup_insert_ne by congruence. lia.
Qed.

(** Other keys keep their object when [pid] is updated. *)
Lemma update_stock_get_other (inventory : InventoryManager) (h : heap)
    (pid : string) (qty : Z) (pid' : string) :
  wf_inventory inventory h -> pid' <> pid ->
  get_product inventory (snd (update_stock inventory h pid qty)) pid' =
  get_product inventory h pid'.
Proof.
  intros [Hrefs _] Hne.
  destruct (update_stock_cases inventory h pid qty)
    as [[_ ->]|[(p & _ & _ & ->)|(r & p & Hpid & Hr & Hle & ->)]]; cbn [snd]; auto.
  unfold get_product. destruct (products inventory !! pid') as [r'|] eqn:Hr'; auto.
  assert (r' <> r).
  { intros ->. destruct (Hrefs _ _ Hpid) as (p1 & Hp1 & Hid1).
    destruct (Hrefs _ _ Hr') as (p2 & Hp2 & Hid2). congruence. }
  apply list_lookup_insert_ne. congruence.
Qed.

Lemma index_products_lookup (ps : list product) : forall (i : nat)
    (m : gmap string nat) (pid : string) (r : nat),
  index_products i ps m !! pid = Some r ->
  m !! pid = Some r \/
  (i <= r)%nat /\ exists p, ps !! (r - i)%nat = Some p /\ product_id p = pid.
Proof.
  induction ps as [|p ps IH]; intros i m pid r H; simpl in H; [left; assumption|].
  apply IH in H. destruct H as [H|(Hle & q & Hq & Hid)].
  - destruct (decide (product_id p = pid)) as [Heq|Hne].
    + subst pid. rewrite lookup_insert_eq in H. injection H as <-.
      right. split; [lia|]. exists p. rewrite Nat.sub_diag. auto.
    + rewrite lookup_insert_ne in H by assumption. left. assumption.
  - right. split; [lia|]. exists q. split; [|assumption].
    replace (r - i)%nat with (S (r - S i)) by lia. exact Hq.
Qed.

Lemma index_products_keeps (ps : list product) : forall (i : nat)
    (m : gmap string nat) (pid : string),
  is_Some (m !! pid) -> is_Some (index_products i ps m !! pid).
Proof.
  induction ps as [|p ps IH]; intros i m pid H; simpl; [assumption|].
  apply IH. destruct (decide (product_id p = pid)) as [Heq|Hne].
  - subst pid. rewrite lookup_insert_eq. eauto.
  - rewrite lookup_insert_ne by assumption. assumption.
Qed.

Lemma index_products_keys (ps : list product) : forall (i : nat)
    (m : gmap string nat) (p : product),
  In p ps -> is_Some (index_products i ps m !! product_id p).
Proof.
  induction ps as [|q ps IH]; intros i m p Hin; simpl; [destruct Hin|].
  destruct Hin as [->|Hin].
  - apply index_products_keeps. rewrite lookup_insert_eq. eauto.
  - apply IH. assumption.
Qed.

Lemma wf_inventory_init (ps : heap) : wf_inventory (InventoryManager_init ps) ps.
Proof.
  split.
  - intros pid r H. simpl in H. apply index_products_lookup in H.
    destruct H as [H|(_ & p & Hp & Hid)].
    + rewrite lookup_empty in H. discriminate.
    + exists p. rewrite Nat.sub_0_r in Hp. auto.
  - intros p Hin. simpl. apply index_products_keys. assumption.
Qed.

(* ===================================================================== *)
(** ** Rounding to cents *)
(* ===================================================================== *)

Lemma round_half_even_nearest (q : Q) : nearest_even q (round_half_even q).
Proof.
  destruct q as [n d]. unfold nearest_even, round_half_even. cbn [Qnum Qden].
  pose proof (Z.div_mod n (Z.pos d) ltac:(lia)) as Hn.
  pose proof (Z.mod_pos_bound n (Z.pos d) ltac:(lia)) as Hr.
  set (fl := n / Z.pos d) in *. set (r := n mod Z.pos d) in *.
  assert (Habs : forall k : Z,
            Qabs (inject_Z k - (n # d))%Q = (Z.abs (k * Z.pos d - n) # d)).
  { intros k. unfold Qabs, Qminus, Qplus, Qopp, inject_Z. cbn [Qnum Qden].
    rewrite Pos.mul_1_l. f_equal. f_equal. lia. }
  rewrite !Habs. unfold Qle, Qeq. cbn [Qnum Qden].
  destruct (Z.ltb_spec (2 * r) (Z.pos d)) as [H1|H1].
  - split; [lia|]. intros H. exfalso. lia.
  - destruct (Z.ltb_spec (Z.pos d) (2 * r)) as [H2|H2].
    + split; [lia|]. intros H. exfalso. lia.
    + destruct (Z.even fl) eqn:He.
      * split; [lia | intros _; exact He].
      * split; [lia|]. intros _. rewrite Z.even_add, He. reflexivity.
Qed.

Lemma nearest_even_comp (q q' : Q) (k : Z) :
  (q == q')%Q -> nearest_even q k -> nearest_even q' k.
Proof.
  intros Hq [H1 H2]. unfold nearest_even. rewrite <- Hq. split; assumption.
Qed.

(** [hundredfold] is a hundred times the magnitude of the float. *)
Lemma hundredfold_value (s : bool) (m : positive) (e : Z) :
  (hundredfold m e == Qabs (float_value (S754_finite s m e)) * 100)%Q.
Proof.
  unfold hundredfold, float_value.
  assert (Habs : forall v : Q, (0 <= v)%Q ->
            (Qabs (if s then (- v)%Q else v) == v)%Q).
  { intros v Hv. destruct s; [rewrite Qabs_opp|]; apply Qabs_pos, Hv. }
  destruct (Z.leb_spec 0 e) as [He|He].
  - rewrite Habs.
    + unfold Qeq, Qmult, inject_Z. cbn [Qnum Qden]. lia.
    + unfold Qle, inject_Z. cbn [Qnum Qden].
      pose proof (Z.pow_pos_nonneg 2 e ltac:(lia) He). nia.
  - rewrite Habs.
    + unfold Qeq, Qmult. cbn [Qnum Qden]. lia.
    + unfold Qle. cbn [Qnum Qden]. lia.
Qed.

(** [round2] rounds to cents. *)
Lemma round2_rounds_to_cents (x : float) : rounds_to_cents x (round2 x).
Proof.
  destruct x as [s|s| |s m e]; try reflexivity.
  unfold rounds_to_cents, round2.
  exists (round_half_even (hundredfold m e)). split.
  - apply (nearest_even_comp (hundredfold m e)); [apply hundredfold_value|].
    apply round_half_even_nearest.
  - destruct (round_half_even (hundredfold m e)); reflexivity.
Qed.

Lemma fsub_fzero (x : float) : fsub x fzero = x.
Proof. destruct x as [[]|[]| |s m e]; reflexivity. Qed.

Lemma draw_discount_rates :
  [float_of_decimal 5 100; float_of_decimal 1 10;
   float_of_decimal 15 100; float_of_decimal 2 10] = discount_rates.
Proof. vm_compute. reflexivity. Qed.

Lemma fold_subtotals (its : list transaction_item) : forall acc : float,
  fold_left (fun a i => fadd a (item_subtotal i)) its acc =
  fold_left (SFadd 53 1024) (map item_subtotal its) acc.
Proof.
  induction its as [|i its IH]; intros acc; [reflexivity|].
  cbn [fold_left map]. apply IH.
Qed.

Lemma sum_subtotals_binary64_sum (its : list transaction_item) :
  sum_subtotals its = binary64_sum (map item_subtotal its).
Proof. apply fold_subtotals. Qed.

(** The record the two emit sites build satisfies the totals property. *)
Lemma emitted_totals_ok (tid : string) (sid : option string) (uid : string)
    (ts : Z) (its : list transaction_item) (disc : float) (pm stat : string) :
  Forall item_priced its ->
  disc = fzero \/
    (exists d, In d discount_rates /\ disc = round2 (fmul (sum_subtotals its) d)) ->
  totals_ok (mkTransaction tid sid uid ts its (round2 (sum_subtotals its)) disc
               (round2 (fsub (sum_subtotals its) disc)) pm stat).
Proof.
  intros Hits Hdisc. unfold totals_ok. cbn [items subtotal discount total].
  rewrite <- sum_subtotals_binary64_sum.
  split; [|split; [|split; [|split]]].
  - apply round2_rounds_to_cents.
  - eapply Forall_impl; [exact Hits|]. intros i Hi. unfold item_priced in Hi.
    rewrite Hi. apply round2_rounds_to_cents.
  - destruct Hdisc as [->|(d & Hd & ->)]; [left; reflexivity|].
    right. exists d. split; [assumption|]. apply round2_rounds_to_cents.
  - apply round2_rounds_to_cents.
  - intros ->. change (S754_zero false) with fzero. rewrite fsub_fzero.
    reflexivity.
Qed.

Lemma triple_draw_discount (E : exn -> Prop) (sub : float) :
  triple E (draw_discount sub)
    (fun disc => disc = fzero \/
       exists d, In d discount_rates /\ disc = round2 (fmul sub d)).
Proof.
  unfold draw_discount. rewrite draw_discount_rates.
  eapply triple_bind; [apply triple_random|]. intros r _.
  destruct (Qlt_bool r 0.2).
  - eapply triple_bind; [apply triple_choice; discriminate|].
    intros d Hd. cbv beta in Hd. apply triple_ret. right. exists d. auto.
  - apply triple_ret. left. reflexivity.
Qed.

(* ===================================================================== *)
(** ** Time slots *)
(* ===================================================================== *)

Lemma insert_sorted_In (x : Z) (l : list Z) (y : Z) :
  In y (insert_sorted x l) <-> y = x \/ In y l.
Proof.
  induction l as [|a l IH]; simpl.
  - intuition.
  - destruct (Z.ltb_spec x a); [simpl; intuition|].
    destruct (Z.eqb_spec x a); simpl; [subst; intuition|].
    rewrite IH. intuition.
Qed.

Lemma increasing_lower (x : Z) (l : list Z) :
  increasing (x :: l) -> forall y, In y l -> x < y.
Proof.
  revert x. induction l as [|a l IH]; intros x Hinc y Hy; [destruct Hy|].
  destruct Hinc as [Hxa Hinc]. destruct Hy as [->|Hy]; [assumption|].
  specialize (IH a Hinc y Hy). lia.
Qed.

Lemma increasing_tail (x : Z) (l : list Z) : increasing (x :: l) -> increasing l.
Proof. destruct l; [intros; exact I | intros [_ H]; exact H]. Qed.

Lemma increasing_cons (x : Z) (l : list Z) :
  (forall y, In y l -> x < y) -> increasing l -> increasing (x :: l).
Proof.
  intros Hlow Hinc. destruct l as [|a l]; [exact I|].
  split; [apply Hlow; left; reflexivity | exact Hinc].
Qed.

Lemma insert_sorted_increasing (x : Z) (l : list Z) :
  increasing l -> increasing (insert_sorted x l).
Proof.
  induction l as [|a l IH]; intros Hinc; [exact I|]. simpl.
  destruct (Z.ltb_spec x a); [split; assumption|].
  destruct (Z.eqb_spec x a); [assumption|].
  apply increasing_cons.
  - intros y Hy. apply insert_sorted_In in Hy. destruct Hy as [->|Hy]; [lia|].
    eapply increasing_lower; eauto.
  - apply IH. eapply increasing_tail; eauto.
Qed.

Lemma insert_sorted_length (x : Z) (l : list Z) :
  (length (insert_sorted x l) <= S (length l))%nat.
Proof.
  induction l as [|a l IH]; simpl; [lia|].
  destruct (x <? a); [simpl; lia|]. destruct (x =? a); simpl; lia.
Qed.

Lemma sorted_set_In (l : list Z) (y : Z) : In y (sorted_set l) <-> In y l.
Proof.
  unfold sorted_set. induction l as [|a l IH]; simpl; [reflexivity|].
  rewrite insert_sorted_In, IH. intuition.
Qed.

Lemma sorted_set_increasing (l : list Z) : increasing (sorted_set l).
Proof.
  unfold sorted_set. induction l as [|a l IH]; simpl; [exact I|].
  apply insert_sorted_increasing. exact IH.
Qed.

Lemma sorted_set_length (l : list Z) : (length (sorted_set l) <= length l)%nat.
Proof.
  unfold sorted_set. induction l as [|a l IH]; simpl; [lia|].
  pose proof (insert_sorted_length a (foldr insert_sorted [] l)). lia.
Qed.

Lemma increasing_head_min (l : list Z) (m : Z) :
  increasing l -> In m l -> (forall y, In y l -> m <= y) ->
  exists rest, l = m :: rest.
Proof.
  intros Hinc Hm Hmin. destruct l as [|a l]; [destruct Hm|].
  destruct Hm as [->|Hm]; [eauto|].
  pose proof (increasing_lower a l Hinc m Hm).
  specialize (Hmin a (or_introl eq_refl)). lia.
Qed.

Lemma increasing_last_max (l : list Z) (M d : Z) :
  increasing l -> In M l -> (forall y, In y l -> y <= M) -> List.last l d = M.
Proof.
  induction l as [|a l IH]; intros Hinc HM Hmax; [destruct HM|].
  destruct l as [|b l].
  - destruct HM as [->|[]]. reflexivity.
  - change (List.last (b :: l) d = M). apply IH.
    + eapply increasing_tail; eauto.
    + destruct HM as [<-|HM]; [|assumption].
      destruct Hinc as [Hab _].
      specialize (Hmax b (or_intror (or_introl eq_refl))). lia.
    + intros y Hy. apply Hmax. right. assumption.
Qed.

Lemma sum_gaps (l : list Z) : forall (x d : Z),
  sum_Z (gaps (x :: l)) = List.last (x :: l) d - x.
Proof.
  induction l as [|a l IH]; intros x d.
  - simpl. lia.
  - change (a - x + sum_Z (gaps (a :: l)) = List.last (a :: l) d - x).
    rewrite (IH a d). lia.
Qed.

Lemma gaps_positive (l : list Z) :
  increasing l -> Forall (fun g => 0 < g) (gaps l).
Proof.
  induction l as [|x l IH]; intros Hinc; [constructor|].
  destruct l as [|y l]; [constructor|].
  destruct Hinc as [Hxy Hinc]. simpl. constructor; [lia|]. apply IH. exact Hinc.
Qed.

Lemma gaps_length (l : list Z) : length (gaps l) = Nat.pred (length l).
Proof.
  induction l as [|x l IH]; [reflexivity|].
  destruct l as [|y l]; [reflexivity|].
  change (S (length (gaps (y :: l))) = S (length l)). rewrite IH. reflexivity.
Qed.

Lemma slot_views_snd (start : Z) (l : list Z) :
  map snd (slot_views start l) = gaps l.
Proof.
  induction l as [|x l IH]; [reflexivity|].
  destruct l as [|y l]; [reflexivity|].
  change (y - x :: map snd (slot_views start (y :: l)) = y - x :: gaps (y :: l)).
  rewrite IH. reflexivity.
Qed.

Lemma slot_views_increasing (start : Z) (l : list Z) :
  increasing l -> increasing (map fst (slot_views start l)).
Proof.
  induction l as [|x l IH]; intros Hinc; [exact I|].
  destruct l as [|y l]; [exact I|].
  destruct Hinc as [Hxy Hinc]. specialize (IH Hinc).
  destruct l as [|z l]; [exact I|].
  split; [simpl; lia | exact IH].
Qed.

Lemma increasing_nondecreasing (l : list Z) : increasing l -> nondecreasing l.
Proof.
  induction l as [|x l IH]; intros Hinc; [exact I|].
  destruct l as [|y l]; [exact I|].
  destruct Hinc as [Hxy Hinc]. split; [lia | apply IH; exact Hinc].
Qed.

(** Shape of [time_slots] for a duration of at least 2 and draws strictly
    between 0 and the duration. *)
Lemma time_slots_shape (d : Z) (draws : list Z) :
  2 <= d -> draws <> [] -> Forall (fun x => 1 <= x <= d - 1) draws ->
  let ts := sorted_set ([0] ++ draws ++ [d])%list in
  increasing ts /\ (exists rest, ts = 0 :: rest) /\ List.last ts 0 = d /\
  (3 <= length ts <= length draws + 2)%nat.
Proof.
  intros Hd Hne Hdraws ts.
  assert (Hin : forall y, In y ts <-> y = 0 \/ In y draws \/ y = d).
  { intros y. unfold ts. rewrite sorted_set_In. simpl.
    rewrite in_app_iff. simpl. intuition. }
  assert (Hrange : forall y, In y ts -> 0 <= y <= d).
  { intros y Hy. apply Hin in Hy. destruct Hy as [->|[Hy| ->]]; try lia.
    rewrite Forall_forall in Hdraws. apply list_elem_of_In in Hy.
    specialize (Hdraws y Hy). cbv beta in Hdraws. lia. }
  pose proof (sorted_set_increasing ([0] ++ draws ++ [d])%list) as Hinc.
  fold ts in Hinc.
  split; [exact Hinc|]. split; [|split].
  - apply increasing_head_min; [exact Hinc | apply Hin; auto |].
    intros y Hy. apply Hrange in Hy. lia.
  - apply increasing_last_max; [exact Hinc | apply Hin; auto |].
    intros y Hy. apply Hrange in Hy. lia.
  - split.
    + destruct draws as [|x draws]; [congruence|].
      inversion Hdraws as [|? ? Hx _]; subst.
      assert (Hnd : List.NoDup [0; x; d]).
      { apply List.NoDup_cons; [simpl; lia|].
        apply List.NoDup_cons; [simpl; lia|].
        apply List.NoDup_cons; [simpl; tauto | apply List.NoDup_nil]. }
      assert (Hincl : incl [0; x; d] ts).
      { intros y Hy. apply Hin. simpl in Hy. simpl. intuition. }
      pose proof (List.NoDup_incl_length Hnd Hincl) as Hlen. simpl in Hlen. exact Hlen.
    + pose proof (sorted_set_length ([0] ++ draws ++ [d])%list) as Hlen.
      fold ts in Hlen. simpl in Hlen. rewrite length_app in Hlen. simpl in Hlen.
      lia.
Qed.

(* ===================================================================== *)
(** ** The cart *)
(* ===================================================================== *)

Lemma cart_get_set_eq (pid : string) (e : cart_entry) (c : cart) :
  cart_get pid (cart_set pid e c) = Some e.
Proof.
  induction c as [|[k e0] c IH]; simpl.
  - rewrite String.eqb_refl. reflexivity.
  - destruct (String.eqb_spec k pid) as [Heq|Hne]; simpl.
    + subst. rewrite String.eqb_refl. reflexivity.
    + destruct (String.eqb_spec k pid); [contradiction | exact IH].
Qed.

Lemma cart_get_set_ne (pid k : string) (e : cart_entry) (c : cart) :
  k <> pid -> cart_get k (cart_set pid e c) = cart_get k c.
Proof.
  intros Hne. induction c as [|[k0 e0] c IH]; simpl.
  - destruct (String.eqb_spec pid k); [congruence | reflexivity].
  - destruct (String.eqb_spec k0 pid) as [Heq|Hne0]; simpl.
    + subst k0. destruct (String.eqb_spec pid k); [congruence | reflexivity].
    + destruct (String.eqb_spec k0 k); [reflexivity | exact IH].
Qed.

Lemma cart_set_keys (pid k : string) (e : cart_entry) (c : cart) :
  In k (map fst (cart_set pid e c)) -> k = pid \/ In k (map fst c).
Proof.
  induction c as [|[k0 e0] c IH]; simpl.
  - intuition.
  - destruct (String.eqb_spec k0 pid); simpl; intuition.
Qed.

Lemma cart_set_NoDup (pid : string) (e : cart_entry) (c : cart) :
  List.NoDup (map fst c) -> List.NoDup (map fst (cart_set pid e c)).
Proof.
  induction c as [|[k0 e0] c IH]; simpl; intros Hnd.
  - apply List.NoDup_cons; [intros [] | apply List.NoDup_nil].
  - inversion Hnd as [|? ? Hnotin Hnd']; subst.
    destruct (String.eqb_spec k0 pid); simpl.
    + apply List.NoDup_cons; assumption.
    + apply List.NoDup_cons; [|apply IH; assumption].
      intros Hin. apply cart_set_keys in Hin. destruct Hin; [congruence | contradiction].
Qed.

Lemma cart_set_In (pid k : string) (e e' : cart_entry) (c : cart) :
  List.NoDup (map fst c) -> In (k, e') (cart_set pid e c) ->
  (k = pid /\ e' = e) \/ (k <> pid /\ In (k, e') c).
Proof.
  induction c as [|[k0 e0] c IH]; simpl; intros Hnd Hin.
  - destruct Hin as [Heq|[]]. injection Heq as <- <-. auto.
  - inversion Hnd as [|? ? Hnotin Hnd']; subst.
    destruct (String.eqb_spec k0 pid) as [->|Hne]; simpl in Hin.
    + destruct Hin as [Heq|Hin]; [injection Heq as <- <-; auto|].
      right. split; [|auto]. intros ->. apply Hnotin.
      apply (in_map fst) in Hin. exact Hin.
    + destruct Hin as [Heq|Hin]; [injection Heq as <- <-; auto|].
      destruct (IH Hnd' Hin) as [?|[? ?]]; auto.
Qed.

Lemma cart_fits_nil (inventory : InventoryManager) (h : heap) :
  cart_fits inventory h [].
Proof. split; [apply List.NoDup_nil | intros pid e []]. Qed.

Lemma cart_fits_set (inventory : InventoryManager) (h : heap) (c : cart)
    (pid : string) (e : cart_entry) :
  cart_fits inventory h c ->
  (0 < quantity e ->
   exists p, get_product inventory h pid = Some p /\ quantity e <= current_stock p) ->
  cart_fits inventory h (cart_set pid e c).
Proof.
  intros [Hnd Hfit] He. split; [apply cart_set_NoDup; exact Hnd|].
  intros k e' Hin Hpos. apply cart_set_In in Hin; [|exact Hnd].
  destruct Hin as [[-> ->]|[_ Hin]]; [apply He; exact Hpos | eapply Hfit; eauto].
Qed.

(** What the add-to-cart block does to the cart. *)
Lemma triple_add_to_cart (E : exn -> Prop) (inventory : InventoryManager)
    (h : heap) (prod : product) (c : cart) (p : product) :
  get_product inventory h (product_id prod) = Some p ->
  triple E (add_to_cart inventory h prod c)
    (fun c' =>
       let pid := product_id prod in
       let q0 := cart_quantity pid c in
       let cap := Z.min 3 (current_stock p - q0) in
       (0 < cap -> 1 <= cart_quantity pid c' - q0 <= cap) /\
       (cap <= 0 -> cart_quantity pid c' = q0) /\
       (forall k, k <> pid -> cart_get k c' = cart_get k c) /\
       (cart_fits inventory h c -> cart_fits inventory h c')).
Proof.
  intros Hget. unfold add_to_cart. rewrite Hget. unfold cart_quantity.
  destruct (cart_get (product_id prod) c) as [e0|] eqn:Hc.
  - rewrite Hc. destruct (Z.ltb_spec 0 (Z.min 3 (current_stock p - quantity e0))) as [Hcap|Hcap].
    + eapply triple_bind; [apply triple_randint; lia|].
      intros r Hr. cbv beta in Hr. apply triple_ret. cbv zeta.
      rewrite cart_get_set_eq. simpl quantity.
      split; [lia|]. split; [lia|]. split.
      * intros k Hk. apply cart_get_set_ne. exact Hk.
      * intros Hfit. apply cart_fits_set; [exact Hfit|].
        simpl. intros _. exists p. split; [exact Hget | lia].
    + apply triple_ret. cbv zeta. rewrite Hc.
      split; [lia|]. split; [lia|]. split; auto.
  - rewrite cart_get_set_eq. simpl quantity. simpl price.
    destruct (Z.ltb_spec 0 (Z.min 3 (current_stock p - 0))) as [Hcap|Hcap].
    + eapply triple_bind; [apply triple_randint; lia|].
      intros r Hr. cbv beta in Hr. apply triple_ret. cbv zeta.
      rewrite cart_get_set_eq. simpl quantity.
      split; [lia|]. split; [lia|]. split.
      * intros k Hk. rewrite !cart_get_set_ne by exact Hk. reflexivity.
      * intros Hfit. apply cart_fits_set.
        -- apply cart_fits_set; [exact Hfit|]. simpl. lia.
        -- simpl. intros _. exists p. split; [exact Hget | lia].
    + apply triple_ret. cbv zeta. rewrite cart_get_set_eq. simpl quantity.
      split; [lia|]. split; [lia|]. split.
      * intros k Hk. apply cart_get_set_ne. exact Hk.
      * intros Hfit. apply cart_fits_set; [exact Hfit|]. simpl. lia.
Qed.

(* ===================================================================== *)
(** ** Page views of one session *)
(* ===================================================================== *)

Lemma wf_get_product (inventory : InventoryManager) (h : heap) (p : product) :
  wf_inventory inventory h -> In p h ->
  exists p', get_product inventory h (product_id p) = Some p'.
Proof.
  intros [Hrefs Hkeys] Hin. destruct (Hkeys p Hin) as [r Hr].
  destruct (Hrefs _ _ Hr) as (p' & Hp' & _).
  exists p'. unfold get_product. rewrite Hr. exact Hp'.
Qed.

Section PageViews.

Variable E : exn -> Prop.
Variable inventory : InventoryManager.
Variable h : heap.
Variable categories_list : list category.
Hypothesis E_products : h = [] -> E IndexError.
Hypothesis E_categories : categories_list = [] -> E IndexError.
Hypothesis Hwf : wf_inventory inventory h.

Lemma triple_determine_page_type (i : nat) (pvs : list page_view) :
  triple E (determine_page_type i pvs) (fun _ => True).
Proof.
  unfold determine_page_type. destruct (i =? 0)%nat.
  - eapply triple_conseq; [apply triple_choice; discriminate | auto].
  - repeat match goal with
           | |- triple _ (if ?b then _ else _) _ =>
               destruct b;
               [eapply triple_conseq;
                [apply triple_choices; [discriminate | reflexivity | reflexivity]
                | auto] |]
           end.
    apply triple_ret. exact I.
Qed.

Lemma triple_product_detail_content (n : nat) :
  triple E (product_detail_content n h categories_list)
    (fun r => forall p, fst r = Some p -> In p h).
Proof.
  induction n as [|n IH]; simpl.
  - eapply triple_bind; [apply triple_choice; exact E_products|].
    intros p Hp. cbv beta in Hp. apply triple_ret. simpl. congruence.
  - eapply triple_bind; [apply triple_choice; exact E_products|].
    intros p Hp. cbv beta in Hp.
    destruct (is_active p && (0 <? current_stock p)); [|exact IH].
    apply triple_ret. simpl. congruence.
Qed.

Lemma triple_get_page_content (pt : string) :
  triple E (get_page_content pt h categories_list)
    (fun r => forall p, fst r = Some p -> In p h).
Proof.
  unfold get_page_content. destruct (String.eqb pt "product_detail").
  - apply triple_product_detail_content.
  - destruct (String.eqb pt "category_listing").
    + eapply triple_bind; [apply triple_choice; exact E_categories|].
      intros c _. apply triple_ret. simpl. discriminate.
    + apply triple_ret. simpl. discriminate.
Qed.

Lemma triple_page_view_step (session_start : Z) (i : nat) (t_i t_next : Z)
    (pvs : list page_view) (viewed : gset string) (c : cart) :
  cart_fits inventory h c ->
  triple E (page_view_step inventory h categories_list session_start i t_i
              t_next (pvs, viewed, c))
    (fun st' =>
       view_times (fst (fst st')) =
         (view_times pvs ++ [(session_start + t_i, t_next - t_i)])%list /\
       cart_fits inventory h (snd st')).
Proof.
  intros Hfit. unfold page_view_step.
  eapply triple_bind; [apply triple_determine_page_type|]. intros pt _.
  eapply triple_bind; [apply triple_get_page_content|].
  intros [prod cat] Hprod. cbv beta in Hprod. simpl fst in Hprod.
  eapply triple_bind with (P := fun vc => cart_fits inventory h (snd vc)).
  - destruct prod as [p|]; [|apply triple_ret; exact Hfit].
    destruct (String.eqb pt "product_detail"); [|apply triple_ret; exact Hfit].
    eapply triple_bind; [apply triple_random|]. intros r _.
    destruct (Qlt_bool r 0.3); [|apply triple_ret; exact Hfit].
    destruct (wf_get_product inventory h p Hwf (Hprod p eq_refl)) as [p' Hp'].
    eapply triple_bind; [apply (triple_add_to_cart E _ _ _ _ _ Hp')|].
    intros c' Hc'. cbv beta zeta in Hc'. apply triple_ret. simpl.
    apply Hc'. exact Hfit.
  - intros [viewed' cart'] Hcart. simpl in Hcart. apply triple_ret. simpl.
    split; [|exact Hcart].
    unfold view_times. rewrite map_app. reflexivity.
Qed.

Lemma triple_page_view_loop (session_start : Z) (slots : list Z) :
  forall (i : nat) (pvs : list page_view) (viewed : gset string) (c : cart),
  cart_fits inventory h c ->
  triple E (page_view_loop inventory h categories_list session_start i slots
              (pvs, viewed, c))
    (fun st' =>
       view_times (fst (fst st')) =
         (view_times pvs ++ slot_views session_start slots)%list /\
       cart_fits inventory h (snd st')).
Proof.
  induction slots as [|t_i rest IH]; intros i pvs viewed c Hfit.
  - apply triple_ret. simpl. rewrite app_nil_r. auto.
  - destruct rest as [|t_next rest'].
    + apply triple_ret. simpl. rewrite app_nil_r. auto.
    + change (triple E
                (bind (page_view_step inventory h categories_list session_start
                         i t_i t_next (pvs, viewed, c))
                   (fun st' => page_view_loop inventory h categories_list
                                 session_start (S i) (t_next :: rest') st'))
                (fun st' =>
                   view_times (fst (fst st')) =
                     (view_times pvs ++
                        (session_start + t_i, t_next - t_i)
                          :: slot_views session_start (t_next :: rest'))%list /\
                   cart_fits inventory h (snd st'))).
      eapply triple_bind; [apply triple_page_view_step; exact Hfit|].
      intros [[pvs1 viewed1] c1] [Hv1 Hc1]. simpl in Hv1, Hc1.
      eapply triple_conseq; [apply IH; exact Hc1|].
      intros st' [Hv Hc]. split; [|exact Hc].
      rewrite Hv, Hv1, <- app_assoc. reflexivity.
Qed.

End PageViews.

(* ===================================================================== *)
(** ** One session *)
(* ===================================================================== *)

Lemma view_times_fst (pvs : list page_view) :
  map fst (view_times pvs) = map timestamp pvs.
Proof. unfold view_times. rewrite map_map. reflexivity. Qed.

Lemma view_times_snd (pvs : list page_view) :
  map snd (view_times pvs) = map view_duration pvs.
Proof. unfold view_times. rewrite map_map. reflexivity. Qed.

Lemma triple_pure {A} (E : exn -> Prop) (m : Rand A) :
  (forall s, exists a s', m s = Ok a s') -> triple E m (fun _ => True).
Proof. intros H s. destruct (H s) as (a & s' & ->). exact I. Qed.

Lemma triple_uuid4_hex (E : exn -> Prop) (w : nat) :
  triple E (uuid4_hex w) (fun _ => True).
Proof. apply triple_pure. intros s. eexists _, _. reflexivity. Qed.

Lemma triple_generate_session_id (E : exn -> Prop) :
  triple E generate_session_id (fun _ => True).
Proof. apply triple_pure. intros s. eexists _, _. reflexivity. Qed.

Lemma triple_generate_transaction_id (E : exn -> Prop) :
  triple E generate_transaction_id (fun _ => True).
Proof. apply triple_pure. intros s. eexists _, _. reflexivity. Qed.

Lemma triple_date_time_between (E : exn -> Prop) :
  triple E (date_time_between TIMESPAN_DAYS) (fun _ => True).
Proof.
  eapply triple_conseq; [|auto].
  unfold date_time_between, TIMESPAN_DAYS. apply triple_randint. lia.
Qed.

Section Session.

Variable E : exn -> Prop.
Variable users : list user.
Variable categories : list category.
Variable inventory : InventoryManager.
Variable h : heap.
Hypothesis E_users : users = [] -> E IndexError.
Hypothesis E_products : h = [] -> E IndexError.
Hypothesis E_categories : categories = [] -> E IndexError.
Hypothesis Hwf : wf_inventory inventory h.

Lemma triple_generate_session :
  triple E (generate_session users categories inventory h)
    (fun r =>
       let s := fst (fst r) in
       let cart0 := snd (fst r) in
       let converted := snd r in
       session_monotone s /\ page_view_bounds s /\
       cart_fits inventory h cart0 /\
       cart_contents s = List.filter (fun kv => 0 <? quantity (snd kv)) cart0 /\
       (conversion_status s = "converted" <-> converted = true) /\
       (converted = true -> cart0 <> [] /\ reaches_checkout (page_views s))).
Proof.
  unfold generate_session.
  eapply triple_bind; [apply triple_choice; exact E_users|]. intros u _.
  eapply triple_bind; [apply triple_generate_session_id|]. intros sid _.
  eapply triple_bind; [apply triple_date_time_between|].
  intros session_start _.
  eapply triple_bind; [apply triple_randint; lia|].
  intros d Hd. cbv beta in Hd.
  eapply triple_bind; [apply triple_randint; lia|].
  intros n Hn. cbv beta in Hn.
  eapply triple_bind.
  { apply triple_replicateM. apply triple_randint. lia. }
  intros draws [Hlen Hdraws].
  assert (Hne : draws <> []).
  { intros ->. simpl in Hlen. lia. }
  assert (Hdraws' : Forall (fun x => 1 <= x <= d - 1) draws).
  { eapply Forall_impl; [exact Hdraws|]. intros x Hx. cbv beta in Hx. lia. }
  destruct (time_slots_shape d draws ltac:(lia) Hne Hdraws')
    as (Hinc & [rest Hhead] & Hlast & Hlen3 & Hlen14).
  set (ts := sorted_set ([0] ++ draws ++ [d])%list) in *.
  eapply triple_bind.
  { apply (triple_page_view_loop E inventory h categories E_products
             E_categories Hwf session_start ts 0%nat [] ∅ []).
    apply cart_fits_nil. }
  intros [[pvs viewed] cart0] [Hviews Hfit].
  simpl in Hviews, Hfit.
  eapply triple_bind with
    (P := fun conv : bool => conv = true ->
            cart0 <> [] /\ reaches_checkout pvs).
  { destruct (truthy cart0) eqn:Hcart; simpl andb.
    - destruct (existsb _ pvs) eqn:Hex.
      + eapply triple_bind; [apply triple_random|]. intros r _.
        apply triple_ret. intros _. split.
        * intros ->. discriminate.
        * apply existsb_exists in Hex. destruct Hex as (p & Hp & Hpt).
          exists p. split; [exact Hp|].
          apply orb_true_iff in Hpt.
          destruct Hpt as [Hpt|Hpt]; apply String.eqb_eq in Hpt; auto.
      + apply triple_ret. discriminate.
    - apply triple_ret. discriminate. }
  intros converted Hconv. cbv beta in Hconv.
  eapply triple_bind; [apply triple_getrandbits|]. intros ip _.
  eapply triple_bind; [apply triple_choice; discriminate|]. intros dtype _.
  eapply triple_bind; [apply triple_choice; discriminate|]. intros dos _.
  eapply triple_bind; [apply triple_choice; discriminate|]. intros dbrowser _.
  eapply triple_bind; [apply triple_choice; discriminate|]. intros ref _.
  apply triple_ret. cbv zeta. simpl fst. simpl snd.
  assert (Htimes : map timestamp pvs = map fst (slot_views session_start ts)).
  { rewrite <- view_times_fst, Hviews. reflexivity. }
  assert (Hdur : map view_duration pvs = gaps ts).
  { rewrite <- view_times_snd, Hviews. simpl. apply slot_views_snd. }
  assert (Hpos : Forall (fun p => 0 < view_duration p) pvs).
  { apply Forall_map. fold (map view_duration pvs).
    rewrite Hdur. apply gaps_positive. exact Hinc. }
  assert (Hcount : length pvs = Nat.pred (length ts)).
  { rewrite <- (length_map view_duration), Hdur. apply gaps_length. }
  split; [|split; [|split; [|split; [|split]]]].
  - unfold session_monotone. simpl. split; [|split].
    + rewrite Htimes. apply increasing_nondecreasing, slot_views_increasing.
      exact Hinc.
    + eapply Forall_impl; [exact Hpos|]. intros p Hp. cbv beta in Hp. lia.
    + rewrite Hdur, Hhead, (sum_gaps rest 0 0), <- Hhead, Hlast. lia.
  - unfold page_view_bounds. simpl. split; [lia|]. split; [|split].
    + rewrite Hcount. lia.
    + exact Hpos.
    + rewrite Htimes. apply slot_views_increasing. exact Hinc.
  - exact Hfit.
  - reflexivity.
  - simpl. destruct converted; [tauto|].
    destruct (truthy cart0); split; discriminate.
  - simpl. exact Hconv.
Qed.

End Session.

(* ===================================================================== *)
(** ** Reservations *)
(* ===================================================================== *)

Lemma sold_items_app (pid : string) (l1 l2 : list transaction_item) :
  sold_items pid (l1 ++ l2) = sold_items pid l1 + sold_items pid l2.
Proof.
  unfold sold_items. induction l1 as [|i l1 IH]; simpl; [reflexivity|].
  destruct (String.eqb (item_product_id i) pid); lia.
Qed.

Lemma sold_app (pid : string) (l1 l2 : list transaction) :
  sold pid (l1 ++ l2) = sold pid l1 + sold pid l2.
Proof.
  unfold sold. induction l1 as [|t l1 IH]; simpl; [reflexivity|]. lia.
Qed.

Lemma reserved_refl (inventory : InventoryManager) (h : heap) :
  reserved inventory h h [].
Proof.
  split; [apply same_objects_refl|]. split; [auto|]. split; [|constructor].
  intros pid r _. simpl. lia.
Qed.

(** One [update_stock] followed by further reservations. *)
Lemma reserved_step (inventory : InventoryManager) (h h1 h' : heap)
    (pid : string) (qty : Z) (pr : float) (ok : bool)
    (new : list transaction_item) :
  wf_inventory inventory h ->
  update_stock inventory h pid qty = (ok, h1) ->
  reserved inventory h1 h' new ->
  reserved inventory h h'
    (if ok then mkItem pid qty pr (round2 (fmul (float_of_Z qty) pr)) :: new else new).
Proof.
  intros Hwf Hupd (Hobj & Hnn & Hstock & Hpriced).
  pose proof (update_stock_same_objects inventory h pid qty) as Hobj1.
  pose proof (update_stock_nonneg inventory h pid qty) as Hnn1.
  rewrite Hupd in Hobj1, Hnn1. simpl in Hobj1, Hnn1.
  split; [eapply same_objects_trans; eauto|]. split; [auto|]. split.
  - intros pid' r' Hr'.
    pose proof (update_stock_stock_at inventory h pid qty pid' r' Hwf Hr') as Hd.
    rewrite Hupd in Hd. simpl fst in Hd. simpl snd in Hd.
    specialize (Hstock pid' r' Hr').
    destruct ok; simpl in Hd.
    + simpl. destruct (String.eqb pid pid'); lia.
    + lia.
  - destruct ok; [constructor; [reflexivity | assumption] | assumption].
Qed.

Lemma cart_fits_tail (inventory : InventoryManager) (h : heap)
    (kv : string * cart_entry) (c : cart) :
  cart_fits inventory h (kv :: c) -> cart_fits inventory h c.
Proof.
  intros [Hnd Hfit]. split.
  - inversion Hnd; assumption.
  - intros pid e Hin. apply Hfit. right. exact Hin.
Qed.

(** In the generation loop the reservation of a cart never fails: [valid]
    stays true and every decrement is recorded in an item. *)
Lemma reserve_cart_fits (inventory : InventoryManager) (c : cart) :
  forall (h : heap) (items0 : list transaction_item),
  wf_inventory inventory h -> cart_fits inventory h c ->
  exists new h',
    reserve_cart inventory c h items0 = (true, (items0 ++ new)%list, h') /\
    reserved inventory h h' new.
Proof.
  induction c as [|[pid e] c IH]; intros h items0 Hwf Hfit.
  - exists [], h. simpl. rewrite app_nil_r. split; [reflexivity|].
    apply reserved_refl.
  - simpl. destruct (Z.ltb_spec 0 (quantity e)) as [Hpos|Hnpos].
    + destruct Hfit as [Hnd Hcover].
      destruct (Hcover pid e (or_introl eq_refl) Hpos) as (p & Hp & Hle).
      destruct (update_stock inventory h pid (quantity e)) as [ok h1] eqn:Hupd.
      assert (Hok : ok = true).
      { destruct (update_stock_cases inventory h pid (quantity e))
          as [[Hnone _]|[(p' & Hp' & Hlt & _)|(r & p' & _ & _ & _ & Heq)]];
          congruence || (rewrite Hp in Hp'; injection Hp' as <-; lia). }
      subst ok.
      assert (Hwf1 : wf_inventory inventory h1).
      { eapply wf_inventory_same_objects; [|exact Hwf].
        pose proof (update_stock_same_objects inventory h pid (quantity e)) as H.
        rewrite Hupd in H. exact H. }
      assert (Hfit1 : cart_fits inventory h1 c).
      { inversion Hnd as [|? ? Hnotin Hnd']; subst. split; [exact Hnd'|].
        intros k e' Hin Hq.
        destruct (Hcover k e' (or_intror Hin) Hq) as (p' & Hp' & Hle').
        exists p'. split; [|exact Hle'].
        pose proof (update_stock_get_other inventory h pid (quantity e) k Hwf) as Hg.
        rewrite Hupd in Hg. simpl in Hg. rewrite Hg; [exact Hp'|].
        intros ->. apply Hnotin. apply (in_map fst) in Hin. exact Hin. }
      destruct (IH h1 (items0 ++ [mkItem pid (quantity e) (price e)
                                    (round2 (fmul (float_of_Z (quantity e)) (price e)))])%list
                  Hwf1 Hfit1) as (new & h' & Hres & Hreserved).
      exists (mkItem pid (quantity e) (price e)
                (round2 (fmul (float_of_Z (quantity e)) (price e))) :: new), h'.
      split.
      * rewrite Hres, <- app_assoc. reflexivity.
      * exact (reserved_step inventory h h1 h' pid (quantity e) (price e) true
                 new Hwf Hupd Hreserved).
    + apply IH; [exact Hwf | eapply cart_fits_tail; exact Hfit].
Qed.

Lemma triple_reserve_sampled (E : exn -> Prop) (inventory : InventoryManager)
    (ps : list product) :
  forall (h : heap) (items0 : list transaction_item),
  wf_inventory inventory h ->
  triple E (reserve_sampled inventory ps h items0)
    (fun r => exists new,
       fst r = (items0 ++ new)%list /\ reserved inventory h (snd r) new).
Proof.
  induction ps as [|p ps IH]; intros h items0 Hwf.
  - apply triple_ret. exists []. simpl. rewrite app_nil_r.
    split; [reflexivity | apply reserved_refl].
  - simpl. destruct (is_active p); [|apply IH; exact Hwf].
    eapply triple_bind; [apply triple_randint; lia|].
    intros qty _.
    destruct (update_stock inventory h (product_id p) qty) as [ok h1] eqn:Hupd.
    assert (Hwf1 : wf_inventory inventory h1).
    { eapply wf_inventory_same_objects; [|exact Hwf].
      pose proof (update_stock_same_objects inventory h (product_id p) qty) as H.
      rewrite Hupd in H. exact H. }
    destruct ok.
    + eapply triple_conseq; [apply IH; exact Hwf1|].
      intros [its h'] (new & Hits & Hres). simpl in Hits, Hres.
      exists (mkItem (product_id p) qty (base_price p)
                (round2 (fmul (float_of_Z qty) (base_price p))) :: new).
      simpl. split; [rewrite Hits, <- app_assoc; reflexivity|].
      exact (reserved_step inventory h h1 h' (product_id p) qty (base_price p)
               true new Hwf Hupd Hres).
    + eapply triple_conseq; [apply IH; exact Hwf1|].
      intros [its h'] (new & Hits & Hres). simpl in Hits, Hres.
      exists new. simpl. split; [exact Hits|].
      exact (reserved_step inventory h h1 h' (product_id p) qty (base_price p)
               false new Hwf Hupd Hres).
Qed.

(* ===================================================================== *)
(** ** Transactions and the loop invariant *)
(* ===================================================================== *)

Lemma txn_step_skip (inventory : InventoryManager) (st : gen_state) (h' : heap) :
  reserved inventory (st_heap st) h' [] ->
  txn_step inventory st
    (mkState h' (sessions st) (transactions st) (transaction_counter st)
       (session_counter st) (iteration st)).
Proof.
  intros (Hobj & Hnn & Hstock & _). split; [reflexivity|]. split; [reflexivity|].
  exists []. simpl. rewrite app_nil_r, Nat.add_0_r.
  repeat (split; [first [reflexivity | constructor | assumption]|]).
  exact Hstock.
Qed.

Lemma txn_step_emit (inventory : InventoryManager) (st : gen_state) (h' : heap)
    (t : transaction) :
  reserved inventory (st_heap st) h' (items t) ->
  items t <> [] -> totals_ok t ->
  txn_step inventory st
    (mkState h' (sessions st) (transactions st ++ [t])%list
       (S (transaction_counter st)) (session_counter st) (iteration st)).
Proof.
  intros (Hobj & Hnn & Hstock & _) Hne Htot.
  split; [reflexivity|]. split; [reflexivity|].
  exists [t]. simpl.
  split; [reflexivity|]. split; [lia|].
  split; [constructor; [exact Htot | constructor]|].
  split; [constructor; [exact Hne | constructor]|].
  split; [exact Hobj|]. split; [exact Hnn|].
  intros pid r Hr. rewrite (Hstock pid r Hr). lia.
Qed.

Lemma txn_step_refl (inventory : InventoryManager) (st : gen_state) :
  txn_step inventory st st.
Proof.
  split; [reflexivity|]. split; [reflexivity|].
  exists []. simpl. rewrite app_nil_r, Nat.add_0_r.
  split; [reflexivity|]. split; [reflexivity|].
  split; [constructor|]. split; [constructor|].
  split; [apply same_objects_refl|]. split; [auto|].
  intros pid r _. lia.
Qed.

Lemma run_inv_txn_step (inventory : InventoryManager) (products0 : heap)
    (st st' : gen_state) :
  run_inv inventory products0 st -> txn_step inventory st st' ->
  run_inv inventory products0 st'.
Proof.
  intros [] (Hs & Hsc & new & Ht & Htc & Htot & Hne & Hobj & Hnn & Hstock).
  constructor.
  - eapply same_objects_trans; eauto.
  - intros pid r Hr. rewrite Ht, sold_app.
    rewrite <- (inv_conservation0 pid r Hr), <- (Hstock pid r Hr). lia.
  - auto.
  - rewrite Hs. assumption.
  - rewrite Hs. assumption.
  - rewrite Hs. assumption.
  - rewrite Ht. apply Forall_app. split; assumption.
  - rewrite Ht. apply Forall_app. split; assumption.
  - rewrite Htc, Ht, length_app. lia.
  - rewrite Hsc, Hs. assumption.
Qed.

Lemma run_inv_add_session (inventory : InventoryManager) (products0 : heap)
    (st : gen_state) (s : session) :
  run_inv inventory products0 st ->
  session_monotone s -> page_view_bounds s ->
  (conversion_status s = "converted" -> reaches_checkout (page_views s)) ->
  run_inv inventory products0
    (mkState (st_heap st) (sessions st ++ [s])%list (transactions st)
       (transaction_counter st) (S (session_counter st)) (iteration st)).
Proof.
  intros [] Hm Hb Hc. constructor; simpl; try assumption.
  - apply Forall_app. split; [assumption | constructor; [exact Hm | constructor]].
  - apply Forall_app. split; [assumption | constructor; [exact Hb | constructor]].
  - apply Forall_app. split; [assumption | constructor; [exact Hc | constructor]].
  - rewrite length_app. simpl. lia.
Qed.

Lemma run_inv_iteration (inventory : InventoryManager) (products0 : heap)
    (st : gen_state) (n : nat) :
  run_inv inventory products0 st ->
  run_inv inventory products0
    (mkState (st_heap st) (sessions st) (transactions st)
       (transaction_counter st) (session_counter st) n).
Proof. intros []. constructor; simpl; assumption. Qed.

Lemma run_inv_initial (products0 : heap) :
  run_inv (InventoryManager_init products0) products0 (initial_state products0).
Proof.
  constructor; simpl; try constructor; auto.
  - apply same_objects_refl.
  - intros pid r _. lia.
Qed.

Lemma truthy_nonempty {A} (l : list A) : truthy l = true -> l <> [].
Proof. destruct l; [discriminate | discriminate]. Qed.

Section Loop.

Variable E : exn -> Prop.
Variables NUM_SESSIONS NUM_TRANSACTIONS : nat.
Variable users : list user.
Variable categories : list category.
Variable inventory : InventoryManager.
Variable products0 : heap.
Hypothesis E_users : users = [] -> E IndexError.
Hypothesis E_products : products0 = [] -> E IndexError.
Hypothesis E_categories : categories = [] -> E IndexError.
Hypothesis Hwf0 : wf_inventory inventory products0.

Lemma triple_linked_transaction (st : gen_state) (s : session) (c : cart) :
  wf_inventory inventory (st_heap st) ->
  cart_fits inventory (st_heap st) c ->
  triple E (linked_transaction inventory st s c) (txn_step inventory st).
Proof.
  intros Hwf Hfit. unfold linked_transaction.
  destruct (reserve_cart_fits inventory c (st_heap st) [] Hwf Hfit)
    as (new & h' & Hres & Hreserved).
  rewrite Hres. cbn [app]. cbv iota beta. unfold emit_linked.
  destruct new as [|i new]; cbn [truthy andb].
  - apply triple_ret. apply txn_step_skip. exact Hreserved.
  - cbv zeta.
    eapply triple_bind; [apply triple_draw_discount|].
    intros disc Hdisc. cbv beta in Hdisc.
    eapply triple_bind; [apply triple_generate_transaction_id|]. intros tid _.
    eapply triple_bind; [apply triple_choice; discriminate|]. intros pm _.
    apply triple_ret. apply txn_step_emit; simpl.
    + exact Hreserved.
    + discriminate.
    + apply emitted_totals_ok; [|exact Hdisc].
      destruct Hreserved as (_ & _ & _ & Hp). exact Hp.
Qed.

Lemma triple_standalone_transaction (st : gen_state) :
  wf_inventory inventory (st_heap st) ->
  triple E (standalone_transaction NUM_TRANSACTIONS users inventory st)
    (txn_step inventory st).
Proof.
  intros Hwf. unfold standalone_transaction.
  destruct (transaction_counter st <? NUM_TRANSACTIONS)%nat;
    [|apply triple_ret; apply txn_step_refl].
  eapply triple_bind; [apply triple_random|]. intros r _.
  destruct (Qlt_bool r 0.2); [|apply triple_ret; apply txn_step_refl].
  eapply triple_bind; [apply triple_choice; exact E_users|]. intros u _.
  eapply triple_bind; [apply triple_sample; lia|]. intros ps _.
  eapply triple_bind; [apply triple_reserve_sampled; exact Hwf|].
  intros [its h'] (new & Hits & Hreserved). simpl in Hits, Hreserved.
  subst its. unfold emit_standalone.
  destruct new as [|i new]; cbn [truthy].
  - apply triple_ret. apply txn_step_skip. exact Hreserved.
  - cbv zeta.
    eapply triple_bind; [apply triple_draw_discount|].
    intros disc Hdisc. cbv beta in Hdisc.
    eapply triple_bind; [apply triple_generate_transaction_id|]. intros tid _.
    eapply triple_bind; [apply triple_date_time_between|]. intros ts _.
    eapply triple_bind; [apply triple_choice; discriminate|]. intros pm _.
    eapply triple_bind; [apply triple_choice; discriminate|]. intros stat _.
    apply triple_ret. apply txn_step_emit; simpl.
    + exact Hreserved.
    + discriminate.
    + apply emitted_totals_ok; [|exact Hdisc].
      destruct Hreserved as (_ & _ & _ & Hp). exact Hp.
Qed.

Lemma run_inv_wf (st : gen_state) :
  run_inv inventory products0 st -> wf_inventory inventory (st_heap st).
Proof.
  intros []. eapply wf_inventory_same_objects; eauto.
Qed.

Lemma run_inv_heap_empty (st : gen_state) :
  run_inv inventory products0 st -> st_heap st = [] -> E IndexError.
Proof.
  intros [] Hnil. apply E_products.
  apply same_objects_length in inv_objects0. rewrite Hnil in inv_objects0.
  destruct products0; [reflexivity | discriminate].
Qed.

Lemma triple_session_step (st : gen_state) :
  run_inv inventory products0 st ->
  triple E (session_step NUM_TRANSACTIONS users categories inventory st)
    (run_inv inventory products0).
Proof.
  intros Hinv. unfold session_step.
  eapply triple_bind.
  { apply (triple_generate_session E users categories inventory (st_heap st)
             E_users (run_inv_heap_empty st Hinv) E_categories
             (run_inv_wf st Hinv)). }
  intros [[s c] converted] (Hm & Hb & Hfit & _ & Hstatus & Hconv).
  simpl in Hm, Hb, Hfit, Hstatus, Hconv.
  assert (Hinv1 : run_inv inventory products0
            (mkState (st_heap st) (sessions st ++ [s])%list (transactions st)
               (transaction_counter st) (S (session_counter st)) (iteration st))).
  { apply run_inv_add_session; try assumption.
    intros Hc. apply Hstatus in Hc. apply Hconv in Hc. tauto. }
  cbv zeta.
  match goal with
  | |- triple _ (if ?b then _ else _) _ => destruct b
  end.
  - eapply triple_conseq.
    + apply triple_linked_transaction; simpl.
      * apply (run_inv_wf st Hinv).
      * exact Hfit.
    + intros st' Hstep. eapply run_inv_txn_step; eauto.
  - apply triple_ret. exact Hinv1.
Qed.

Lemma triple_loop_body (st : gen_state) :
  run_inv inventory products0 st ->
  triple E (loop_body NUM_SESSIONS NUM_TRANSACTIONS users categories inventory st)
    (run_inv inventory products0).
Proof.
  intros Hinv. unfold loop_body.
  pose proof (run_inv_iteration inventory products0 st (S (iteration st)) Hinv)
    as Hinv0.
  cbv zeta.
  eapply triple_bind with (P := run_inv inventory products0).
  - match goal with
    | |- triple _ (if ?b then _ else _) _ => destruct b
    end.
    + apply triple_session_step. exact Hinv0.
    + apply triple_ret. exact Hinv0.
  - intros st1 Hinv1.
    eapply triple_conseq.
    + apply triple_standalone_transaction. apply run_inv_wf. exact Hinv1.
    + intros st' Hstep. eapply run_inv_txn_step; eauto.
Qed.

Lemma triple_generation_loop (n : nat) : forall st : gen_state,
  run_inv inventory products0 st ->
  triple E (generation_loop NUM_SESSIONS NUM_TRANSACTIONS users categories
              inventory n st)
    (run_inv inventory products0).
Proof.
  induction n as [|n IH]; intros st Hinv; simpl.
  - apply triple_ret. exact Hinv.
  - match goal with
    | |- triple _ (if ?b then _ else _) _ => destruct b
    end.
    + eapply triple_bind; [apply triple_loop_body; exact Hinv|].
      intros st' Hinv'. apply IH. exact Hinv'.
    + apply triple_ret. exact Hinv.
Qed.

End Loop.

(** The invariant holds after any number of iterations, from the initial
    state of a bootstrapped product list. *)
Lemma generation_loop_invariant (E : exn -> Prop)
    (NUM_SESSIONS NUM_TRANSACTIONS : nat) (users : list user)
    (categories : list category) (products0 : heap) (n : nat) :
  (users = [] -> E IndexError) ->
  (products0 = [] -> E IndexError) ->
  (categories = [] -> E IndexError) ->
  triple E
    (generation_loop NUM_SESSIONS NUM_TRANSACTIONS users categories
       (InventoryManager_init products0) n (initial_state products0))
    (run_inv (InventoryManager_init products0) products0).
Proof.
  intros Hu Hp Hc.
  apply triple_generation_loop; auto.
  - apply wf_inventory_init.
  - apply run_inv_initial.
Qed.

(** Reading a triple at a given tape. *)
Lemma triple_result {A} (E : exn -> Prop) (m : Rand A) (Q : A -> Prop)
    (s s' : rng) (a : A) :
  triple E m Q -> m s = Ok a s' -> Q a.
Proof. intros H Hm. specialize (H s). rewrite Hm in H. exact H. Qed.

Lemma triple_total {A} (m : Rand A) (Q : A -> Prop) (s : rng) :
  triple no_exn m Q -> exists a s', m s = Ok a s' /\ Q a.
Proof.
  intros H. specialize (H s). destruct (m s) as [a s'|e]; [eauto | destruct H].
Qed.

(* ===================================================================== *)
(** ** Runs of the generator *)
(* ===================================================================== *)

Lemma generation_loop_run_inv (NUM_SESSIONS NUM_TRANSACTIONS : nat)
    (users : list user) (categories : list category) (products0 : heap)
    (n : nat) (tape tape' : rng) (st : gen_state) :
  generation_loop NUM_SESSIONS NUM_TRANSACTIONS users categories
    (InventoryManager_init products0) n (initial_state products0) tape
    = Ok st tape' ->
  run_inv (InventoryManager_init products0) products0 st.
Proof.
  intros H. eapply (triple_result any_exn); [|exact H].
  apply generation_loop_invariant; intros; exact I.
Qed.

Lemma generate_run_inv (NUM_SESSIONS NUM_TRANSACTIONS : nat)
    (users : list user) (categories : list category) (products0 : heap)
    (tape tape' : rng) (st : gen_state) :
  generate NUM_SESSIONS NUM_TRANSACTIONS users categories products0 tape
    = Ok st tape' ->
  run_inv (InventoryManager_init products0) products0 st.
Proof. apply generation_loop_run_inv. Qed.

Lemma sample_run : sample_result = Ok sample_state sample_tape_end.
Proof. vm_compute. reflexivity. Qed.

(* ===================================================================== *)
(** ** Inventory ledger *)
(* ===================================================================== *)

Lemma holds_stock_nonempty (d : pydict) (p : product) :
  holds_stock d p -> (size d =? 0)%nat = false.
Proof.
  intros Hd. apply Nat.eqb_neq. intros Hsize.
  apply map_size_empty_iff in Hsize. subst d.
  unfold holds_stock in Hd. rewrite lookup_empty in Hd. discriminate.
Qed.

Lemma update_stock_dict_refines (inventory : InventoryManager) (h : heap)
    (pid : string) (qty : Z) (hd : list pydict) :
  Forall2 holds_stock hd h ->
  exists hd',
    update_stock_dict inventory hd pid qty
      = inr (fst (update_stock inventory h pid qty), hd') /\
    Forall2 holds_stock hd' (snd (update_stock inventory h pid qty)) /\
    Forall2 (fun d d' => forall key, key <> "current_stock" -> d' !! key = d !! key)
      hd hd'.
Proof.
  intros Hrep.
  assert (Hsame : Forall2 (fun d d' : pydict =>
                     forall key, key <> "current_stock" -> d' !! key = d !! key)
                    hd hd).
  { clear. induction hd; constructor; auto. }
  unfold update_stock_dict, update_stock.
  destruct (products inventory !! pid) as [r|]; [|exists hd; auto].
  destruct (h !! r) as [p|] eqn:Hr.
  - destruct (Forall2_lookup_r _ _ _ _ _ Hrep Hr) as (d & Hd & Hdp).
    rewrite Hd, (holds_stock_nonempty d p Hdp). unfold holds_stock in Hdp.
    rewrite Hdp. cbn [stock_ge stock_sub].
    destruct (qty <=? current_stock p); cbn [fst snd]; [|exists hd; auto].
    exists (<[r := <["current_stock" := PyInt (current_stock p - qty)]> d]> hd).
    split; [reflexivity|]. split.
    + apply Forall2_insert; [exact Hrep|].
      unfold holds_stock. rewrite lookup_insert_eq. reflexivity.
    + rewrite <- (list_insert_id hd r d Hd) at 1.
      apply Forall2_insert; [exact Hsame|].
      intros key Hkey. apply lookup_insert_ne. congruence.
  - assert (Hnone : hd !! r = None).
    { apply lookup_ge_None. rewrite (Forall2_length _ _ _ Hrep).
      apply lookup_ge_None. exact Hr. }
    rewrite Hnone. exists hd. auto.
Qed.

(** Outside that precondition the method does raise: a dictionary without
    the key gives [KeyError], a stock that is not a number [TypeError]. *)
Example update_stock_dict_raises :
  let inventory := InventoryManager_init sample_products in
  let second := product_dict (mkProduct "prod_00001" "cat_000"
                                (float_of_decimal 25 2) 7 true) in
  update_stock_dict inventory
    [{["product_id" := PyStr "prod_00000"]}; second] "prod_00000" 1
    = inl KeyError /\
  update_stock_dict inventory
    [{["current_stock" := PyNone]}; second] "prod_00000" 1
    = inl TypeError /\
  update_stock_dict inventory
    [{["current_stock" := PyFloat (float_of_decimal 5 2)]}] "prod_00000" 2
    = inr (true, [{["current_stock" := PyFloat (float_of_decimal 1 2)]}]).
Proof. vm_compute. repeat split; reflexivity. Qed.

(** C3. Reserve contract: [update_stock] returns true exactly when the
    product exists in the ledger and its stock covers the quantity; the
    object of that product then reads a stock lower by exactly the quantity,
    with its other fields as before, and no other object is touched.  In
    every other case it returns false and the heap is unchanged.  It never
    raises: run on dictionaries that carry the integer stocks of the heap,
    the method returns the same flag without an exception, leaves
    dictionaries that carry the stocks of the heap after the call, and
    changes no key other than [current_stock]. *)
Theorem update_stock_contract (inventory : InventoryManager) (h : heap)
    (pid : string) (qty : Z) :
  let ok := fst (update_stock inventory h pid qty) in
  let h' := snd (update_stock inventory h pid qty) in
  (ok = true <->
   exists p, get_product inventory h pid = Some p /\ qty <= current_stock p) /\
  (ok = true ->
   exists r p p', products inventory !! pid = Some r /\ h !! r = Some p /\
     h' !! r = Some p' /\ get_product inventory h' pid = Some p' /\
     current_stock p' = current_stock p - qty /\
     product_id p' = product_id p /\
     product_category_id p' = product_category_id p /\
     base_price p' = base_price p /\
     is_active p' = is_active p /\
     length h' = length h /\
     (forall r', r' <> r -> h' !! r' = h !! r')) /\
  (ok = false -> h' = h) /\
  (forall hd : list pydict, Forall2 holds_stock hd h ->
     exists hd',
       update_stock_dict inventory hd pid qty = inr (ok, hd') /\
       Forall2 holds_stock hd' h' /\
       Forall2 (fun d d' => forall key, key <> "current_stock" ->
                                        d' !! key = d !! key) hd hd').
Proof.
  cbv zeta. split; [|split; [|split]];
    [| | |apply update_stock_dict_refines];
    destruct (update_stock_cases inventory h pid qty)
      as [[Hnone ->]|[(p & Hp & Hlt & ->)|(r & p & Hpid & Hr & Hle & ->)]];
    cbn [fst snd]; try discriminate; try reflexivity.
  - split; [discriminate|]. intros (p & Hp & _). congruence.
  - split; [discriminate|]. intros (p' & Hp' & Hle).
    rewrite Hp in Hp'. injection Hp' as <-. lia.
  - split; [|reflexivity]. intros _. exists p. split; [|exact Hle].
    unfold get_product. rewrite Hpid. exact Hr.
  - intros _. exists r, p, (set_stock p (current_stock p - qty)).
    assert (Hlt : (r < length h)%nat) by (eapply lookup_lt_Some; eauto).
    split; [exact Hpid|]. split; [exact Hr|].
    split; [apply list_lookup_insert_eq, Hlt|].
    split; [unfold get_product; rewrite Hpid; apply list_lookup_insert_eq, Hlt|].
    split; [reflexivity|]. split; [reflexivity|]. split; [reflexivity|].
    split; [reflexivity|]. split; [reflexivity|].
    split; [apply length_insert|].
    intros r' Hne. apply list_lookup_insert_ne. congruence.
Qed.

Lemma update_stock_contract_witness :
  fst (update_stock (InventoryManager_init sample_products) sample_products
         "prod_00001" 7) = true /\
  snd (update_stock (InventoryManager_init sample_products) sample_products
         "prod_00001" 8) = sample_products /\
  (exists hd',
     update_stock_dict (InventoryManager_init sample_products)
       (map product_dict sample_products) "prod_00001" 7 = inr (true, hd') /\
     Forall2 holds_stock hd'
       (snd (update_stock (InventoryManager_init sample_products)
               sample_products "prod_00001" 7))).
Proof.
  split; [|split].
  - apply (update_stock_contract (InventoryManager_init sample_products)
             sample_products "prod_00001" 7).
    exists (mkProduct "prod_00001" "cat_000" (float_of_decimal 25 2) 7 true).
    split; [reflexivity | simpl; lia].
  - apply (update_stock_contract (InventoryManager_init sample_products)
             sample_products "prod_00001" 8).
    reflexivity.
  - destruct (update_stock_contract (InventoryManager_init sample_products)
                sample_products "prod_00001" 7) as (_ & _ & _ & Hdict).
    destruct (Hdict (map product_dict sample_products)) as (hd' & Hrun & Hst & _).
    + repeat constructor.
    + exists hd'. split; [exact Hrun | exact Hst].
Defined.

Lemma heaps_after_nonneg (inventory : InventoryManager) (ops : list ledger_op) :
  forall h : heap,
  stocks_nonneg h -> Forall valid_op ops ->
  Forall stocks_nonneg (heaps_after inventory h ops).
Proof.
  induction ops as [|op ops IH]; intros h Hnn Hops; simpl; [constructor|].
  inversion Hops; subst.
  assert (Hnn' : stocks_nonneg (apply_op inventory h op)).
  { destruct op as [pid qty|pid]; simpl; [|exact Hnn].
    apply update_stock_nonneg. exact Hnn. }
  constructor; [exact Hnn'|]. apply IH; assumption.
Qed.

(** C2. Non-negativity: from stocks that are all non-negative, after every
    operation of any sequence of reservations of at least one unit and of
    peeks, every stock is non-negative; and in a run of the generation loop
    started on such a catalog, every stock is non-negative after any number
    of iterations. *)
Theorem stock_never_negative :
  (forall (inventory : InventoryManager) (h : heap) (ops : list ledger_op),
     stocks_nonneg h -> Forall valid_op ops ->
     Forall stocks_nonneg (heaps_after inventory h ops)) /\
  (forall (NUM_SESSIONS NUM_TRANSACTIONS : nat) (users : list user)
          (categories : list category) (products0 : heap) (n : nat)
          (tape tape' : rng) (st : gen_state),
     stocks_nonneg products0 ->
     generation_loop NUM_SESSIONS NUM_TRANSACTIONS users categories
       (InventoryManager_init products0) n (initial_state products0) tape
       = Ok st tape' ->
     stocks_nonneg (st_heap st)).
Proof.
  split.
  - intros inventory h ops. apply heaps_after_nonneg.
  - intros NS NT users categories products0 n tape tape' st Hnn Hrun.
    apply generation_loop_run_inv in Hrun. destruct Hrun. auto.
Qed.

Lemma sample_products_nonneg : stocks_nonneg sample_products.
Proof.
  intros p Hp. simpl in Hp.
  destruct Hp as [<-|[<-|[]]]; simpl; lia.
Qed.

Lemma stock_never_negative_witness :
  Forall stocks_nonneg
    (heaps_after (InventoryManager_init sample_products) sample_products
       [Reserve "prod_00000" 5; Peek "prod_00000"; Reserve "prod_00000" 5]) /\
  stocks_nonneg (st_heap sample_state).
Proof.
  destruct stock_never_negative as [Hops Hrun]. split.
  - apply Hops; [exact sample_products_nonneg|].
    repeat constructor; simpl; lia.
  - apply (Hrun 1%nat 2%nat sample_users sample_categories sample_products
             (MAX_ITERATIONS 1 2) sample_tape sample_tape_end sample_state).
    + exact sample_products_nonneg.
    + vm_compute. reflexivity.
Defined.

(** The scenario of two reservations of 2 on a stock of 2: the first
    succeeds, the second is refused, the stock ends at 0. *)
Example two_reservations_of_two :
  let inventory := InventoryManager_init [mkProduct "p" "c" (float_of_decimal 1 1) 2 true] in
  let '(ok1, h1) := update_stock inventory [mkProduct "p" "c" (float_of_decimal 1 1) 2 true] "p" 2 in
  let '(ok2, h2) := update_stock inventory h1 "p" 2 in
  ok1 = true /\ ok2 = false /\ map current_stock h2 = [0].
Proof. vm_compute. repeat split. Qed.

(** The linked block is entered with the cart the session has just built
    against the same heap; such a cart is reserved in full, so [valid] is
    never cleared in a run. *)
Lemma linked_reservation_succeeds (users : list user)
    (categories : list category) (products0 h : heap) (tape tape' : rng)
    (s : session) (c : cart) (converted : bool) :
  same_objects products0 h ->
  generate_session users categories (InventoryManager_init products0) h tape
    = Ok (s, c, converted) tape' ->
  fst (fst (reserve_cart (InventoryManager_init products0) c h [])) = true.
Proof.
  intros Hobj Hrun.
  assert (Hwf : wf_inventory (InventoryManager_init products0) h).
  { eapply wf_inventory_same_objects; [exact Hobj | apply wf_inventory_init]. }
  pose proof (triple_result any_exn _ _ _ _ _
                (triple_generate_session any_exn users categories
                   (InventoryManager_init products0) h
                   (fun _ => I) (fun _ => I) (fun _ => I) Hwf) Hrun)
    as (_ & _ & Hfit & _).
  simpl in Hfit.
  destruct (reserve_cart_fits (InventoryManager_init products0) c h [] Hwf Hfit)
    as (new & h' & Hres & _).
  rewrite Hres. reflexivity.
Qed.

(** Outside a run, a cart whose second entry exceeds the stock stops the
    block with [valid] false after the first entry has been reserved. *)
Example reserve_cart_stops_at_refusal :
  reserve_cart (InventoryManager_init sample_products)
    [("prod_00000", mkCartEntry 2 (float_of_decimal 10 1)); ("prod_00001", mkCartEntry 9 (float_of_decimal 25 2))]
    sample_products [] =
  (false,
   [mkItem "prod_00000" 2 (float_of_decimal 10 1) (float_of_decimal 20 1)],
   [mkProduct "prod_00000" "cat_000" (float_of_decimal 10 1) 3 true;
    mkProduct "prod_00001" "cat_000" (float_of_decimal 25 2) 7 true]).
Proof. reflexivity. Qed.

(** C1. Stock conservation: after a complete run of the generation loop,
    for every product of the ledger the initial stock minus the final stock
    is the sum of the quantities of that product over the items of all
    emitted transactions, linked and standalone. *)
Theorem stock_conservation (NUM_SESSIONS NUM_TRANSACTIONS : nat)
    (users : list user) (categories : list category) (products0 : heap)
    (tape tape' : rng) (st : gen_state) :
  generate NUM_SESSIONS NUM_TRANSACTIONS users categories products0 tape
    = Ok st tape' ->
  forall pid p0,
    get_product (InventoryManager_init products0) products0 pid = Some p0 ->
    exists p1,
      get_product (InventoryManager_init products0) (st_heap st) pid = Some p1 /\
      current_stock p0 - current_stock p1 = sold pid (transactions st).
Proof.
  intros Hrun pid p0 Hp0. apply generate_run_inv in Hrun. destruct Hrun.
  unfold get_product in *.
  destruct (products (InventoryManager_init products0) !! pid) as [r|] eqn:Hr;
    [|discriminate].
  destruct (same_objects_lookup _ _ _ _ inv_objects0 Hp0) as (p1 & Hp1 & _).
  exists p1. split; [exact Hp1|].
  rewrite <- (inv_conservation0 pid r Hr). unfold stock_at.
  rewrite Hp0, Hp1. reflexivity.
Qed.

Lemma stock_conservation_witness :
  exists p1,
    get_product (InventoryManager_init sample_products) (st_heap sample_state)
      "prod_00000" = Some p1 /\
    5 - current_stock p1 = sold "prod_00000" (transactions sample_state).
Proof.
  apply (stock_conservation 1 2 sample_users sample_categories sample_products
           sample_tape sample_tape_end sample_state)
    with (p0 := mkProduct "prod_00000" "cat_000" (float_of_decimal 10 1) 5 true).
  - vm_compute. reflexivity.
  - reflexivity.
Defined.

(* ===================================================================== *)
(** ** Browsing state machine and sessions *)
(* ===================================================================== *)

(** C9 as stated fails: after a page of an unknown type the function does
    not draw from the distribution of [home]; it returns ["home"], which
    that distribution never yields. *)
Lemma unknown_prior_page_not_drawn :
  ~ (forall (position : nat) (previous_pages : list page_view) (p : page_view)
            (s : rng),
       (0 < position)%nat -> last previous_pages = Some p ->
       ~ In (page_type p) known_page_types ->
       exists pt s', determine_page_type position previous_pages s = Ok pt s' /\
                     In pt ["category_listing"; "search"; "product_detail"]).
Proof.
  intros H.
  destruct (H 1%nat [mkPageView 0 "wishlist" None None 0]
              (mkPageView 0 "wishlist" None None 0) (tape_of []))
    as (pt & s' & Hrun & Hin).
  - lia.
  - reflexivity.
  - simpl. intros Hk. repeat (destruct Hk as [Hk|Hk]; [discriminate|]). exact Hk.
  - vm_compute in Hrun. injection Hrun as <- _.
    simpl in Hin. repeat (destruct Hin as [Hin|Hin]; [discriminate|]). exact Hin.
Qed.

(** C9, amended. For a position other than 0 and a last page whose type is
    none of the seven known ones, the result is the page type ["home"] and
    no draw is made.  With an empty history the function draws from the
    distribution of [home]: category_listing, search or product_detail with
    weights 0.5, 0.3 and 0.2. *)
Theorem unknown_prior_page_returns_home :
  (forall (position : nat) (previous_pages : list page_view) (p : page_view)
          (s : rng),
     (0 < position)%nat -> last previous_pages = Some p ->
     ~ In (page_type p) known_page_types ->
     determine_page_type position previous_pages s = Ok "home" s) /\
  (forall (position : nat) (s : rng),
     (0 < position)%nat ->
     determine_page_type position [] s =
       choices ["category_listing"; "search"; "product_detail"]
         [0.5; 0.3; 0.2]%Q s /\
     exists pt s', determine_page_type position [] s = Ok pt s' /\
                   In pt ["category_listing"; "search"; "product_detail"]).
Proof.
  split.
  - intros position pvs p s Hpos Hlast Hnot. unfold determine_page_type.
    destruct position as [|n]; [lia|]. cbn [Nat.eqb]. rewrite Hlast.
    repeat match goal with
           | |- context [String.eqb (page_type p) ?k] =>
               destruct (String.eqb_spec (page_type p) k) as [Heq|_];
               [exfalso; apply Hnot; rewrite Heq; simpl; tauto|]
           end.
    reflexivity.
  - intros position s Hpos. unfold determine_page_type.
    destruct position as [|n]; [lia|]. cbn [Nat.eqb last]. cbn [String.eqb].
    split; [reflexivity|].
    apply (triple_total
             (choices ["category_listing"; "search"; "product_detail"]
                [0.5; 0.3; 0.2]%Q)
             (fun pt => In pt ["category_listing"; "search"; "product_detail"])).
    apply triple_choices; [discriminate | reflexivity | reflexivity].
Qed.

Lemma unknown_prior_page_returns_home_witness :
  determine_page_type 3 [mkPageView 0 "wishlist" None None 0] (tape_of [5%N])
    = Ok "home" (tape_of [5%N]) /\
  exists pt s', determine_page_type 3 [] (tape_of [5%N]) = Ok pt s' /\
                In pt ["category_listing"; "search"; "product_detail"].
Proof.
  destruct unknown_prior_page_returns_home as [Hunknown Hunset]. split.
  - apply (Hunknown 3%nat [mkPageView 0 "wishlist" None None 0]
             (mkPageView 0 "wishlist" None None 0)).
    + lia.
    + reflexivity.
    + simpl. intros Hk. repeat (destruct Hk as [Hk|Hk]; [discriminate|]). exact Hk.
  - apply (Hunset 3%nat (tape_of [5%N])). lia.
Defined.

(** C6. Cart-add cap: with [stock_left] the ledger stock of the product
    minus the quantity already in the cart for it, the block adds between 1
    and [min(3, stock_left)] units when that minimum is positive and leaves
    the quantity unchanged otherwise; an addition never exceeds
    [stock_left]; entries of other products are not touched. *)
Theorem cart_add_cap (inventory : InventoryManager) (h : heap) (prod : product)
    (c : cart) (p : product) (tape : rng) :
  get_product inventory h (product_id prod) = Some p ->
  exists c' tape',
    add_to_cart inventory h prod c tape = Ok c' tape' /\
    let pid := product_id prod in
    let stock_left := current_stock p - cart_quantity pid c in
    let added := cart_quantity pid c' - cart_quantity pid c in
    (0 < Z.min 3 stock_left -> 1 <= added <= Z.min 3 stock_left) /\
    (Z.min 3 stock_left <= 0 -> added = 0) /\
    (added <> 0 -> added <= stock_left) /\
    (forall k, k <> pid -> cart_get k c' = cart_get k c).
Proof.
  intros Hget.
  destruct (triple_total _ _ tape
              (triple_add_to_cart no_exn inventory h prod c p Hget))
    as (c' & tape' & Hrun & Hpos & Hzero & Hother & _).
  exists c', tape'. split; [exact Hrun|]. cbv zeta.
  split; [exact Hpos|]. split; [intros Hle; specialize (Hzero Hle); lia|].
  split; [|exact Hother].
  intros Hadded.
  destruct (Z_lt_le_dec 0 (Z.min 3 (current_stock p -
                                      cart_quantity (product_id prod) c)))
    as [Hlt|Hle].
  - specialize (Hpos Hlt). lia.
  - specialize (Hzero Hle). lia.
Qed.

(** The scenario of a cart holding 3 units of a product with 5 in stock:
    [stock_left] is 2 and the addition is capped at 2. *)
Lemma cart_add_cap_witness :
  exists c' tape',
    add_to_cart (InventoryManager_init sample_products) sample_products
      (mkProduct "prod_00000" "cat_000" (float_of_decimal 10 1) 5 true)
      [("prod_00000", mkCartEntry 3 (float_of_decimal 10 1))] (tape_of [7%N]) = Ok c' tape' /\
    1 <= cart_quantity "prod_00000" c' - 3 <= 2.
Proof.
  destruct (cart_add_cap (InventoryManager_init sample_products) sample_products
              (mkProduct "prod_00000" "cat_000" (float_of_decimal 10 1) 5 true)
              [("prod_00000", mkCartEntry 3 (float_of_decimal 10 1))]
              (mkProduct "prod_00000" "cat_000" (float_of_decimal 10 1) 5 true) (tape_of [7%N])
              eq_refl)
    as (c' & tape' & Hrun & Hpos & _).
  exists c', tape'. split; [exact Hrun|].
  apply Hpos. vm_compute. reflexivity.
Defined.

(** C5. Session monotonicity: in every session emitted by a run the
    page-view timestamps are non-decreasing in list order, every
    [view_duration] is non-negative, and the durations add up to
    [duration_seconds]. *)
Theorem session_monotonicity (NUM_SESSIONS NUM_TRANSACTIONS : nat)
    (users : list user) (categories : list category) (products0 : heap)
    (tape tape' : rng) (st : gen_state) :
  generate NUM_SESSIONS NUM_TRANSACTIONS users categories products0 tape
    = Ok st tape' ->
  Forall session_monotone (sessions st).
Proof. intros Hrun. apply generate_run_inv in Hrun. destruct Hrun. assumption. Qed.

Lemma session_monotonicity_witness :
  Forall session_monotone (sessions sample_state) /\ sessions sample_state <> [].
Proof.
  split.
  - apply (session_monotonicity 1 2 sample_users sample_categories
             sample_products sample_tape sample_tape_end sample_state).
    vm_compute. reflexivity.
  - discriminate.
Defined.

(** C10. Page-view count bounds: every emitted session lasts between 30 and
    3600 seconds, has at least 2 and at most 13 page views, every
    [view_duration] is strictly positive and the timestamps are strictly
    increasing. *)
Theorem page_view_count_bounds (NUM_SESSIONS NUM_TRANSACTIONS : nat)
    (users : list user) (categories : list category) (products0 : heap)
    (tape tape' : rng) (st : gen_state) :
  generate NUM_SESSIONS NUM_TRANSACTIONS users categories products0 tape
    = Ok st tape' ->
  Forall page_view_bounds (sessions st).
Proof. intros Hrun. apply generate_run_inv in Hrun. destruct Hrun. assumption. Qed.

Lemma page_view_count_bounds_witness :
  Forall page_view_bounds (sessions sample_state) /\
  map (fun s => length (page_views s)) (sessions sample_state) = [5%nat].
Proof.
  split.
  - apply (page_view_count_bounds 1 2 sample_users sample_categories
             sample_products sample_tape sample_tape_end sample_state).
    vm_compute. reflexivity.
  - reflexivity.
Defined.

(** Both bounds of C10 are reached: all draws equal gives 2 page views, 12
    distinct draws give 13. *)
Example page_view_counts_reached :
  match generate_session sample_users sample_categories
          (InventoryManager_init sample_products) sample_products (tape_of []),
        generate_session sample_users sample_categories
          (InventoryManager_init sample_products) sample_products
          (tape_of [0; 0; 0; 70; 8; 1; 2; 3; 4; 5; 6; 7; 8; 9; 10; 11; 12]%N)
  with
  | Ok (s1, _, _) _, Ok (s2, _, _) _ =>
      length (page_views s1) = 2%nat /\ length (page_views s2) = 13%nat
  | _, _ => False
  end.
Proof. vm_compute. split; reflexivity. Qed.

(** The part of the conversion precondition that the code does establish:
    a converted session has a checkout or confirmation page view. *)
Lemma converted_sessions_reach_checkout (NUM_SESSIONS NUM_TRANSACTIONS : nat)
    (users : list user) (categories : list category) (products0 : heap)
    (tape tape' : rng) (st : gen_state) :
  generate NUM_SESSIONS NUM_TRANSACTIONS users categories products0 tape
    = Ok st tape' ->
  Forall (fun s => conversion_status s = "converted" ->
                   reaches_checkout (page_views s)) (sessions st).
Proof. intros Hrun. apply generate_run_inv in Hrun. destruct Hrun. assumption. Qed.

(** C4 on the recorded run from a catalog of one product with ten units:
    the eleventh session is emitted as converted with an empty
    [cart_contents], so the conversion precondition does not hold for it. *)
Theorem converted_session_with_empty_cart :
  exists st tape' s,
    soldout_result = Ok st tape' /\
    nth_error (sessions st) 10 = Some s /\
    conversion_status s = "converted" /\
    cart_contents s = [] /\
    ~ conversion_precondition s.
Proof.
  eexists _, _, _. split; [vm_compute; reflexivity|].
  split; [reflexivity|]. split; [reflexivity|]. split; [reflexivity|].
  intros Hpre. destruct (Hpre eq_refl) as [Hne _]. apply Hne. reflexivity.
Qed.

(* ===================================================================== *)
(** ** Transactions *)
(* ===================================================================== *)




(** C8. Non-empty transactions: every transaction emitted by a run has at
    least one item and the transaction counter equals the number of emitted
    transactions; an attempt that ends with no reserved item leaves the
    transaction list and the counter as they were, on both paths. *)
Theorem transactions_nonempty :
  (forall (NUM_SESSIONS NUM_TRANSACTIONS : nat) (users : list user)
          (categories : list category) (products0 : heap) (tape tape' : rng)
          (st : gen_state),
     generate NUM_SESSIONS NUM_TRANSACTIONS users categories products0 tape
       = Ok st tape' ->
     Forall (fun t => items t <> []) (transactions st) /\
     transaction_counter st = length (transactions st)) /\
  (forall (st : gen_state) (s : session) (valid : bool) (h' : heap) (tape : rng),
     emit_linked st s valid [] h' tape =
       Ok (mkState h' (sessions st) (transactions st) (transaction_counter st)
             (session_counter st) (iteration st)) tape) /\
  (forall (st : gen_state) (u : user) (h' : heap) (tape : rng),
     emit_standalone st u [] h' tape =
       Ok (mkState h' (sessions st) (transactions st) (transaction_counter st)
             (session_counter st) (iteration st)) tape).
Proof.
  split; [|split].
  - intros NS NT users categories products0 tape tape' st Hrun.
    apply generate_run_inv in Hrun. destruct Hrun. split; assumption.
  - intros st s valid h' tape. unfold emit_linked.
    destruct valid; reflexivity.
  - intros st u h' tape. reflexivity.
Qed.

Lemma transactions_nonempty_witness :
  Forall (fun t => items t <> []) (transactions sample_state) /\
  transaction_counter sample_state = 2%nat.
Proof.
  destruct transactions_nonempty as [Hrun _].
  destruct (Hrun 1%nat 2%nat sample_users sample_categories sample_products
              sample_tape sample_tape_end sample_state) as [Hne Hcount].
  - vm_compute. reflexivity.
  - split; [exact Hne | reflexivity].
Defined.

(* ===================================================================== *)
(** ** The inventory dictionary and the reservation loop *)
(* ===================================================================== *)

Lemma index_products_spec (ps : list product) :
  forall (i : nat) (m : gmap string nat) (pid : string) (r : nat),
  index_products i ps m !! pid = Some r <->
  (exists k p, r = (i + k)%nat /\ ps !! k = Some p /\ product_id p = pid /\
     forall k' q, (k < k')%nat -> ps !! k' = Some q -> product_id q <> pid) \/
  (m !! pid = Some r /\ forall q, In q ps -> product_id q <> pid).
Proof.
  induction ps as [|p0 ps IH]; intros i m pid r; simpl.
  - split.
    + intros H. right. split; [exact H | intros q []].
    + intros [(k & p & _ & Hk & _)|[H _]]; [|exact H].
      rewrite lookup_nil in Hk. discriminate.
  - rewrite IH. split.
    + intros [(k & p & -> & Hk & Hid & Hlast)|[Hm Hnone]].
      * left. exists (S k), p. split; [lia|]. split; [exact Hk|].
        split; [exact Hid|]. intros k' q Hlt Hq.
        destruct k' as [|k']; [lia|]. apply (Hlast k' q); [lia | exact Hq].
      * destruct (decide (product_id p0 = pid)) as [Heq|Hne].
        -- subst pid. rewrite lookup_insert_eq in Hm. injection Hm as <-.
           left. exists 0%nat, p0. split; [lia|]. split; [reflexivity|].
           split; [reflexivity|]. intros k' q Hlt Hq.
           destruct k' as [|k']; [lia|]. apply Hnone.
           apply list_elem_of_In, list_elem_of_lookup. exists k'. exact Hq.
        -- rewrite lookup_insert_ne in Hm by exact Hne.
           right. split; [exact Hm|]. intros q [<-|Hq]; [exact Hne | auto].
    + intros [(k & p & -> & Hk & Hid & Hlast)|[Hm Hnone]].
      * destruct k as [|k].
        -- simpl in Hk. injection Hk as ->. right. split.
           ++ rewrite Hid, lookup_insert_eq. f_equal. lia.
           ++ intros q Hq. apply list_elem_of_In, list_elem_of_lookup in Hq.
              destruct Hq as [k' Hk']. apply (Hlast (S k') q); [lia | exact Hk'].
        -- left. exists k, p. split; [lia|]. split; [exact Hk|].
           split; [exact Hid|]. intros k' q Hlt Hq.
           apply (Hlast (S k') q); [lia | exact Hq].
      * right. split.
        -- rewrite lookup_insert_ne; [exact Hm|].
           apply Hnone. left. reflexivity.
        -- intros q Hq. apply Hnone. right. exact Hq.
Qed.

(** X1. Lookup after construction: [get_product] on the dictionary built
    from a product list returns, for an id, the last object of the list
    carrying that id, and nothing for an id no object carries; when ids are
    not repeated every object of the list is found under its own id. *)
Theorem get_product_after_init (ps : heap) :
  (forall pid p,
     get_product (InventoryManager_init ps) ps pid = Some p <->
     exists k, ps !! k = Some p /\ product_id p = pid /\
       forall k' q, (k < k')%nat -> ps !! k' = Some q -> product_id q <> pid) /\
  (forall pid,
     get_product (InventoryManager_init ps) ps pid = None <->
     ~ In pid (map product_id ps)) /\
  (List.NoDup (map product_id ps) ->
   forall p, In p ps ->
     get_product (InventoryManager_init ps) ps (product_id p) = Some p).
Proof.
  assert (Hiff : forall pid p,
     get_product (InventoryManager_init ps) ps pid = Some p <->
     exists k, ps !! k = Some p /\ product_id p = pid /\
       forall k' q, (k < k')%nat -> ps !! k' = Some q -> product_id q <> pid).
  { intros pid p. unfold get_product, InventoryManager_init. simpl products.
    split.
    - destruct (index_products 0 ps ∅ !! pid) as [r|] eqn:Hr; [|discriminate].
      intros Hp. apply index_products_spec in Hr.
      destruct Hr as [(k & p' & -> & Hk & Hid & Hlast)|[Hm _]].
      + simpl in Hp. rewrite Hk in Hp. injection Hp as ->. eauto.
      + rewrite lookup_empty in Hm. discriminate.
    - intros (k & Hk & Hid & Hlast).
      assert (Hr : index_products 0 ps ∅ !! pid = Some k).
      { apply index_products_spec. left. exists k, p. auto. }
      rewrite Hr. exact Hk. }
  split; [exact Hiff|]. split.
  - intros pid. split.
    + intros Hnone Hin. apply in_map_iff in Hin. destruct Hin as (p & Hid & Hp).
      destruct (wf_inventory_init ps) as [Hrefs Hkeys].
      destruct (Hkeys p Hp) as [r Hr]. rewrite Hid in Hr.
      destruct (Hrefs pid r Hr) as (p' & Hp' & _).
      unfold get_product in Hnone. rewrite Hr, Hp' in Hnone. discriminate.
    + intros Hnot.
      destruct (get_product (InventoryManager_init ps) ps pid) as [p|] eqn:Hg;
        [|reflexivity].
      apply Hiff in Hg. destruct Hg as (k & Hk & Hid & _).
      exfalso. apply Hnot. apply in_map_iff. exists p. split; [exact Hid|].
      apply list_elem_of_In, list_elem_of_lookup. eauto.
  - intros Hnd p Hp. apply Hiff.
    apply list_elem_of_In, list_elem_of_lookup in Hp. destruct Hp as [k Hk].
    exists k. split; [exact Hk|]. split; [reflexivity|].
    intros k' q Hlt Hq Heq.
    apply NoDup_ListNoDup in Hnd.
    assert (Hk1 : map product_id ps !! k = Some (product_id p)).
    { rewrite list_lookup_fmap, Hk. reflexivity. }
    assert (Hk2 : map product_id ps !! k' = Some (product_id p)).
    { rewrite list_lookup_fmap, Hq. simpl. f_equal. exact Heq. }
    pose proof (NoDup_lookup _ _ _ _ Hnd Hk1 Hk2). lia.
Qed.

Lemma get_product_after_init_witness :
  get_product (InventoryManager_init sample_products) sample_products
    "prod_00001" = Some (mkProduct "prod_00001" "cat_000" (float_of_decimal 25 2) 7 true) /\
  get_product (InventoryManager_init sample_products) sample_products
    "prod_99999" = None.
Proof.
  destruct (get_product_after_init sample_products) as (_ & Hnone & Hfound).
  split.
  - apply (Hfound ltac:(repeat constructor; simpl; intuition discriminate)
             (mkProduct "prod_00001" "cat_000" (float_of_decimal 25 2) 7 true)).
    simpl. auto.
  - apply Hnone. simpl. intuition discriminate.
Defined.

Lemma positive_entries_cons (kv : string * cart_entry) (c : cart) :
  positive_entries (kv :: c) =
  if 0 <? quantity (snd kv) then kv :: positive_entries c else positive_entries c.
Proof. reflexivity. Qed.

(** X2. The reservation loop of the linked block, on any cart: the items it
    collects are the leading positive-quantity cart entries, in order, with
    the cart's quantities and prices; the stock it removes is exactly the
    quantity of those items, also when it stops at a refusal; and [valid]
    is true exactly when every positive entry became an item. *)
Theorem reserve_cart_accounts (inventory : InventoryManager) (c : cart) :
  forall (h : heap) (items0 : list transaction_item),
  wf_inventory inventory h ->
  exists new rest,
    snd (fst (reserve_cart inventory c h items0)) = (items0 ++ new)%list /\
    reserved inventory h (snd (reserve_cart inventory c h items0)) new /\
    map cart_key (positive_entries c) = (map item_key new ++ rest)%list /\
    (fst (fst (reserve_cart inventory c h items0)) = true <-> rest = []).
Proof.
  induction c as [|[pid e] c IH]; intros h items0 Hwf.
  - exists [], []. simpl. rewrite app_nil_r.
    split; [reflexivity|]. split; [apply reserved_refl|].
    split; [reflexivity | tauto].
  - rewrite positive_entries_cons. simpl snd. simpl reserve_cart.
    destruct (0 <? quantity e) eqn:Hpos; [|apply IH; exact Hwf].
    destruct (update_stock inventory h pid (quantity e)) as [ok h1] eqn:Hupd.
    assert (Hwf1 : wf_inventory inventory h1).
    { eapply wf_inventory_same_objects; [|exact Hwf].
      pose proof (update_stock_same_objects inventory h pid (quantity e)) as H.
      rewrite Hupd in H. exact H. }
    destruct ok.
    + destruct (IH h1 (items0 ++ [mkItem pid (quantity e) (price e)
                                    (round2 (fmul (float_of_Z (quantity e)) (price e)))])%list
                  Hwf1) as (new & rest & Hitems & Hres & Hkeys & Hvalid).
      exists (mkItem pid (quantity e) (price e)
                (round2 (fmul (float_of_Z (quantity e)) (price e))) :: new), rest.
      split; [rewrite Hitems, <- app_assoc; reflexivity|].
      split.
      { exact (reserved_step inventory h h1 _ pid (quantity e) (price e) true
                 new Hwf Hupd Hres). }
      split; [|exact Hvalid].
      simpl. rewrite Hkeys. reflexivity.
    + exists [], (map cart_key ((pid, e) :: positive_entries c)).
      simpl. rewrite app_nil_r. split; [reflexivity|]. split.
      { exact (reserved_step inventory h h1 h1 pid (quantity e) (price e) false
                 [] Hwf Hupd (reserved_refl inventory h1)). }
      split; [reflexivity|]. split; discriminate.
Qed.

Lemma reserve_cart_accounts_witness :
  exists new rest,
    snd (fst (reserve_cart (InventoryManager_init sample_products)
                [("prod_00000", mkCartEntry 2 (float_of_decimal 10 1));
                 ("prod_00001", mkCartEntry 9 (float_of_decimal 25 2))]
                sample_products [])) = new /\
    map item_key new = [("prod_00000", 2, float_of_decimal 10 1)] /\
    rest = [("prod_00001", 9, (float_of_decimal 25 2))].
Proof.
  destruct (reserve_cart_accounts (InventoryManager_init sample_products)
              [("prod_00000", mkCartEntry 2 (float_of_decimal 10 1));
               ("prod_00001", mkCartEntry 9 (float_of_decimal 25 2))]
              sample_products [] (wf_inventory_init sample_products))
    as (new & rest & Hitems & _ & Hkeys & _).
  exists new, rest. split; [exact Hitems|].
  vm_compute in Hitems. subst new.
  split; [reflexivity|].
  simpl in Hkeys. injection Hkeys as <-. reflexivity.
Defined.

(* ===================================================================== *)
(** ** Exceptions and counters of a run *)
(* ===================================================================== *)

Lemma triple_conj {A} (E : exn -> Prop) (m : Rand A) (P Q : A -> Prop) :
  triple E m P -> triple E m Q -> triple E m (fun a => P a /\ Q a).
Proof.
  intros HP HQ s. specialize (HP s). specialize (HQ s).
  destruct (m s); [split; assumption | assumption].
Qed.

Lemma triple_raised {A} (E : exn -> Prop) (m : Rand A) (Q : A -> Prop)
    (s : rng) (e : exn) :
  triple E m Q -> m s = Raise e -> E e.
Proof. intros H Hm. specialize (H s). rewrite Hm in H. exact H. Qed.

(** X3. Exceptions of a run: the generation loop can only end with an
    [IndexError], and only when the list of users, categories or products is
    empty; no subscript of a missing product or cart key and no empty
    [randint] range is ever reached.  With no users and a positive session
    target the first iteration raises [IndexError]. *)
Theorem generate_exceptions (NUM_SESSIONS NUM_TRANSACTIONS : nat)
    (users : list user) (categories : list category) (products0 : heap)
    (tape : rng) :
  (forall e,
     generate NUM_SESSIONS NUM_TRANSACTIONS users categories products0 tape
       = Raise e ->
     e = IndexError /\ (users = [] \/ categories = [] \/ products0 = [])) /\
  (users = [] -> (0 < NUM_SESSIONS)%nat ->
   generate NUM_SESSIONS NUM_TRANSACTIONS users categories products0 tape
     = Raise IndexError).
Proof.
  split.
  - intros e Hrun.
    apply (triple_raised (empty_catalog_error users categories products0)
             _ _ _ _
             (generation_loop_invariant _ NUM_SESSIONS NUM_TRANSACTIONS users
                categories products0 (MAX_ITERATIONS NUM_SESSIONS NUM_TRANSACTIONS)
                (fun H => conj eq_refl (or_introl H))
                (fun H => conj eq_refl (or_intror (or_intror H)))
                (fun H => conj eq_refl (or_intror (or_introl H))))
             Hrun).
  - intros -> Hpos. unfold generate, MAX_ITERATIONS.
    destruct NUM_SESSIONS as [|n]; [lia|]. reflexivity.
Qed.

Lemma generate_exceptions_witness :
  generate 1 2 [] sample_categories sample_products sample_tape
    = Raise IndexError /\
  (@nil user = [] \/ sample_categories = [] \/ sample_products = []).
Proof.
  assert (Hrun : generate 1 2 [] sample_categories sample_products sample_tape
                 = Raise IndexError).
  { apply (generate_exceptions 1 2 [] sample_categories sample_products
             sample_tape); [reflexivity | lia]. }
  split; [exact Hrun|].
  apply (proj1 (generate_exceptions 1 2 [] sample_categories sample_products
                  sample_tape) IndexError Hrun).
Defined.

Lemma triple_reserve_sampled_any (E : exn -> Prop) (inventory : InventoryManager)
    (ps : list product) :
  forall (h : heap) (items0 : list transaction_item),
  triple E (reserve_sampled inventory ps h items0) (fun _ => True).
Proof.
  induction ps as [|p ps IH]; intros h items0; simpl.
  - apply triple_ret. exact I.
  - destruct (is_active p); [|apply IH].
    eapply triple_bind; [apply triple_randint; lia|]. intros qty _.
    destruct (update_stock inventory h (product_id p) qty) as [[|] h1]; apply IH.
Qed.

Section Counters.

Variable E : exn -> Prop.
Variables NUM_SESSIONS NUM_TRANSACTIONS : nat.
Variable users : list user.
Variable categories : list category.
Variable inventory : InventoryManager.
Variable products0 : heap.
Hypothesis E_users : users = [] -> E IndexError.
Hypothesis E_products : products0 = [] -> E IndexError.
Hypothesis E_categories : categories = [] -> E IndexError.
Hypothesis Hwf0 : wf_inventory inventory products0.

Lemma triple_emit_linked_counters (st : gen_state) (s : session) (valid : bool)
    (its : list transaction_item) (h' : heap) :
  triple E (emit_linked st s valid its h')
    (fun st' =>
       iteration st' = iteration st /\
       session_counter st' = session_counter st /\
       (transaction_counter st' = transaction_counter st \/
        transaction_counter st' = S (transaction_counter st))).
Proof.
  unfold emit_linked. destruct (valid && truthy its).
  - cbv zeta.
    eapply triple_bind; [apply triple_draw_discount|]. intros disc _.
    eapply triple_bind; [apply triple_generate_transaction_id|]. intros tid _.
    eapply triple_bind; [apply triple_choice; discriminate|]. intros pm _.
    apply triple_ret. simpl. auto.
  - apply triple_ret. simpl. auto.
Qed.

Lemma triple_emit_standalone_counters (st : gen_state) (u : user)
    (its : list transaction_item) (h' : heap) :
  triple E (emit_standalone st u its h')
    (fun st' =>
       iteration st' = iteration st /\
       session_counter st' = session_counter st /\
       (transaction_counter st' = transaction_counter st \/
        transaction_counter st' = S (transaction_counter st))).
Proof.
  unfold emit_standalone. destruct (truthy its).
  - cbv zeta.
    eapply triple_bind; [apply triple_draw_discount|]. intros disc _.
    eapply triple_bind; [apply triple_generate_transaction_id|]. intros tid _.
    eapply triple_bind; [apply triple_date_time_between|]. intros ts _.
    eapply triple_bind; [apply triple_choice; discriminate|]. intros pm _.
    eapply triple_bind; [apply triple_choice; discriminate|]. intros stat _.
    apply triple_ret. simpl. auto.
  - apply triple_ret. simpl. auto.
Qed.

Lemma triple_standalone_counters (st : gen_state) :
  triple E (standalone_transaction NUM_TRANSACTIONS users inventory st)
    (fun st' =>
       iteration st' = iteration st /\
       session_counter st' = session_counter st /\
       (transaction_counter st <= transaction_counter st')%nat /\
       ((transaction_counter st <= NUM_TRANSACTIONS)%nat ->
        (transaction_counter st' <= NUM_TRANSACTIONS)%nat)).
Proof.
  unfold standalone_transaction.
  destruct (Nat.ltb_spec (transaction_counter st) NUM_TRANSACTIONS) as [Hlt|Hge];
    [|apply triple_ret; repeat split; auto].
  eapply triple_bind; [apply triple_random|]. intros r _.
  destruct (Qlt_bool r 0.2); [|apply triple_ret; repeat split; auto].
  eapply triple_bind; [apply triple_choice; exact E_users|]. intros u _.
  eapply triple_bind; [apply triple_sample; lia|]. intros ps _.
  eapply triple_bind; [apply triple_reserve_sampled_any|]. intros [its h'] _.
  eapply triple_conseq; [apply triple_emit_standalone_counters|].
  intros st' (Hit & Hsc & Htc). cbv beta. repeat split; auto; lia.
Qed.

Lemma triple_session_step_counters (st : gen_state) :
  run_inv inventory products0 st ->
  triple E (session_step NUM_TRANSACTIONS users categories inventory st)
    (fun st' =>
       iteration st' = iteration st /\
       session_counter st' = S (session_counter st) /\
       (transaction_counter st <= transaction_counter st')%nat /\
       ((transaction_counter st <= NUM_TRANSACTIONS)%nat ->
        (transaction_counter st' <= NUM_TRANSACTIONS)%nat)).
Proof.
  intros Hinv. unfold session_step.
  eapply triple_bind.
  { apply (triple_generate_session E users categories inventory (st_heap st)
             E_users
             (run_inv_heap_empty E inventory products0 E_products Hwf0 st Hinv)
             E_categories (run_inv_wf inventory products0 Hwf0 st Hinv)). }
  intros [[s c] converted] _. cbv zeta. simpl transaction_counter.
  destruct converted; simpl andb.
  - destruct (Nat.ltb_spec (transaction_counter st) NUM_TRANSACTIONS) as [Hlt|Hge].
    + unfold linked_transaction.
      destruct (reserve_cart inventory c _ []) as [[valid its] h'].
      eapply triple_conseq; [apply triple_emit_linked_counters|].
      intros st' (Hit & Hsc & Htc). simpl in Hit, Hsc, Htc.
      repeat split; auto; lia.
    + apply triple_ret. simpl. repeat split; auto.
  - apply triple_ret. simpl. repeat split; auto.
Qed.

Lemma triple_loop_body_counters (st : gen_state) :
  run_inv inventory products0 st ->
  triple E (loop_body NUM_SESSIONS NUM_TRANSACTIONS users categories inventory st)
    (counters_step NUM_SESSIONS NUM_TRANSACTIONS st).
Proof.
  intros Hinv. unfold loop_body. cbv zeta. simpl session_counter.
  pose proof (run_inv_iteration inventory products0 st (S (iteration st)) Hinv)
    as Hinv0.
  eapply triple_bind with
    (P := fun st1 =>
            iteration st1 = S (iteration st) /\
            session_counter st1 =
              (if (session_counter st <? NUM_SESSIONS)%nat
               then S (session_counter st) else session_counter st) /\
            (transaction_counter st <= transaction_counter st1)%nat /\
            ((transaction_counter st <= NUM_TRANSACTIONS)%nat ->
             (transaction_counter st1 <= NUM_TRANSACTIONS)%nat)).
  - destruct (session_counter st <? NUM_SESSIONS)%nat.
    + eapply triple_conseq; [apply triple_session_step_counters; exact Hinv0|].
      intros st1 H. exact H.
    + apply triple_ret. simpl. repeat split; auto.
  - intros st1 (Hit & Hsc & Htc & Hnt).
    eapply triple_conseq; [apply triple_standalone_counters|].
    intros st' (Hit' & Hsc' & Htc' & Hnt'). unfold counters_step.
    split; [congruence|]. split; [congruence|]. split; [lia | auto].
Qed.

Lemma triple_generation_loop_exit (n : nat) : forall st : gen_state,
  run_inv inventory products0 st ->
  (session_counter st <= NUM_SESSIONS)%nat ->
  (transaction_counter st <= NUM_TRANSACTIONS)%nat ->
  triple E (generation_loop NUM_SESSIONS NUM_TRANSACTIONS users categories
              inventory n st)
    (loop_exit NUM_SESSIONS NUM_TRANSACTIONS n st).
Proof.
  induction n as [|n IH]; intros st Hinv Hsc Htc; simpl.
  - apply triple_ret. unfold loop_exit. lia.
  - assert (Hstep :
      triple E
        (let! st' := loop_body NUM_SESSIONS NUM_TRANSACTIONS users categories
                       inventory st in
         generation_loop NUM_SESSIONS NUM_TRANSACTIONS users categories
           inventory n st')
        (loop_exit NUM_SESSIONS NUM_TRANSACTIONS (S n) st)).
    { eapply triple_bind.
      - apply triple_conj.
        + apply (triple_loop_body E NUM_SESSIONS NUM_TRANSACTIONS users
                   categories inventory products0 E_users E_products
                   E_categories Hwf0 st Hinv).
        + apply (triple_loop_body_counters st Hinv).
      - intros st1 [Hinv1 (Hit & Hsc1 & Htc1 & Hnt1)].
        assert (Hsc1' : (session_counter st1 <= NUM_SESSIONS)%nat).
        { rewrite Hsc1.
          destruct (Nat.ltb_spec (session_counter st) NUM_SESSIONS); lia. }
        eapply triple_conseq; [apply (IH st1 Hinv1 Hsc1' (Hnt1 Htc))|].
        intros st' (Hi & Hs' & Ht' & Hex). unfold loop_exit.
        rewrite Hsc1 in Hs'.
        destruct (Nat.ltb_spec (session_counter st) NUM_SESSIONS); lia. }
    destruct (Nat.ltb_spec (session_counter st) NUM_SESSIONS) as [Hs|Hs];
      destruct (Nat.ltb_spec (transaction_counter st) NUM_TRANSACTIONS) as [Ht|Ht];
      simpl orb; try exact Hstep.
    apply triple_ret. unfold loop_exit. lia.
Qed.

End Counters.

(** X4. Targets: a run that returns has emitted exactly [NUM_SESSIONS]
    sessions and at most [NUM_TRANSACTIONS] transactions in at most
    [MAX_ITERATIONS] iterations; when the transaction target is missed the
    loop has used all [MAX_ITERATIONS] iterations. *)
Theorem generation_meets_targets (NUM_SESSIONS NUM_TRANSACTIONS : nat)
    (users : list user) (categories : list category) (products0 : heap)
    (tape tape' : rng) (st : gen_state) :
  generate NUM_SESSIONS NUM_TRANSACTIONS users categories products0 tape
    = Ok st tape' ->
  length (sessions st) = NUM_SESSIONS /\
  session_counter st = NUM_SESSIONS /\
  (length (transactions st) <= NUM_TRANSACTIONS)%nat /\
  transaction_counter st = length (transactions st) /\
  (iteration st <= MAX_ITERATIONS NUM_SESSIONS NUM_TRANSACTIONS)%nat /\
  (length (transactions st) = NUM_TRANSACTIONS \/
   iteration st = MAX_ITERATIONS NUM_SESSIONS NUM_TRANSACTIONS).
Proof.
  intros Hrun. pose proof (generate_run_inv _ _ _ _ _ _ _ _ Hrun) as Hinv.
  unfold generate in Hrun.
  pose proof (triple_result any_exn _ _ _ _ _
                (triple_generation_loop_exit any_exn NUM_SESSIONS NUM_TRANSACTIONS
                   users categories (InventoryManager_init products0) products0
                   (fun _ => I) (fun _ => I) (fun _ => I)
                   (wf_inventory_init products0)
                   (MAX_ITERATIONS NUM_SESSIONS NUM_TRANSACTIONS)
                   (initial_state products0) (run_inv_initial products0)
                   (Nat.le_0_l _) (Nat.le_0_l _)) Hrun)
    as (Hit & Hsc & Htc & Hex).
  simpl in Hit, Hsc, Htc, Hex. destruct Hinv.
  unfold MAX_ITERATIONS in *.
  rewrite <- inv_session_counter0, <- inv_counter0.
  assert (Hs : session_counter st = NUM_SESSIONS) by lia.
  lia.
Qed.

Lemma generation_meets_targets_witness :
  length (sessions sample_state) = 1%nat /\
  (length (transactions sample_state) <= 2)%nat.
Proof.
  destruct (generation_meets_targets 1 2 sample_users sample_categories
              sample_products sample_tape sample_tape_end sample_state)
    as (Hs & _ & Ht & _).
  - vm_compute. reflexivity.
  - split; [exact Hs | exact Ht].
Defined.

(* ===================================================================== *)
(** ** Browsing path, references and cart of a session *)
(* ===================================================================== *)

Lemma follows_table_snoc (l : list string) (x : string) :
  follows_table l ->
  (forall a, last l = Some a -> In x (successors a)) ->
  follows_table (l ++ [x]).
Proof.
  induction l as [|a l IH]; intros Hl Hx; [exact I|].
  destruct l as [|b l].
  - simpl. split; [apply Hx; reflexivity | exact I].
  - destruct Hl as [Hab Hl]. split; [exact Hab|].
    apply IH; [exact Hl|]. intros c Hc. apply Hx.
    rewrite last_cons_cons. exact Hc.
Qed.

Lemma browsing_path_snoc (l : list string) (x : string) :
  browsing_path l ->
  (l = [] -> In x entry_pages) ->
  (forall a, last l = Some a -> In x (successors a)) ->
  browsing_path (l ++ [x]).
Proof.
  intros [Hhead Htable] Hentry Hnext. split.
  - destruct l as [|a l]; [apply Hentry; reflexivity | exact Hhead].
  - apply follows_table_snoc; assumption.
Qed.

Lemma entry_ok_S (h : heap) (n : nat) (k : string) (e : cart_entry) :
  entry_ok h n k e -> entry_ok h (S n) k e.
Proof. intros [Hq Hp]. split; [lia | exact Hp]. Qed.

Lemma cart_get_In (pid : string) (e : cart_entry) (c : cart) :
  cart_get pid c = Some e -> In (pid, e) c.
Proof.
  induction c as [|[k e0] c IH]; simpl; [discriminate|].
  destruct (String.eqb_spec k pid) as [->|Hne].
  - intros H. injection H as ->. left. reflexivity.
  - intros H. right. apply IH. exact H.
Qed.

Lemma category_of_Some (cats : list category) (p : product) (c : category) :
  category_of cats p = Some c ->
  In c cats /\ category_id c = product_category_id p.
Proof.
  unfold category_of. intros H. apply find_some in H.
  destruct H as [Hin Heq]. apply String.eqb_eq in Heq. auto.
Qed.

Section PagePath.

Variable E : exn -> Prop.
Variable inventory : InventoryManager.
Variable h : heap.
Variable categories_list : list category.
Hypothesis E_products : h = [] -> E IndexError.
Hypothesis E_categories : categories_list = [] -> E IndexError.
Hypothesis Hwf : wf_inventory inventory h.

Lemma triple_determine_page_type_table (i : nat) (pvs : list page_view) :
  triple E (determine_page_type i pvs)
    (fun pt =>
       if (i =? 0)%nat then In pt entry_pages
       else In pt (successors (match last pvs with
                               | Some p => page_type p
                               | None => "home"
                               end))).
Proof.
  unfold determine_page_type, successors. destruct (i =? 0)%nat.
  - apply triple_choice. discriminate.
  - repeat match goal with
           | |- triple _ (if ?b then _ else _) _ =>
               destruct b;
               [apply triple_choices; [discriminate | reflexivity | reflexivity]|]
           end.
    apply triple_ret. left. reflexivity.
Qed.

Lemma triple_product_detail_content_refs (n : nat) :
  triple E (product_detail_content n h categories_list)
    (fun r => exists p, fst r = Some p /\ In p h /\
                        snd r = category_of categories_list p).
Proof.
  induction n as [|n IH]; simpl.
  - eapply triple_bind; [apply triple_choice; exact E_products|].
    intros p Hp. cbv beta in Hp. apply triple_ret. exists p. auto.
  - eapply triple_bind; [apply triple_choice; exact E_products|].
    intros p Hp. cbv beta in Hp.
    destruct (is_active p && (0 <? current_stock p)); [|exact IH].
    apply triple_ret. exists p. auto.
Qed.

Lemma triple_get_page_content_refs (pt : string) :
  triple E (get_page_content pt h categories_list)
    (fun r =>
       (pt = "product_detail" ->
        exists p, fst r = Some p /\ In p h /\
                  snd r = category_of categories_list p) /\
       (pt <> "product_detail" -> fst r = None) /\
       (pt = "category_listing" ->
        exists c, In c categories_list /\ snd r = Some c) /\
       (pt <> "product_detail" -> pt <> "category_listing" -> snd r = None)).
Proof.
  unfold get_page_content.
  destruct (String.eqb_spec pt "product_detail") as [Hpd|Hpd].
  - eapply triple_conseq; [apply triple_product_detail_content_refs|].
    intros r Hr. cbv beta in Hr. subst pt.
    split; [auto|]. split; [congruence|]. split; [discriminate | congruence].
  - destruct (String.eqb_spec pt "category_listing") as [Hcl|Hcl].
    + eapply triple_bind; [apply triple_choice; exact E_categories|].
      intros c Hc. cbv beta in Hc. apply triple_ret. simpl.
      split; [congruence|]. split; [reflexivity|]. split; [eauto | congruence].
    + apply triple_ret. simpl.
      split; [congruence|]. split; [reflexivity|]. split; [congruence | reflexivity].
Qed.

Lemma triple_add_to_cart_entries (prod : product) (c : cart) (p : product)
    (n : nat) :
  get_product inventory h (product_id prod) = Some p ->
  In prod h ->
  List.NoDup (map fst c) ->
  (forall k e, In (k, e) c -> entry_ok h n k e) ->
  triple E (add_to_cart inventory h prod c)
    (fun c' => forall k e, In (k, e) c' ->
       (k = product_id prod \/ In k (map fst c)) /\ entry_ok h (S n) k e).
Proof.
  intros Hget Hprod Hnd Hok. unfold add_to_cart. rewrite Hget.
  assert (Hold : forall k e, In (k, e) c ->
            (k = product_id prod \/ In k (map fst c)) /\ entry_ok h (S n) k e).
  { intros k e Hin. split; [right; apply (in_map fst) in Hin; exact Hin|].
    apply entry_ok_S, Hok, Hin. }
  assert (Hnew : forall (q : Z) (pr : float) (c0 : cart),
            List.NoDup (map fst c0) ->
            (forall k e, In (k, e) c0 ->
               (k = product_id prod \/ In k (map fst c)) /\ entry_ok h (S n) k e) ->
            entry_ok h (S n) (product_id prod) (mkCartEntry q pr) ->
            forall k e, In (k, e) (cart_set (product_id prod) (mkCartEntry q pr) c0) ->
              (k = product_id prod \/ In k (map fst c)) /\ entry_ok h (S n) k e).
  { intros q pr c0 Hnd0 Hc0 Hentry k e Hin.
    apply cart_set_In in Hin; [|exact Hnd0].
    destruct Hin as [[-> ->]|[_ Hin]]; [split; [left; reflexivity | exact Hentry]|].
    apply Hc0. exact Hin. }
  destruct (cart_get (product_id prod) c) as [e0|] eqn:Hc.
  - rewrite Hc.
    destruct (Hok _ _ (cart_get_In _ _ _ Hc)) as [Hq0 Hp0].
    destruct (Z.ltb_spec 0 (Z.min 3 (current_stock p - quantity e0))).
    + eapply triple_bind; [apply triple_randint; lia|].
      intros r Hr. cbv beta in Hr. apply triple_ret.
      apply Hnew; [exact Hnd | exact Hold|].
      split; [simpl; lia | exact Hp0].
    + apply triple_ret. exact Hold.
  - rewrite cart_get_set_eq. simpl quantity. simpl price.
    assert (Hzero : forall k e,
              In (k, e) (cart_set (product_id prod)
                           (mkCartEntry 0 (base_price prod)) c) ->
              (k = product_id prod \/ In k (map fst c)) /\ entry_ok h (S n) k e).
    { apply Hnew; [exact Hnd | exact Hold|].
      split; [simpl; lia | exists prod; auto]. }
    destruct (Z.ltb_spec 0 (Z.min 3 (current_stock p - 0))).
    + eapply triple_bind; [apply triple_randint; lia|].
      intros r Hr. cbv beta in Hr. apply triple_ret.
      apply Hnew; [apply cart_set_NoDup; exact Hnd | exact Hzero|].
      split; [simpl; lia | exists prod; auto].
    + apply triple_ret. exact Hzero.
Qed.

Lemma triple_page_view_step_inv (session_start : Z) (i : nat) (t_i t_next : Z)
    (st : page_loop_state) :
  page_loop_inv h categories_list i st ->
  cart_fits inventory h (snd st) ->
  triple E (page_view_step inventory h categories_list session_start i t_i
              t_next st)
    (page_loop_inv h categories_list (S i)).
Proof.
  destruct st as [[pvs viewed] c].
  intros (Hi & Hpath & Hrefs & Hviewed & Hcart) [Hnd _]. simpl in Hnd.
  unfold page_view_step.
  eapply triple_bind; [apply triple_determine_page_type_table|].
  intros pt Hpt. cbv beta in Hpt.
  eapply triple_bind; [apply triple_get_page_content_refs|].
  intros [prod cat] (Hpd & Hnpd & Hcl & Hother). simpl in Hpd, Hnpd, Hcl, Hother.
  eapply triple_bind with
    (P := fun vc : gset string * cart =>
            (forall pid, pid ∈ fst vc <->
               pid ∈ viewed \/
               (pt = "product_detail" /\ product_id <$> prod = Some pid)) /\
            (forall pid e, In (pid, e) (snd vc) ->
               pid ∈ fst vc /\ entry_ok h (S i) pid e)).
  - assert (Hkeep : forall pid e, In (pid, e) c ->
              pid ∈ viewed /\ entry_ok h (S i) pid e).
    { intros pid e Hin. destruct (Hcart pid e Hin). split; [|apply entry_ok_S]; auto. }
    destruct (String.eqb_spec pt "product_detail") as [Hpt'|Hpt'].
    + destruct (Hpd Hpt') as (p & -> & Hp & _).
      eapply triple_bind; [apply triple_random|]. intros r _.
      assert (Hv : forall pid, pid ∈ ({[product_id p]} ∪ viewed : gset string) <->
                pid ∈ viewed \/
                (pt = "product_detail" /\ product_id <$> Some p = Some pid)).
      { intros pid. rewrite elem_of_union, elem_of_singleton. simpl.
        split; [intros [->|?]; auto | intros [?|[_ Heq]]; [auto|]].
        injection Heq as ->. auto. }
      destruct (Qlt_bool r 0.3).
      * destruct (wf_get_product inventory h p Hwf Hp) as [p' Hp'].
        eapply triple_bind.
        { apply (triple_add_to_cart_entries p c p' i Hp' Hp Hnd).
          intros k e Hin. apply (Hcart k e Hin). }
        intros c' Hc'. cbv beta in Hc'. apply triple_ret. simpl.
        split; [exact Hv|]. intros pid e Hin.
        destruct (Hc' pid e Hin) as [Hkey Hentry]. split; [|exact Hentry].
        rewrite elem_of_union, elem_of_singleton.
        destruct Hkey as [->|Hkey]; [auto|]. right.
        apply in_map_iff in Hkey. destruct Hkey as ([k e'] & Hk & Hin').
        simpl in Hk. subst k. apply (Hcart pid e' Hin').
      * apply triple_ret. simpl. split; [exact Hv|].
        intros pid e Hin. destruct (Hkeep pid e Hin).
        split; [rewrite elem_of_union; auto | auto].
    + rewrite (Hnpd Hpt'). apply triple_ret. simpl. split; [|exact Hkeep].
      intros pid. split; [auto | intros [?|[? _]]; [auto | contradiction]].
  - intros [viewed' cart'] [Hv' Hc']. simpl in Hv', Hc'. apply triple_ret.
    unfold page_loop_inv. split; [rewrite length_app; simpl; lia|].
    split; [|split; [|split]].
    + rewrite map_app. simpl map. apply browsing_path_snoc; [exact Hpath| |].
      * intros Hnil. apply map_eq_nil in Hnil. subst pvs. simpl in Hi. subst i.
        exact Hpt.
      * intros a Ha. change (map page_type pvs) with (page_type <$> pvs) in Ha.
        rewrite fmap_last in Ha.
        destruct (last pvs) as [pl|] eqn:Hlast; [|discriminate].
        simpl in Ha. injection Ha as <-.
        destruct i as [|i']; [|exact Hpt].
        symmetry in Hi. apply length_zero_iff_nil in Hi. subst pvs. discriminate.
    + apply Forall_app. split; [exact Hrefs|]. constructor; [|constructor].
      unfold page_view_refs. simpl.
      destruct (String.eqb_spec pt "product_detail") as [Hpt'|Hpt'].
      * destruct (Hpd Hpt') as (p & -> & Hp & ->). simpl.
        split; [split; [discriminate | auto]|].
        split; [intros pid Hpid; injection Hpid as <-; apply in_map; exact Hp|].
        split.
        { intros cid Hcid.
          destruct (category_of categories_list p) as [c0|] eqn:Hc0; [|discriminate].
          simpl in Hcid. injection Hcid as <-.
          apply category_of_Some in Hc0. apply in_map. tauto. }
        split; [intros Hcl'; congruence|]. split; [auto|].
        intros pid cid Hpid Hcid. injection Hpid as <-.
        destruct (category_of categories_list p) as [c0|] eqn:Hc0; [|discriminate].
        simpl in Hcid. injection Hcid as <-.
        apply category_of_Some in Hc0. exists p. split; [exact Hp|].
        split; [reflexivity | symmetry; tauto].
      * rewrite (Hnpd Hpt'). simpl.
        split; [split; [contradiction | intros Hn; contradiction]|].
        split; [discriminate|].
        destruct (String.eqb_spec pt "category_listing") as [Hcl'|Hcl'].
        -- destruct (Hcl Hcl') as (c0 & Hc0 & ->). simpl.
           split; [intros cid Hcid; injection Hcid as <-; apply in_map; exact Hc0|].
           split; [discriminate|]. split; [auto | discriminate].
        -- rewrite (Hother Hpt' Hcl'). simpl.
           split; [discriminate|]. split; [contradiction|].
           split; [contradiction | discriminate].
    + intros pid. rewrite Hv', Hviewed. split.
      * intros [(pv & Hpv & Hid)|[_ Hid]].
        -- exists pv. split; [apply in_or_app; auto | exact Hid].
        -- eexists. split; [apply in_or_app; right; left; reflexivity|]. exact Hid.
      * intros (pv & Hpv & Hid). apply in_app_or in Hpv.
        destruct Hpv as [Hpv|[<-|[]]]; [left; eauto|].
        simpl in Hid. right. split; [|exact Hid].
        destruct (String.eqb_spec pt "product_detail") as [Hpt'|Hpt']; [exact Hpt'|].
        rewrite (Hnpd Hpt') in Hid. discriminate.
    + exact Hc'.
Qed.

Lemma triple_page_view_loop_inv (session_start : Z) (slots : list Z) :
  forall (i : nat) (st : page_loop_state),
  page_loop_inv h categories_list i st ->
  cart_fits inventory h (snd st) ->
  triple E (page_view_loop inventory h categories_list session_start i slots st)
    (fun st' => exists j, page_loop_inv h categories_list j st').
Proof.
  induction slots as [|t_i rest IH]; intros i st Hinv Hfit.
  - apply triple_ret. eauto.
  - destruct rest as [|t_next rest'].
    + apply triple_ret. eauto.
    + destruct st as [[pvs viewed] c].
      change (triple E
                (bind (page_view_step inventory h categories_list session_start
                         i t_i t_next (pvs, viewed, c))
                   (fun st' => page_view_loop inventory h categories_list
                                 session_start (S i) (t_next :: rest') st'))
                (fun st' => exists j, page_loop_inv h categories_list j st')).
      eapply triple_bind.
      * apply triple_conj.
        -- apply triple_page_view_step_inv; assumption.
        -- apply (triple_page_view_step E inventory h categories_list E_products
                    E_categories Hwf session_start i t_i t_next pvs viewed c Hfit).
      * intros st1 [Hinv1 [_ Hfit1]]. apply IH; assumption.
Qed.

End PagePath.

(* ===================================================================== *)
(** ** Well-formed session records *)
(* ===================================================================== *)

Lemma tiles_slot_views (start : Z) (l : list Z) : forall x : Z,
  tiles (start + x) (slot_views start (x :: l)) (start + List.last (x :: l) 0).
Proof.
  induction l as [|y l IH]; intros x.
  - simpl. reflexivity.
  - change (tiles (start + x)
              ((start + x, y - x) :: slot_views start (y :: l))
              (start + List.last (y :: l) 0)).
    simpl tiles. split; [reflexivity|].
    replace (start + x + (y - x)) with (start + y) by lia. apply IH.
Qed.

Lemma NoDup_map_fst_filter {A B} (f : A * B -> bool) (l : list (A * B)) :
  List.NoDup (map fst l) -> List.NoDup (map fst (List.filter f l)).
Proof.
  induction l as [|x l IH]; intros Hnd; simpl; [exact Hnd|].
  inversion Hnd as [|? ? Hnotin Hnd']; subst.
  destruct (f x); simpl; [|apply IH; exact Hnd'].
  apply List.NoDup_cons; [|apply IH; exact Hnd'].
  intros Hin. apply Hnotin. apply in_map_iff in Hin.
  destruct Hin as (y & Hy & Hin). apply filter_In in Hin.
  apply in_map_iff. exists y. tauto.
Qed.

Lemma same_objects_In_back (h0 h : heap) (p : product) :
  same_objects h0 h -> In p h ->
  exists p0, In p0 h0 /\ product_id p0 = product_id p /\
             base_price p0 = base_price p /\
             product_category_id p0 = product_category_id p /\
             is_active p0 = is_active p.
Proof.
  intros Hs Hp. destruct (same_objects_In _ _ _ Hs Hp) as (p0 & Hp0 & Heq).
  exists p0. split; [exact Hp0|]. rewrite Heq. simpl. auto.
Qed.

Lemma page_view_refs_same_objects (h0 h : heap) (cats : list category)
    (pv : page_view) :
  same_objects h0 h -> page_view_refs h cats pv -> page_view_refs h0 cats pv.
Proof.
  intros Hs (H1 & H2 & H3 & H4 & H5 & H6).
  split; [exact H1|]. split; [|split; [exact H3|split; [exact H4|split; [exact H5|]]]].
  - intros pid Hpid. apply H2 in Hpid. apply in_map_iff in Hpid.
    destruct Hpid as (p & Hid & Hp).
    destruct (same_objects_In_back _ _ _ Hs Hp) as (p0 & Hp0 & Hid0 & _).
    apply in_map_iff. exists p0. split; [congruence | exact Hp0].
  - intros pid cid Hpid Hcid. destruct (H6 pid cid Hpid Hcid) as (p & Hp & Hid & Hc).
    destruct (same_objects_In_back _ _ _ Hs Hp) as (p0 & Hp0 & Hid0 & _ & Hc0 & _).
    exists p0. split; [exact Hp0|]. split; congruence.
Qed.

Lemma session_wf_same_objects (users : list user) (cats : list category)
    (h0 h : heap) (s : session) :
  same_objects h0 h -> session_wf users cats h s -> session_wf users cats h0 s.
Proof.
  intros Hs []. constructor; try assumption.
  - eapply Forall_impl; [exact sw_refs0|]. intros pv Hpv.
    eapply page_view_refs_same_objects; eauto.
  - destruct sw_cart0 as [Hnd Hc]. split; [exact Hnd|].
    intros pid e Hin. destruct (Hc pid e Hin) as (Hv & Hq & p & Hp & Hid & Hpr).
    split; [exact Hv|]. split; [exact Hq|].
    destruct (same_objects_In_back _ _ _ Hs Hp) as (p0 & Hp0 & Hid0 & Hpr0 & _).
    exists p0. split; [exact Hp0|]. split; congruence.
Qed.

Section SessionRecord.

Variable E : exn -> Prop.
Variable users : list user.
Variable categories : list category.
Variable inventory : InventoryManager.
Variable h : heap.
Hypothesis E_users : users = [] -> E IndexError.
Hypothesis E_products : h = [] -> E IndexError.
Hypothesis E_categories : categories = [] -> E IndexError.
Hypothesis Hwf : wf_inventory inventory h.

Lemma triple_generate_session_wf :
  triple E (generate_session users categories inventory h)
    (fun r => session_wf users categories h (fst (fst r))).
Proof.
  unfold generate_session.
  eapply triple_bind; [apply triple_choice; exact E_users|].
  intros u Hu. cbv beta in Hu.
  eapply triple_bind; [apply triple_generate_session_id|]. intros sid _.
  eapply triple_bind.
  { unfold date_time_between. apply triple_randint. unfold TIMESPAN_DAYS. lia. }
  intros session_start Hstart. cbv beta in Hstart.
  eapply triple_bind; [apply triple_randint; lia|].
  intros d Hd. cbv beta in Hd.
  eapply triple_bind; [apply triple_randint; lia|].
  intros n Hn. cbv beta in Hn.
  eapply triple_bind.
  { apply triple_replicateM. apply triple_randint. lia. }
  intros draws [Hlen Hdraws].
  assert (Hne : draws <> []).
  { intros ->. simpl in Hlen. lia. }
  assert (Hdraws' : Forall (fun x => 1 <= x <= d - 1) draws).
  { eapply Forall_impl; [exact Hdraws|]. intros x Hx. cbv beta in Hx. lia. }
  destruct (time_slots_shape d draws ltac:(lia) Hne Hdraws')
    as (Hinc & [rest Hhead] & Hlast & _).
  set (ts := sorted_set ([0] ++ draws ++ [d])%list) in *.
  eapply triple_bind.
  { apply triple_conj.
    - apply (triple_page_view_loop E inventory h categories E_products
               E_categories Hwf session_start ts 0%nat [] ∅ []).
      apply cart_fits_nil.
    - apply (triple_page_view_loop_inv E inventory h categories E_products
               E_categories Hwf session_start ts 0%nat ([], ∅, [])).
      + unfold page_loop_inv. split; [reflexivity|].
        split; [split; exact I|]. split; [constructor|]. split.
        * intros pid. split; [intros Hin; apply not_elem_of_empty in Hin; contradiction|].
          intros (pv & [] & _).
        * intros pid e [].
      + apply cart_fits_nil. }
  intros [[pvs viewed] cart0] [[Hviews Hfit] [j Hloop]].
  simpl in Hviews, Hfit.
  destruct Hloop as (Hj & Hpath & Hrefs & Hviewed & Hcart).
  eapply triple_bind with
    (P := fun conv : bool => conv = true -> truthy cart0 = true).
  { destruct (truthy cart0); simpl andb; [|apply triple_ret; discriminate].
    destruct (existsb _ pvs); [|apply triple_ret; auto].
    eapply triple_bind; [apply triple_random|]. intros r _.
    apply triple_ret. auto. }
  intros converted Hconv. cbv beta in Hconv.
  eapply triple_bind; [apply triple_getrandbits|]. intros ip _.
  eapply triple_bind; [apply triple_choice; discriminate|].
  intros dtype Hdtype. cbv beta in Hdtype.
  eapply triple_bind; [apply triple_choice; discriminate|].
  intros dos Hdos. cbv beta in Hdos.
  eapply triple_bind; [apply triple_choice; discriminate|].
  intros dbrowser Hdbrowser. cbv beta in Hdbrowser.
  eapply triple_bind; [apply triple_choice; discriminate|].
  intros ref Href. cbv beta in Href.
  apply triple_ret. simpl fst.
  assert (Hel : forall pid, In pid (elements viewed) <-> pid ∈ viewed).
  { intros pid. rewrite <- list_elem_of_In. apply elem_of_elements. }
  constructor; simpl.
  - exists u. auto.
  - split; [reflexivity | exact Hstart].
  - rewrite Hviews.
    pose proof (tiles_slot_views session_start rest 0) as Ht.
    rewrite <- Hhead, Hlast, Z.add_0_r in Ht. exact Ht.
  - exact Hpath.
  - exact Hrefs.
  - split; [apply NoDup_ListNoDup, NoDup_elements|].
    intros pid. rewrite Hel. apply Hviewed.
  - split; [apply NoDup_map_fst_filter; apply Hfit|].
    intros pid e Hin. apply filter_In in Hin. destruct Hin as [Hin Hq].
    simpl in Hq. apply Z.ltb_lt in Hq.
    destruct (Hcart pid e Hin) as (Hv & [Hq0 Hq3] & Hp).
    split; [apply Hel; exact Hv|]. split; [subst j; lia | exact Hp].
  - split; [|split].
    + destruct converted; [tauto|]. destruct (truthy cart0); tauto.
    + destruct converted; [discriminate|].
      destruct cart0; [reflexivity | discriminate].
    + intros Hnb.
      assert (Ht : truthy cart0 = true).
      { destruct converted; [auto|]. destruct (truthy cart0); [reflexivity|].
        contradiction. }
      destruct cart0 as [|[pid e] cart0]; [discriminate|].
      destruct (Hcart pid e (or_introl eq_refl)) as [Hv _].
      apply Hel in Hv. intros Hnil. rewrite Hnil in Hv. destruct Hv.
  - auto.
Qed.

End SessionRecord.

(* ===================================================================== *)
(** ** Well-formed transaction records *)
(* ===================================================================== *)

Lemma same_objects_ids (h h' : heap) :
  same_objects h h' -> map product_id h' = map product_id h.
Proof.
  unfold same_objects. induction 1 as [|p p' l l' Hp _ IH]; [reflexivity|].
  simpl. rewrite IH, Hp. reflexivity.
Qed.

Lemma triple_sample_perm {A} (E : exn -> Prop) (k : nat) :
  forall population : list A,
  (k <= length population)%nat ->
  triple E (sample population k)
    (fun l => length l = k /\ exists rest, (l ++ rest)%list ≡ₚ population).
Proof.
  induction k as [|k IH]; intros population Hk; simpl.
  - apply triple_ret. split; [reflexivity|]. exists population. reflexivity.
  - destruct population as [|x0 pop']; [simpl in Hk; lia|].
    eapply triple_bind; [apply triple_randbelow; simpl length; lia|].
    intros j Hj. cbv beta in Hj.
    assert (Hlt : (Z.to_nat j < length (x0 :: pop'))%nat) by (simpl length in *; lia).
    destruct (lookup_lt_is_Some_2 _ _ Hlt) as [x Hx].
    eapply triple_bind.
    + apply IH. rewrite length_delete; [simpl length in *; lia | eauto].
    + intros l' [Hlen (rest & Hperm)]. apply triple_ret.
      split; [simpl; congruence|]. exists rest.
      rewrite (nth_lookup_Some _ _ _ _ Hx). simpl.
      rewrite Hperm. symmetry. apply delete_Permutation. exact Hx.
Qed.

Lemma triple_reserve_sampled_items (E : exn -> Prop)
    (inventory : InventoryManager) (ps : list product) :
  forall (h : heap) (items0 : list transaction_item),
  triple E (reserve_sampled inventory ps h items0)
    (fun r => exists new,
       fst r = (items0 ++ new)%list /\
       sublist (map item_product_id new) (map product_id ps) /\
       Forall (fun i => 1 <= item_quantity i <= 3 /\
                 exists p, In p ps /\ product_id p = item_product_id i /\
                           base_price p = unit_price i /\ is_active p = true)
         new).
Proof.
  induction ps as [|p ps IH]; intros h items0; simpl.
  - apply triple_ret. exists []. simpl. rewrite app_nil_r.
    split; [reflexivity|]. split; constructor.
  - destruct (is_active p) eqn:Hact.
    + eapply triple_bind; [apply triple_randint; lia|].
      intros qty Hqty. cbv beta in Hqty.
      destruct (update_stock inventory h (product_id p) qty) as [[|] h1].
      * eapply triple_conseq; [apply IH|].
        intros r (new & Hitems & Hsub & Hall).
        exists (mkItem (product_id p) qty (base_price p)
                  (round2 (fmul (float_of_Z qty) (base_price p))) :: new).
        split; [rewrite Hitems, <- app_assoc; reflexivity|].
        split; [simpl; apply sublist_skip; exact Hsub|].
        constructor.
        -- simpl. split; [exact Hqty|]. exists p. auto.
        -- eapply Forall_impl; [exact Hall|].
           intros i (Hq & p' & Hp' & Hrest). split; [exact Hq|]. exists p'. auto.
      * eapply triple_conseq; [apply IH|].
        intros r (new & Hitems & Hsub & Hall). exists new.
        split; [exact Hitems|]. split; [apply sublist_cons; exact Hsub|].
        eapply Forall_impl; [exact Hall|].
        intros i (Hq & p' & Hp' & Hrest). split; [exact Hq|]. exists p'. auto.
    + eapply triple_conseq; [apply IH|].
      intros r (new & Hitems & Hsub & Hall). exists new.
      split; [exact Hitems|]. split; [apply sublist_cons; exact Hsub|].
      eapply Forall_impl; [exact Hall|].
      intros i (Hq & p' & Hp' & Hrest). split; [exact Hq|]. exists p'. auto.
Qed.

Lemma txn_wf_more_sessions (users : list user) (products0 : heap)
    (ss ss' : list session) (t : transaction) :
  txn_wf users products0 ss t -> txn_wf users products0 (ss ++ ss') t.
Proof.
  intros []. constructor; try assumption.
  intros sid Hsid. destruct (tw_linked0 sid Hsid) as ((s & Hs & Hl) & Hrest).
  split; [|exact Hrest]. exists s. split; [apply in_or_app; auto | exact Hl].
Qed.

Lemma item_key_product_ids (its : list transaction_item) (c : cart) :
  map item_key its = map cart_key c -> map item_product_id its = map fst c.
Proof.
  intros H.
  assert (H1 : map (fun x : string * Z * float => fst (fst x)) (map item_key its) =
               map (fun x : string * Z * float => fst (fst x)) (map cart_key c))
    by (rewrite H; reflexivity).
  rewrite !map_map in H1. exact H1.
Qed.

Section Records.

Variable E : exn -> Prop.
Variables NUM_SESSIONS NUM_TRANSACTIONS : nat.
Variable users : list user.
Variable categories : list category.
Variable inventory : InventoryManager.
Variable products0 : heap.
Hypothesis E_users : users = [] -> E IndexError.
Hypothesis E_products : products0 = [] -> E IndexError.
Hypothesis E_categories : categories = [] -> E IndexError.
Hypothesis Hwf0 : wf_inventory inventory products0.

Lemma triple_linked_transaction_wf (st : gen_state) (s : session) (c : cart) :
  wf_inventory inventory (st_heap st) ->
  cart_fits inventory (st_heap st) c ->
  In s (sessions st) ->
  session_wf users categories products0 s ->
  conversion_status s = "converted" ->
  cart_contents s = positive_entries c ->
  triple E (linked_transaction inventory st s c)
    (fun st' =>
       sessions st' = sessions st /\
       exists new_txns,
         transactions st' = (transactions st ++ new_txns)%list /\
         Forall (txn_wf users products0 (sessions st)) new_txns).
Proof.
  intros Hwf Hfit Hs Hswf Hconv Hcart. unfold linked_transaction.
  destruct (reserve_cart_fits inventory c (st_heap st) [] Hwf Hfit)
    as (new & h' & Hres & _).
  destruct (reserve_cart_accounts inventory c (st_heap st) [] Hwf)
    as (new2 & rest & Hitems & _ & Hkeys & Hvalid).
  rewrite Hres in Hitems, Hvalid. cbn [fst snd app] in Hitems, Hvalid.
  subst new2. assert (rest = []) by (apply Hvalid; reflexivity). subst rest.
  rewrite app_nil_r, <- Hcart in Hkeys.
  rewrite Hres. cbn [app]. cbv iota beta. unfold emit_linked.
  destruct new as [|i new]; cbn [truthy andb].
  - apply triple_ret. simpl. split; [reflexivity|].
    exists []. rewrite app_nil_r. split; [reflexivity | constructor].
  - cbv zeta.
    eapply triple_bind; [apply triple_draw_discount|]. intros disc _.
    eapply triple_bind; [apply triple_generate_transaction_id|]. intros tid _.
    eapply triple_bind; [apply triple_choice; discriminate|].
    intros pm Hpm. cbv beta in Hpm.
    apply triple_ret. simpl. split; [reflexivity|].
    eexists [_]. split; [reflexivity|]. constructor; [|constructor].
    destruct Hswf. constructor; simpl.
    + destruct sw_user0 as (u & Hu & Hid & _). exists u. auto.
    + apply Forall_forall. intros it Hit. apply list_elem_of_In in Hit.
      apply (in_map item_key) in Hit. rewrite <- Hkeys in Hit.
      apply in_map_iff in Hit. destruct Hit as ([k e] & Hke & Hin).
      unfold cart_key, item_key in Hke. simpl in Hke.
      injection Hke as Hk Hq Hp.
      destruct sw_cart0 as [_ Hc].
      destruct (Hc k e Hin) as (_ & Hqty & p & Hp0 & Hpid & Hprice).
      split; [lia|]. exists p. split; [exact Hp0|]. split; congruence.
    + intros sid Hsid. split; [|split; [reflexivity|split; [exact Hpm|]]].
      * exists s. split; [exact Hs|]. unfold linked_to. simpl.
        split; [reflexivity|]. split; [exact Hconv|]. split; [reflexivity|].
        split; [symmetry; apply sw_times0 | symmetry; exact Hkeys].
      * change (List.NoDup (map item_product_id (i :: new))).
        rewrite (item_key_product_ids (i :: new) (cart_contents s)
                   (eq_sym Hkeys)).
        apply sw_cart0.
    + discriminate.
Qed.

Lemma triple_standalone_transaction_wf (st : gen_state) :
  same_objects products0 (st_heap st) ->
  triple E (standalone_transaction NUM_TRANSACTIONS users inventory st)
    (fun st' =>
       sessions st' = sessions st /\
       exists new_txns,
         transactions st' = (transactions st ++ new_txns)%list /\
         Forall (txn_wf users products0 (sessions st)) new_txns).
Proof.
  intros Hobj. unfold standalone_transaction.
  assert (Hnone : sessions st = sessions st /\
            exists new_txns,
              transactions st = (transactions st ++ new_txns)%list /\
              Forall (txn_wf users products0 (sessions st)) new_txns).
  { split; [reflexivity|]. exists []. rewrite app_nil_r.
    split; [reflexivity | constructor]. }
  destruct (transaction_counter st <? NUM_TRANSACTIONS)%nat;
    [|apply triple_ret; exact Hnone].
  eapply triple_bind; [apply triple_random|]. intros r _.
  destruct (Qlt_bool r 0.2); [|apply triple_ret; exact Hnone].
  eapply triple_bind; [apply triple_choice; exact E_users|].
  intros u Hu. cbv beta in Hu.
  eapply triple_bind; [apply triple_sample_perm; lia|].
  intros ps [Hlen (others & Hperm)].
  eapply triple_bind; [apply triple_reserve_sampled_items|].
  intros [its h'] (new & Hits & Hsub & Hall). simpl in Hits. subst its.
  unfold emit_standalone.
  destruct new as [|i new]; cbn [truthy app].
  - apply triple_ret. simpl. split; [reflexivity|].
    exists []. rewrite app_nil_r. split; [reflexivity | constructor].
  - cbv zeta.
    eapply triple_bind; [apply triple_draw_discount|]. intros disc _.
    eapply triple_bind; [apply triple_generate_transaction_id|]. intros tid _.
    eapply triple_bind.
    { unfold date_time_between. apply triple_randint. unfold TIMESPAN_DAYS. lia. }
    intros ts Hts. cbv beta in Hts.
    eapply triple_bind; [apply triple_choice; discriminate|].
    intros pm Hpm. cbv beta in Hpm.
    eapply triple_bind; [apply triple_choice; discriminate|].
    intros stat Hstat. cbv beta in Hstat.
    apply triple_ret. simpl. split; [reflexivity|].
    eexists [_]. split; [reflexivity|]. constructor; [|constructor].
    assert (Hcat : Forall (fun it => 1 <= item_quantity it <= 3 /\
                     exists p, In p products0 /\
                       product_id p = item_product_id it /\
                       base_price p = unit_price it /\ is_active p = true)
                     (i :: new)).
    { eapply Forall_impl; [exact Hall|].
      intros it (Hq & p & Hp & Hid & Hpr & Hact). split; [exact Hq|].
      assert (Hph : In p (st_heap st)).
      { apply list_elem_of_In. rewrite <- Hperm. apply elem_of_app. left.
        apply list_elem_of_In. exact Hp. }
      destruct (same_objects_In_back _ _ _ Hobj Hph)
        as (p0 & Hp0 & Hid0 & Hpr0 & _ & Hact0).
      exists p0. split; [exact Hp0|]. repeat split; congruence. }
    constructor; simpl.
    + exists u. auto.
    + eapply Forall_impl; [exact Hcat|].
      intros it (Hq & p & Hp & Hid & Hpr & _). split; [lia|]. exists p. auto.
    + discriminate.
    + intros _. split.
      { pose proof (sublist_length _ _ Hsub) as Hl.
        rewrite !length_map in Hl. simpl length in Hl |- *. lia. }
      split; [exact Hcat|]. split; [exact Hts|]. split; [exact Hpm|].
      split; [exact Hstat|].
      intros Hnd. apply NoDup_ListNoDup.
      refine (sublist_NoDup _ _ _ Hsub).
      apply NoDup_ListNoDup in Hnd.
      rewrite <- (same_objects_ids _ _ Hobj) in Hnd.
      change (map product_id (st_heap st)) with (product_id <$> st_heap st) in Hnd.
      rewrite <- Hperm, fmap_app in Hnd.
      apply NoDup_app in Hnd. apply Hnd.
Qed.

Lemma run_facts_txns (st st' : gen_state) :
  run_facts users categories products0 st ->
  sessions st' = sessions st ->
  (exists new_txns,
     transactions st' = (transactions st ++ new_txns)%list /\
     Forall (txn_wf users products0 (sessions st)) new_txns) ->
  run_facts users categories products0 st'.
Proof.
  intros [] Hs (new & Ht & Hnew). constructor.
  - rewrite Hs. assumption.
  - rewrite Hs, Ht. apply Forall_app. split; assumption.
Qed.

Lemma triple_session_step_facts (st : gen_state) :
  run_inv inventory products0 st ->
  run_facts users categories products0 st ->
  triple E (session_step NUM_TRANSACTIONS users categories inventory st)
    (run_facts users categories products0).
Proof.
  intros Hinv Hfacts. unfold session_step.
  pose proof (run_inv_wf inventory products0 Hwf0 st Hinv) as Hwf.
  pose proof (run_inv_heap_empty E inventory products0 E_products Hwf0 st Hinv)
    as Hempty.
  eapply triple_bind.
  { apply triple_conj.
    - apply (triple_generate_session E users categories inventory (st_heap st)
               E_users Hempty E_categories Hwf).
    - apply (triple_generate_session_wf E users categories inventory (st_heap st)
               E_users Hempty E_categories Hwf). }
  intros [[s c] converted] [(_ & _ & Hfit & Hcart & Hstatus & _) Hswf].
  simpl in Hfit, Hcart, Hstatus, Hswf.
  assert (Hswf0 : session_wf users categories products0 s).
  { eapply session_wf_same_objects; [|exact Hswf]. apply Hinv. }
  assert (Hfacts1 : run_facts users categories products0
            (mkState (st_heap st) (sessions st ++ [s])%list (transactions st)
               (transaction_counter st) (S (session_counter st)) (iteration st))).
  { destruct Hfacts. constructor; simpl.
    - apply Forall_app. split; [assumption | constructor; [exact Hswf0 | constructor]].
    - eapply Forall_impl; [eassumption|]. intros t Ht.
      apply txn_wf_more_sessions. exact Ht. }
  cbv zeta.
  destruct converted; simpl andb; [|apply triple_ret; exact Hfacts1].
  match goal with
  | |- triple _ (if ?b then _ else _) _ => destruct b
  end; [|apply triple_ret; exact Hfacts1].
  eapply triple_conseq.
  - apply triple_linked_transaction_wf with (s := s); simpl.
    + exact Hwf.
    + exact Hfit.
    + apply in_or_app. right. left. reflexivity.
    + exact Hswf0.
    + apply Hstatus. reflexivity.
    + exact Hcart.
  - intros st' [Hs Hnew]. eapply run_facts_txns; eauto.
Qed.

Lemma triple_loop_body_facts (st : gen_state) :
  run_inv inventory products0 st ->
  run_facts users categories products0 st ->
  triple E (loop_body NUM_SESSIONS NUM_TRANSACTIONS users categories inventory st)
    (fun st' => run_inv inventory products0 st' /\
                run_facts users categories products0 st').
Proof.
  intros Hinv Hfacts. unfold loop_body. cbv zeta.
  pose proof (run_inv_iteration inventory products0 st (S (iteration st)) Hinv)
    as Hinv0.
  assert (Hfacts0 : run_facts users categories products0
            (mkState (st_heap st) (sessions st) (transactions st)
               (transaction_counter st) (session_counter st) (S (iteration st)))).
  { destruct Hfacts. constructor; simpl; assumption. }
  eapply triple_bind with
    (P := fun st1 => run_inv inventory products0 st1 /\
                     run_facts users categories products0 st1).
  - match goal with
    | |- triple _ (if ?b then _ else _) _ => destruct b
    end; [|apply triple_ret; split; assumption].
    apply triple_conj.
    + apply (triple_session_step E NUM_TRANSACTIONS users categories inventory
               products0 E_users E_products E_categories Hwf0 _ Hinv0).
    + apply triple_session_step_facts; assumption.
  - intros st1 [Hinv1 Hfacts1]. apply triple_conj.
    + eapply triple_conseq.
      * apply (triple_standalone_transaction E NUM_TRANSACTIONS users inventory
                 E_users st1).
        apply (run_inv_wf inventory products0 Hwf0 st1 Hinv1).
      * intros st' Hstep. eapply run_inv_txn_step; eauto.
    + eapply triple_conseq.
      * apply triple_standalone_transaction_wf. apply Hinv1.
      * intros st' [Hs Hnew]. eapply run_facts_txns; eauto.
Qed.

Lemma triple_generation_loop_facts (n : nat) : forall st : gen_state,
  run_inv inventory products0 st ->
  run_facts users categories products0 st ->
  triple E (generation_loop NUM_SESSIONS NUM_TRANSACTIONS users categories
              inventory n st)
    (run_facts users categories products0).
Proof.
  induction n as [|n IH]; intros st Hinv Hfacts; simpl.
  - apply triple_ret. exact Hfacts.
  - match goal with
    | |- triple _ (if ?b then _ else _) _ => destruct b
    end; [|apply triple_ret; exact Hfacts].
    eapply triple_bind; [apply triple_loop_body_facts; assumption|].
    intros st' [Hinv' Hfacts']. apply IH; assumption.
Qed.

End Records.

Lemma generate_run_facts (NUM_SESSIONS NUM_TRANSACTIONS : nat)
    (users : list user) (categories : list category) (products0 : heap)
    (tape tape' : rng) (st : gen_state) :
  generate NUM_SESSIONS NUM_TRANSACTIONS users categories products0 tape
    = Ok st tape' ->
  run_facts users categories products0 st.
Proof.
  intros Hrun. eapply (triple_result any_exn); [|exact Hrun].
  unfold generate.
  apply (triple_generation_loop_facts any_exn NUM_SESSIONS NUM_TRANSACTIONS
           users categories (InventoryManager_init products0) products0
           (fun _ => I) (fun _ => I) (fun _ => I) (wf_inventory_init products0)).
  - apply run_inv_initial.
  - constructor; constructor.
Qed.

(* ===================================================================== *)
(** ** Sessions of a run *)
(* ===================================================================== *)

Lemma follows_table_snoc_inv (l : list string) (x : string) :
  follows_table (l ++ [x]) ->
  follows_table l /\ forall a, last l = Some a -> In x (successors a).
Proof.
  induction l as [|a l IH]; intros H.
  - split; [exact I | discriminate].
  - destruct l as [|b l].
    + destruct H as [Hx _]. split; [exact I|].
      intros a' Ha. injection Ha as <-. exact Hx.
    + destruct H as [Hab H]. destruct (IH H) as [Hl Hlast].
      split; [split; assumption|].
      intros c Hc. rewrite last_cons_cons in Hc. auto.
Qed.

Lemma successors_facts (a x : string) :
  In a known_page_types -> In x (successors a) ->
  In x known_page_types /\
  (x = "confirmation" -> a = "checkout") /\
  (x = "checkout" -> a = "cart") /\
  (x = "cart" -> a = "product_detail" \/ a = "checkout").
Proof.
  intros Ha Hx. simpl in Ha.
  repeat (destruct Ha as [<-|Ha];
          [simpl in Hx;
           repeat (destruct Hx as [<-|Hx];
                   [split; [simpl; tauto|];
                    repeat split; intros; (discriminate || auto)|]);
           destruct Hx|]).
  destruct Ha.
Qed.

(** The funnel a browsing path goes through. *)
Lemma browsing_path_funnel (l : list string) :
  browsing_path l ->
  Forall (fun t => In t known_page_types) l /\
  (In "confirmation" l -> In "checkout" l) /\
  (In "checkout" l -> In "cart" l) /\
  (In "cart" l -> In "product_detail" l).
Proof.
  induction l as [|x l IH] using rev_ind; intros Hpath.
  - split; [constructor|]. simpl. tauto.
  - destruct Hpath as [Hhead Htable].
    apply follows_table_snoc_inv in Htable. destruct Htable as [Htable Hlast].
    destruct l as [|a0 l0].
    + simpl in Hhead. split.
      * constructor; [|constructor]. simpl in *. tauto.
      * simpl in *.
        repeat split; intros [->|[]];
          repeat (destruct Hhead as [Hhead|Hhead]; [discriminate|]);
          destruct Hhead.
    + destruct (IH (conj Hhead Htable)) as (Hknown & Hconf & Hchk & Hcart).
      destruct (last (a0 :: l0)) as [a|] eqn:Ha;
        [|apply last_None in Ha; discriminate].
      assert (Hain : In a (a0 :: l0)).
      { apply list_elem_of_In. eapply last_Some_elem_of. exact Ha. }
      assert (Hak : In a known_page_types).
      { rewrite Forall_forall in Hknown. apply Hknown, list_elem_of_In, Hain. }
      destruct (successors_facts a x Hak (Hlast a eq_refl))
        as (Hxk & Hx1 & Hx2 & Hx3).
      split; [apply Forall_app; split; [exact Hknown | constructor; [exact Hxk | constructor]]|].
      split; [|split].
      * intros Hin. apply in_app_or in Hin. apply in_or_app.
        destruct Hin as [Hin|[Hx|[]]]; [left; auto|].
        left. rewrite <- (Hx1 Hx). exact Hain.
      * intros Hin. apply in_app_or in Hin. apply in_or_app.
        destruct Hin as [Hin|[Hx|[]]]; [left; auto|].
        left. rewrite <- (Hx2 Hx). exact Hain.
      * intros Hin. apply in_app_or in Hin. apply in_or_app.
        destruct Hin as [Hin|[Hx|[]]]; [left; auto|].
        left. destruct (Hx3 Hx) as [Hpd|Hco].
        -- rewrite <- Hpd. exact Hain.
        -- apply Hcart, Hchk. rewrite <- Hco. exact Hain.
Qed.

Lemma run_sessions_wf (NUM_SESSIONS NUM_TRANSACTIONS : nat)
    (users : list user) (categories : list category) (products0 : heap)
    (tape tape' : rng) (st : gen_state) (s : session) :
  generate NUM_SESSIONS NUM_TRANSACTIONS users categories products0 tape
    = Ok st tape' ->
  In s (sessions st) -> session_wf users categories products0 s.
Proof.
  intros Hrun Hs. apply generate_run_facts in Hrun. destruct Hrun.
  rewrite Forall_forall in rf_sessions0. apply rf_sessions0.
  apply list_elem_of_In. exact Hs.
Qed.

Lemma run_txns_wf (NUM_SESSIONS NUM_TRANSACTIONS : nat)
    (users : list user) (categories : list category) (products0 : heap)
    (tape tape' : rng) (st : gen_state) (t : transaction) :
  generate NUM_SESSIONS NUM_TRANSACTIONS users categories products0 tape
    = Ok st tape' ->
  In t (transactions st) -> txn_wf users products0 (sessions st) t.
Proof.
  intros Hrun Ht. apply generate_run_facts in Hrun. destruct Hrun.
  rewrite Forall_forall in rf_txns0. apply rf_txns0.
  apply list_elem_of_In. exact Ht.
Qed.

Lemma sample_session_in : exists s, In s (sessions sample_state).
Proof. eexists. left. reflexivity. Qed.

(** X5. Browsing path: in every emitted session the first page is home,
    search or category_listing, and every later page type is one of the
    successors the transition table of [determine_page_type] lists for the
    page type just before it. *)
Theorem sessions_follow_transition_table (NUM_SESSIONS NUM_TRANSACTIONS : nat)
    (users : list user) (categories : list category) (products0 : heap)
    (tape tape' : rng) (st : gen_state) :
  generate NUM_SESSIONS NUM_TRANSACTIONS users categories products0 tape
    = Ok st tape' ->
  forall s, In s (sessions st) ->
    match map page_type (page_views s) with
    | [] => True
    | first :: _ => In first entry_pages
    end /\
    follows_table (map page_type (page_views s)).
Proof.
  intros Hrun s Hs. exact (sw_path _ _ _ _ (run_sessions_wf _ _ _ _ _ _ _ _ _ Hrun Hs)).
Qed.

Lemma sessions_follow_transition_table_witness :
  Forall (fun s => follows_table (map page_type (page_views s)))
    (sessions sample_state).
Proof.
  apply Forall_forall. intros s Hs. apply list_elem_of_In in Hs.
  apply (sessions_follow_transition_table 1 2 sample_users sample_categories
           sample_products sample_tape sample_tape_end sample_state);
    [vm_compute; reflexivity | exact Hs].
Defined.

(** X6. Purchase funnel: in every emitted session all page types are among
    the seven known ones; a session with a confirmation page has a checkout
    page, one with a checkout page has a cart page, and one with a cart page
    has a product_detail page. *)
Theorem sessions_go_through_funnel (NUM_SESSIONS NUM_TRANSACTIONS : nat)
    (users : list user) (categories : list category) (products0 : heap)
    (tape tape' : rng) (st : gen_state) :
  generate NUM_SESSIONS NUM_TRANSACTIONS users categories products0 tape
    = Ok st tape' ->
  forall s, In s (sessions st) ->
    let pts := map page_type (page_views s) in
    Forall (fun t => In t known_page_types) pts /\
    (In "confirmation" pts -> In "checkout" pts) /\
    (In "checkout" pts -> In "cart" pts) /\
    (In "cart" pts -> In "product_detail" pts).
Proof.
  intros Hrun s Hs. cbv zeta. apply browsing_path_funnel.
  exact (sw_path _ _ _ _ (run_sessions_wf _ _ _ _ _ _ _ _ _ Hrun Hs)).
Qed.

Lemma sessions_go_through_funnel_witness :
  Forall (fun s => In "cart" (map page_type (page_views s)) ->
                   In "product_detail" (map page_type (page_views s)))
    (sessions sample_state).
Proof.
  apply Forall_forall. intros s Hs. apply list_elem_of_In in Hs.
  apply (sessions_go_through_funnel 1 2 sample_users sample_categories
           sample_products sample_tape sample_tape_end sample_state);
    [vm_compute; reflexivity | exact Hs].
Defined.

(** X7. Page-view references: a page view carries a product id exactly when
    its type is product_detail, and the id is one of the catalog; a category
    id is carried only by product_detail and category_listing pages, always
    by the latter, and is the id of a listed category; on a product page it
    is the category of a catalog product with that product id. *)
Theorem page_view_references (NUM_SESSIONS NUM_TRANSACTIONS : nat)
    (users : list user) (categories : list category) (products0 : heap)
    (tape tape' : rng) (st : gen_state) :
  generate NUM_SESSIONS NUM_TRANSACTIONS users categories products0 tape
    = Ok st tape' ->
  forall s pv, In s (sessions st) -> In pv (page_views s) ->
    (page_type pv = "product_detail" <-> pv_product_id pv <> None) /\
    (forall pid, pv_product_id pv = Some pid -> In pid (map product_id products0)) /\
    (forall cid, pv_category_id pv = Some cid ->
       In cid (map category_id categories)) /\
    (page_type pv = "category_listing" -> pv_category_id pv <> None) /\
    (pv_category_id pv <> None ->
     page_type pv = "category_listing" \/ page_type pv = "product_detail") /\
    (forall pid cid, pv_product_id pv = Some pid -> pv_category_id pv = Some cid ->
       exists p, In p products0 /\ product_id p = pid /\
                 product_category_id p = cid).
Proof.
  intros Hrun s pv Hs Hpv.
  pose proof (sw_refs _ _ _ _ (run_sessions_wf _ _ _ _ _ _ _ _ _ Hrun Hs)) as Hrefs.
  rewrite Forall_forall in Hrefs. apply Hrefs, list_elem_of_In, Hpv.
Qed.

Lemma page_view_references_witness :
  Forall (fun s =>
            Forall (fun pv => forall pid, pv_product_id pv = Some pid ->
                                In pid (map product_id sample_products))
              (page_views s))
    (sessions sample_state).
Proof.
  apply Forall_forall. intros s Hs. apply list_elem_of_In in Hs.
  apply Forall_forall. intros pv Hpv. apply list_elem_of_In in Hpv.
  apply (page_view_references 1 2 sample_users sample_categories
           sample_products sample_tape sample_tape_end sample_state
           ltac:(vm_compute; reflexivity) s pv Hs Hpv).
Defined.

(** X8. Session timeline: a session starts within the 90 days before the
    instant of generation and ends [duration_seconds] later; the first page
    view starts at the session start, every page view starts when the one
    before it ends, and the last one ends at the session end. *)
Theorem page_views_tile_session (NUM_SESSIONS NUM_TRANSACTIONS : nat)
    (users : list user) (categories : list category) (products0 : heap)
    (tape tape' : rng) (st : gen_state) :
  generate NUM_SESSIONS NUM_TRANSACTIONS users categories products0 tape
    = Ok st tape' ->
  forall s, In s (sessions st) ->
    end_time s = start_time s + duration_seconds s /\
    - (TIMESPAN_DAYS * 86400) <= start_time s <= 0 /\
    tiles (start_time s) (view_times (page_views s)) (end_time s).
Proof.
  intros Hrun s Hs.
  destruct (run_sessions_wf _ _ _ _ _ _ _ _ _ Hrun Hs).
  destruct sw_times0. auto.
Qed.

Lemma page_views_tile_session_witness :
  Forall (fun s => tiles (start_time s) (view_times (page_views s)) (end_time s))
    (sessions sample_state).
Proof.
  apply Forall_forall. intros s Hs. apply list_elem_of_In in Hs.
  apply (page_views_tile_session 1 2 sample_users sample_categories
           sample_products sample_tape sample_tape_end sample_state);
    [vm_compute; reflexivity | exact Hs].
Defined.

(** X9. Viewed products: [viewed_products] lists, without repetition,
    exactly the product ids carried by the page views of the session. *)
Theorem viewed_products_are_page_views (NUM_SESSIONS NUM_TRANSACTIONS : nat)
    (users : list user) (categories : list category) (products0 : heap)
    (tape tape' : rng) (st : gen_state) :
  generate NUM_SESSIONS NUM_TRANSACTIONS users categories products0 tape
    = Ok st tape' ->
  forall s, In s (sessions st) ->
    List.NoDup (viewed_products s) /\
    forall pid, In pid (viewed_products s) <->
      exists pv, In pv (page_views s) /\ pv_product_id pv = Some pid.
Proof.
  intros Hrun s Hs.
  exact (sw_viewed _ _ _ _ (run_sessions_wf _ _ _ _ _ _ _ _ _ Hrun Hs)).
Qed.

Lemma viewed_products_are_page_views_witness :
  Forall (fun s => List.NoDup (viewed_products s)) (sessions sample_state).
Proof.
  apply Forall_forall. intros s Hs. apply list_elem_of_In in Hs.
  apply (viewed_products_are_page_views 1 2 sample_users sample_categories
           sample_products sample_tape sample_tape_end sample_state);
    [vm_compute; reflexivity | exact Hs].
Defined.

(** X10. Emitted cart: the keys of [cart_contents] are not repeated; every
    entry is for a viewed product, holds at least one unit and at most three
    units per page view of the session, and carries the base price of a
    catalog product with that id. *)
Theorem cart_contents_entries (NUM_SESSIONS NUM_TRANSACTIONS : nat)
    (users : list user) (categories : list category) (products0 : heap)
    (tape tape' : rng) (st : gen_state) :
  generate NUM_SESSIONS NUM_TRANSACTIONS users categories products0 tape
    = Ok st tape' ->
  forall s, In s (sessions st) ->
    List.NoDup (map fst (cart_contents s)) /\
    forall pid e, In (pid, e) (cart_contents s) ->
      In pid (viewed_products s) /\
      1 <= quantity e <= 3 * Z.of_nat (length (page_views s)) /\
      exists p, In p products0 /\ product_id p = pid /\ base_price p = price e.
Proof.
  intros Hrun s Hs.
  exact (sw_cart _ _ _ _ (run_sessions_wf _ _ _ _ _ _ _ _ _ Hrun Hs)).
Qed.

Lemma cart_contents_entries_witness :
  Forall (fun s => Forall (fun kv => 1 <= quantity (snd kv)) (cart_contents s))
    (sessions sample_state).
Proof.
  apply Forall_forall. intros s Hs. apply list_elem_of_In in Hs.
  apply Forall_forall. intros [pid e] He. apply list_elem_of_In in He. simpl.
  destruct (cart_contents_entries 1 2 sample_users sample_categories
              sample_products sample_tape sample_tape_end sample_state
              ltac:(vm_compute; reflexivity) s Hs) as [_ Hc].
  destruct (Hc pid e He) as (_ & Hq & _). lia.
Defined.

(** X11. Session attributes: the session's user id and geo data are those
    of one listed user; the conversion status is converted, abandoned or
    browsed; a browsed session has an empty cart, and a session that is not
    browsed has viewed a product; device type, operating system, browser
    and referrer are taken from their fixed lists. *)
Theorem session_attributes (NUM_SESSIONS NUM_TRANSACTIONS : nat)
    (users : list user) (categories : list category) (products0 : heap)
    (tape tape' : rng) (st : gen_state) :
  generate NUM_SESSIONS NUM_TRANSACTIONS users categories products0 tape
    = Ok st tape' ->
  forall s, In s (sessions st) ->
    (exists u, In u users /\ session_user_id s = user_id u /\
               session_geo s = geo_data u) /\
    In (conversion_status s) ["converted"; "abandoned"; "browsed"] /\
    (conversion_status s = "browsed" -> cart_contents s = []) /\
    (conversion_status s <> "browsed" -> viewed_products s <> []) /\
    In (device_type (device_profile s)) ["mobile"; "desktop"; "tablet"] /\
    In (os (device_profile s)) ["iOS"; "Android"; "Windows"; "macOS"] /\
    In (browser (device_profile s)) ["Chrome"; "Safari"; "Firefox"; "Edge"] /\
    In (referrer s) ["direct"; "email"; "social"; "search_engine"; "affiliate"].
Proof.
  intros Hrun s Hs.
  destruct (run_sessions_wf _ _ _ _ _ _ _ _ _ Hrun Hs).
  destruct sw_status0 as (? & ? & ?). destruct sw_profile0 as (? & ? & ? & ?).
  repeat (split; [assumption|]). assumption.
Qed.

Lemma session_attributes_witness :
  Forall (fun s => In (conversion_status s) ["converted"; "abandoned"; "browsed"])
    (sessions sample_state).
Proof.
  apply Forall_forall. intros s Hs. apply list_elem_of_In in Hs.
  apply (session_attributes 1 2 sample_users sample_categories
           sample_products sample_tape sample_tape_end sample_state
           ltac:(vm_compute; reflexivity) s Hs).
Defined.

(* ===================================================================== *)
(** ** Transactions of a run *)
(* ===================================================================== *)

(** X12. Linked transactions: a transaction that names a session refers to
    an emitted session with that id which is converted; it has that
    session's user and end time, its items are the entries of the session's
    emitted cart in order, with the same product ids, quantities and unit
    prices; its status is completed and its payment method is one of the
    four of the linked block. *)
Theorem linked_transaction_mirrors_session (NUM_SESSIONS NUM_TRANSACTIONS : nat)
    (users : list user) (categories : list category) (products0 : heap)
    (tape tape' : rng) (st : gen_state) :
  generate NUM_SESSIONS NUM_TRANSACTIONS users categories products0 tape
    = Ok st tape' ->
  forall t sid, In t (transactions st) -> txn_session_id t = Some sid ->
    (exists s, In s (sessions st) /\ session_id s = sid /\
               conversion_status s = "converted" /\
               txn_user_id t = session_user_id s /\
               txn_timestamp t = end_time s /\
               map item_key (items t) = map cart_key (cart_contents s)) /\
    status t = "completed" /\
    In (payment_method t) ["credit_card"; "paypal"; "apple_pay"; "bank_transfer"].
Proof.
  intros Hrun t sid Ht Hsid.
  destruct (run_txns_wf _ _ _ _ _ _ _ _ _ Hrun Ht).
  destruct (tw_linked0 sid Hsid) as ((s & Hs & Hl) & Hstat & Hpm & _).
  split; [|split; assumption].
  destruct Hl as (Hid & Hconv & Hu & Hts & Hitems).
  exists s. split; [exact Hs|]. split; [congruence|]. auto.
Qed.

Lemma linked_transaction_mirrors_session_witness :
  Forall (fun t => forall sid, txn_session_id t = Some sid ->
                     status t = "completed")
    (transactions sample_state) /\
  map txn_session_id (transactions sample_state)
    = [Some "sess_0000000000"; None].
Proof.
  split; [|reflexivity].
  apply Forall_forall. intros t Ht. apply list_elem_of_In in Ht.
  intros sid Hsid.
  apply (linked_transaction_mirrors_session 1 2 sample_users sample_categories
           sample_products sample_tape sample_tape_end sample_state
           ltac:(vm_compute; reflexivity) t sid Ht Hsid).
Defined.

(** X13. Standalone transactions: a transaction that names no session has
    at most three items, each of one to three units of an active catalog
    product at its base price; its timestamp lies within the 90 days before
    the instant of generation; payment method and status are taken from the
    lists of the standalone block. *)
Theorem standalone_transaction_shape (NUM_SESSIONS NUM_TRANSACTIONS : nat)
    (users : list user) (categories : list category) (products0 : heap)
    (tape tape' : rng) (st : gen_state) :
  generate NUM_SESSIONS NUM_TRANSACTIONS users categories products0 tape
    = Ok st tape' ->
  forall t, In t (transactions st) -> txn_session_id t = None ->
    (length (items t) <= 3)%nat /\
    Forall (fun i => 1 <= item_quantity i <= 3 /\
              exists p, In p products0 /\ product_id p = item_product_id i /\
                        base_price p = unit_price i /\ is_active p = true)
      (items t) /\
    - (TIMESPAN_DAYS * 86400) <= txn_timestamp t <= 0 /\
    In (payment_method t) ["credit_card"; "paypal"; "bank_transfer"; "gift_card"] /\
    In (status t) ["completed"; "processing"; "shipped"; "delivered"].
Proof.
  intros Hrun t Ht Hnone.
  destruct (run_txns_wf _ _ _ _ _ _ _ _ _ Hrun Ht).
  destruct (tw_standalone0 Hnone) as (H1 & H2 & H3 & H4 & H5 & _).
  auto.
Qed.

Lemma standalone_transaction_shape_witness :
  Forall (fun t => txn_session_id t = None -> (length (items t) <= 3)%nat)
    (transactions sample_state).
Proof.
  apply Forall_forall. intros t Ht. apply list_elem_of_In in Ht. intros Hnone.
  apply (standalone_transaction_shape 1 2 sample_users sample_categories
           sample_products sample_tape sample_tape_end sample_state
           ltac:(vm_compute; reflexivity) t Ht Hnone).
Defined.

(** X14. Transaction items: every transaction belongs to a listed user;
    every item holds at least one unit of a catalog product at that
    product's base price; and when the catalog ids are not repeated no
    transaction lists a product twice. *)
Theorem transaction_items_from_catalog (NUM_SESSIONS NUM_TRANSACTIONS : nat)
    (users : list user) (categories : list category) (products0 : heap)
    (tape tape' : rng) (st : gen_state) :
  generate NUM_SESSIONS NUM_TRANSACTIONS users categories products0 tape
    = Ok st tape' ->
  forall t, In t (transactions st) ->
    (exists u, In u users /\ txn_user_id t = user_id u) /\
    Forall (fun i => 1 <= item_quantity i /\
              exists p, In p products0 /\ product_id p = item_product_id i /\
                        base_price p = unit_price i)
      (items t) /\
    (List.NoDup (map product_id products0) ->
     List.NoDup (map item_product_id (items t))).
Proof.
  intros Hrun t Ht.
  destruct (run_txns_wf _ _ _ _ _ _ _ _ _ Hrun Ht).
  split; [exact tw_user0|]. split; [exact tw_items0|].
  intros Hnd. destruct (txn_session_id t) as [sid|] eqn:Hsid.
  - apply (tw_linked0 sid eq_refl).
  - apply (tw_standalone0 eq_refl). exact Hnd.
Qed.

Lemma transaction_items_from_catalog_witness :
  Forall (fun t => List.NoDup (map item_product_id (items t)))
    (transactions sample_state).
Proof.
  apply Forall_forall. intros t Ht. apply list_elem_of_In in Ht.
  apply (transaction_items_from_catalog 1 2 sample_users sample_categories
           sample_products sample_tape sample_tape_end sample_state
           ltac:(vm_compute; reflexivity) t Ht).
  repeat constructor; simpl; intuition discriminate.
Defined.

(* ===================================================================== *)
(** ** Export of the sessions in chunks *)
(* ===================================================================== *)

Lemma session_chunks_of_eq {A} (size : nat) (l : list A) :
  (0 < size)%nat ->
  session_chunks_of size l =
  map (fun k => (k, firstn size (skipn (k * size) l)))
    (seq 0 ((length l + size - 1) / size)).
Proof.
  intros Hsize. unfold session_chunks_of, range_step, slice.
  rewrite map_map. apply map_ext. intros k.
  rewrite Nat.div_mul by lia. f_equal. f_equal. lia.
Qed.

Lemma concat_chunks {A} (size : nat) (m : nat) : forall l : list A,
  (length l <= m * size)%nat ->
  concat (map (fun k => firstn size (skipn (k * size) l)) (seq 0 m)) = l.
Proof.
  induction m as [|m IH]; intros l Hlen.
  - simpl in Hlen. destruct l; [reflexivity | simpl in Hlen; lia].
  - simpl seq. rewrite <- seq_shift. cbn [map concat]. rewrite map_map.
    change (skipn (0 * size) l) with l.
    rewrite (map_ext _ (fun k => firstn size (skipn (k * size) (skipn size l)))).
    + rewrite IH; [apply firstn_skipn|].
      rewrite length_skipn. simpl in Hlen. lia.
    + intros k. f_equal. rewrite skipn_skipn. f_equal. simpl. lia.
Qed.

Lemma ceil_div_bounds (n size : nat) :
  (0 < size)%nat ->
  (n <= (n + size - 1) / size * size)%nat /\
  (0 < n -> ((n + size - 1) / size - 1) * size < n)%nat.
Proof.
  intros Hsize.
  pose proof (Nat.div_mod_eq (n + size - 1) size) as Hdm.
  pose proof (Nat.mod_upper_bound (n + size - 1) size ltac:(lia)) as Hmod.
  split; [nia|]. intros Hn.
  assert (1 <= (n + size - 1) / size)%nat.
  { apply Nat.div_le_lower_bound; lia. }
  nia.
Qed.

(** X15. Chunked export: for a positive chunk size the chunks, put back
    together in file order, are the session list; the files are numbered
    0, 1, 2, ... without gap; no file is empty or holds more than the chunk
    size, and every file but the last holds exactly the chunk size. *)
Theorem session_chunks_partition {A} (size : nat) (l : list A) :
  (0 < size)%nat ->
  concat (map snd (session_chunks_of size l)) = l /\
  map fst (session_chunks_of size l) = seq 0 (length (session_chunks_of size l)) /\
  length (session_chunks_of size l) = ((length l + size - 1) / size)%nat /\
  (forall k idx chunk,
     nth_error (session_chunks_of size l) k = Some (idx, chunk) ->
     idx = k /\ (1 <= length chunk <= size)%nat /\
     (S k < length (session_chunks_of size l) -> length chunk = size)%nat).
Proof.
  intros Hsize. rewrite (session_chunks_of_eq size l Hsize).
  set (m := ((length l + size - 1) / size)%nat).
  destruct (ceil_div_bounds (length l) size Hsize) as [Hup Hlow]. fold m in Hup, Hlow.
  split; [|split; [|split]].
  - rewrite map_map. simpl. apply concat_chunks. exact Hup.
  - rewrite map_map. simpl. rewrite map_id, length_map, length_seq. reflexivity.
  - rewrite length_map, length_seq. reflexivity.
  - intros k idx chunk Hk. rewrite length_map, length_seq.
    rewrite nth_error_map in Hk.
    destruct (nth_error (seq 0 m) k) as [k'|] eqn:Hk'; [|discriminate].
    simpl in Hk. injection Hk as <- <-.
    assert (Hkm : (k < m)%nat).
    { assert (Hsome : nth_error (seq 0 m) k <> None) by congruence.
      apply nth_error_Some in Hsome. rewrite length_seq in Hsome. exact Hsome. }
    pose proof (nth_error_nth _ _ 0%nat Hk') as Hn.
    rewrite seq_nth in Hn by exact Hkm. simpl in Hn. subst k'.
    split; [reflexivity|].
    rewrite length_firstn, length_skipn.
    assert (Hpos : (0 < length l)%nat).
    { destruct (length l); [|lia]. unfold m in Hkm. simpl in Hkm.
      rewrite Nat.div_small in Hkm by lia. lia. }
    specialize (Hlow Hpos).
    split; [nia|]. intros Hnext. nia.
Qed.

Lemma CHUNK_SIZE_positive : (0 < CHUNK_SIZE)%nat.
Proof. apply Nat.ltb_lt. vm_compute. reflexivity. Qed.

Lemma session_chunks_partition_witness :
  concat (map snd (session_chunks_of 2 [10; 20; 30; 40; 50]))
    = [10; 20; 30; 40; 50] /\
  session_chunks_of 2 [10; 20; 30; 40; 50]
    = [(0%nat, [10; 20]); (1%nat, [30; 40]); (2%nat, [50])].
Proof.
  split; [|reflexivity].
  apply (session_chunks_partition 2 [10; 20; 30; 40; 50]). lia.
Defined.

(* ===================================================================== *)
(** ** Product pairs of a transaction *)
(* ===================================================================== *)

Lemma ascii_compare_lt_trans (a b c : ascii) :
  Ascii.compare a b = Lt -> Ascii.compare b c = Lt -> Ascii.compare a c = Lt.
Proof.
  unfold Ascii.compare. rewrite !N.compare_lt_iff. apply N.lt_trans.
Qed.

Lemma string_compare_lt_trans (s1 : string) : forall s2 s3 : string,
  String.compare s1 s2 = Lt -> String.compare s2 s3 = Lt ->
  String.compare s1 s3 = Lt.
Proof.
  induction s1 as [|a s1 IH]; intros [|b s2] [|c s3]; simpl;
    try discriminate; try reflexivity.
  destruct (Ascii.compare a b) eqn:Hab; try discriminate.
  - apply Ascii.compare_eq_iff in Hab. subst b.
    destruct (Ascii.compare a c); try discriminate; [apply IH | reflexivity].
  - intros _. destruct (Ascii.compare b c) eqn:Hbc; try discriminate.
    + apply Ascii.compare_eq_iff in Hbc. subst c. rewrite Hab. reflexivity.
    + rewrite (ascii_compare_lt_trans a b c Hab Hbc). reflexivity.
Qed.

#[global] Instance string_le_total : Total string_le.
Proof. intros x y. apply String.leb_total. Qed.

#[global] Instance string_le_antisym : AntiSymm (=) string_le.
Proof. intros x y. apply String.leb_antisym. Qed.

#[global] Instance string_le_trans : Transitive string_le.
Proof.
  intros x y z. unfold string_le, String.leb.
  destruct (String.compare x y) eqn:Hxy; try discriminate;
    destruct (String.compare y z) eqn:Hyz; try discriminate; intros _ _.
  - apply String.compare_eq_iff in Hxy. subst y. rewrite Hyz. reflexivity.
  - apply String.compare_eq_iff in Hxy. subst y. rewrite Hyz. reflexivity.
  - apply String.compare_eq_iff in Hyz. subst z. rewrite Hxy. reflexivity.
  - rewrite (string_compare_lt_trans x y z Hxy Hyz). reflexivity.
Qed.

Lemma sorted_strings_sorted (l : list string) :
  StronglySorted string_le (sorted_strings l).
Proof. apply StronglySorted_merge_sort; typeclasses eauto. Qed.

Lemma sorted_strings_perm (l : list string) : sorted_strings l ≡ₚ l.
Proof. apply merge_sort_Permutation. Qed.

Lemma combinations2_In {A} (l : list A) (a b : A) :
  In (a, b) (combinations2 l) -> In a l /\ In b l.
Proof.
  induction l as [|x l IH]; simpl; [tauto|].
  intros H. apply in_app_or in H. destruct H as [H|H].
  - apply in_map_iff in H. destruct H as (y & Heq & Hy).
    injection Heq as <- <-. auto.
  - destruct (IH H). auto.
Qed.

Lemma combinations2_sorted {A} (R : relation A) (l : list A) (a b : A) :
  StronglySorted R l -> In (a, b) (combinations2 l) -> R a b.
Proof.
  induction 1 as [|x l Hs IH Hall]; simpl; [tauto|].
  intros H. apply in_app_or in H. destruct H as [H|H]; [|auto].
  apply in_map_iff in H. destruct H as (y & Heq & Hy). injection Heq as <- <-.
  rewrite Forall_forall in Hall. apply Hall, list_elem_of_In, Hy.
Qed.

Lemma combinations2_neq {A} (l : list A) (a b : A) :
  NoDup l -> In (a, b) (combinations2 l) -> a <> b.
Proof.
  induction 1 as [|x l Hx Hnd IH]; simpl; [tauto|].
  intros H. apply in_app_or in H. destruct H as [H|H]; [|auto].
  apply in_map_iff in H. destruct H as (y & Heq & Hy). injection Heq as <- <-.
  intros ->. apply Hx, list_elem_of_In, Hy.
Qed.

Lemma combinations2_NoDup {A} (l : list A) : NoDup l -> NoDup (combinations2 l).
Proof.
  induction 1 as [|x l Hx Hnd IH]; simpl; [constructor|].
  apply NoDup_app. split; [|split; [|exact IH]].
  - change (map (pair x) l) with (pair x <$> l).
    apply NoDup_fmap_2; [|exact Hnd]. intros y z Hyz. congruence.
  - intros [a b] Hin Hin'. apply list_elem_of_In in Hin, Hin'.
    apply in_map_iff in Hin. destruct Hin as (y & Heq & _). injection Heq as <- <-.
    apply combinations2_In in Hin'. apply Hx, list_elem_of_In, Hin'.
Qed.

Lemma combinations2_total {A} (l : list A) (a b : A) :
  In a l -> In b l -> a <> b ->
  In (a, b) (combinations2 l) \/ In (b, a) (combinations2 l).
Proof.
  induction l as [|x l IH]; simpl; [tauto|].
  intros [->|Ha] [->|Hb] Hne.
  - congruence.
  - left. apply in_or_app. left. apply in_map. exact Hb.
  - right. apply in_or_app. left. apply in_map. exact Ha.
  - destruct (IH Ha Hb Hne); [left | right]; apply in_or_app; auto.
Qed.

Lemma combinations2_length {A} (l : list A) :
  (2 * length (combinations2 l) = length l * (length l - 1))%nat.
Proof.
  induction l as [|x l IH]; [reflexivity|].
  simpl combinations2. rewrite length_app, length_map. simpl length. nia.
Qed.

(** X16. Pairs do not depend on the order of the input: two lists holding
    the same product ids in any order give the same list of pairs. *)
Theorem generate_pairs_order_independent (l l' : list string) :
  l ≡ₚ l' -> generate_pairs l = generate_pairs l'.
Proof.
  intros Hperm. unfold generate_pairs.
  rewrite (Permutation_length Hperm).
  destruct (length l' <? 2)%nat; [reflexivity|]. f_equal.
  apply (StronglySorted_unique string_le); try apply sorted_strings_sorted.
  rewrite !sorted_strings_perm. exact Hperm.
Qed.

Lemma generate_pairs_order_independent_witness :
  generate_pairs ["prod_00002"; "prod_00000"; "prod_00001"] =
  generate_pairs ["prod_00000"; "prod_00001"; "prod_00002"] /\
  generate_pairs ["prod_00002"; "prod_00000"; "prod_00001"] =
  [("prod_00000", "prod_00001"); ("prod_00000", "prod_00002");
   ("prod_00001", "prod_00002")].
Proof.
  split; [|vm_compute; reflexivity].
  apply generate_pairs_order_independent.
  etransitivity; [apply perm_swap|]. apply perm_skip, perm_swap.
Defined.

(** X17. Pairs of distinct products: for product ids without repetition,
    [generate_pairs] lists every pair of two different ids exactly once,
    with the smaller id first: a pair is listed exactly when both ids are in
    the input, differ, and the first is below the second; no pair is
    repeated; and there are n(n-1)/2 pairs for n ids. *)
Theorem generate_pairs_distinct (l : list string) :
  List.NoDup l ->
  (forall a b, In (a, b) (generate_pairs l) <->
     In a l /\ In b l /\ a <> b /\ String.leb a b = true) /\
  List.NoDup (generate_pairs l) /\
  (2 * length (generate_pairs l) = length l * (length l - 1))%nat.
Proof.
  intros Hnd. apply NoDup_ListNoDup in Hnd.
  assert (Hnds : NoDup (sorted_strings l)).
  { rewrite sorted_strings_perm. exact Hnd. }
  assert (Hin : forall a, In a (sorted_strings l) <-> In a l).
  { intros a. rewrite <- !list_elem_of_In. rewrite sorted_strings_perm. reflexivity. }
  assert (Hlen : length (sorted_strings l) = length l).
  { apply Permutation_length, sorted_strings_perm. }
  unfold generate_pairs.
  destruct (Nat.ltb_spec (length l) 2) as [Hsmall|Hbig].
  - split; [|split; [constructor|]].
    + intros a b. split; [intros []|].
      intros (Ha & Hb & Hne & _). exfalso.
      destruct l as [|x [|y l]]; simpl in *; [tauto| |lia].
      destruct Ha as [<-|[]], Hb as [<-|[]]. congruence.
    + simpl. destruct (length l) as [|[|n]]; simpl; lia.
  - split; [|split].
    + intros a b. split.
      * intros Hab.
        destruct (combinations2_In _ _ _ Hab) as [Ha Hb].
        split; [apply Hin, Ha|]. split; [apply Hin, Hb|].
        split; [exact (combinations2_neq _ _ _ Hnds Hab)|].
        exact (combinations2_sorted string_le _ _ _ (sorted_strings_sorted l) Hab).
      * intros (Ha & Hb & Hne & Hle).
        apply Hin in Ha. apply Hin in Hb.
        destruct (combinations2_total _ _ _ Ha Hb Hne) as [Hab|Hba]; [exact Hab|].
        exfalso. apply Hne. apply String.leb_antisym; [exact Hle|].
        exact (combinations2_sorted string_le _ _ _ (sorted_strings_sorted l) Hba).
    + apply NoDup_ListNoDup, combinations2_NoDup, Hnds.
    + rewrite combinations2_length, Hlen. reflexivity.
Qed.

Lemma generate_pairs_distinct_witness :
  let l := ["prod_00002"; "prod_00000"; "prod_00001"] in
  (forall a b, In (a, b) (generate_pairs l) <->
     In a l /\ In b l /\ a <> b /\ String.leb a b = true) /\
  List.NoDup (generate_pairs l) /\
  (2 * length (generate_pairs l) = length l * (length l - 1))%nat.
Proof.
  apply generate_pairs_distinct.
  repeat constructor; simpl; intuition discriminate.
Defined.

(* ===================================================================== *)
(** ** HBase shell commands for sessions *)
(* ===================================================================== *)

Lemma replace_quote_escaped (s : string) (prev : ascii) :
  HBase.quotes_escaped_after prev (HBase.replace_quote s) = true.
Proof.
  revert prev. induction s as [|c s IH]; intros prev; [reflexivity|].
  simpl. destruct (Ascii.eqb c HBase.quote) eqn:Hc.
  - simpl. rewrite IH. destruct (Ascii.eqb prev HBase.backslash); reflexivity.
  - simpl. rewrite Hc, IH. reflexivity.
Qed.

Lemma replace_quote_length (s : string) :
  String.length (HBase.replace_quote s) = (String.length s + HBase.count_quotes s)%nat.
Proof.
  induction s as [|c s IH]; [reflexivity|].
  simpl. destruct (Ascii.eqb c HBase.quote); simpl; rewrite IH; lia.
Qed.

Lemma replace_quote_id (s : string) :
  HBase.count_quotes s = 0%nat -> HBase.replace_quote s = s.
Proof.
  induction s as [|c s IH]; [reflexivity|].
  simpl. destruct (Ascii.eqb c HBase.quote); [discriminate|].
  intros H. rewrite IH; [reflexivity | exact H].
Qed.

Lemma replace_quote_inj (s1 : string) : forall s2 : string,
  HBase.replace_quote s1 = HBase.replace_quote s2 -> s1 = s2.
Proof.
  induction s1 as [|c1 s1 IH]; intros [|c2 s2]; simpl.
  - reflexivity.
  - destruct (Ascii.eqb c2 HBase.quote); discriminate.
  - destruct (Ascii.eqb c1 HBase.quote); discriminate.
  - destruct (Ascii.eqb c1 HBase.quote) eqn:H1, (Ascii.eqb c2 HBase.quote) eqn:H2.
    + apply Ascii.eqb_eq in H1, H2. intros H. injection H as H.
      subst. f_equal. apply IH, H.
    + intros H. injection H as Hc Hrest. exfalso.
      destruct s2 as [|c3 s2]; [discriminate|]. simpl in Hrest.
      destruct (Ascii.eqb c3 HBase.quote) eqn:H3.
      * discriminate.
      * injection Hrest as Hc3 _. subst c3. discriminate.
    + intros H. injection H as Hc Hrest. exfalso.
      destruct s1 as [|c3 s1]; [discriminate|]. simpl in Hrest.
      destruct (Ascii.eqb c3 HBase.quote) eqn:H3.
      * discriminate.
      * injection Hrest as Hc3 _. subst c3. discriminate.
    + intros H. injection H as -> H. f_equal. apply IH, H.
Qed.

(** X18. Escaping by [safe_str]: in the result for any value every quote
    directly follows a backslash; for a string the result is longer than
    the string by its number of quotes, so a string without a quote comes
    back unchanged; and [None] gives the empty string. *)
Theorem safe_str_escapes_quotes (x : HBase.scalar) (s : string) :
  HBase.quotes_escaped (HBase.safe_str x) = true /\
  String.length (HBase.safe_str (HBase.SStr s)) =
    (String.length s + HBase.count_quotes s)%nat /\
  (HBase.count_quotes s = 0%nat -> HBase.safe_str (HBase.SStr s) = s) /\
  HBase.safe_str HBase.SNone = "".
Proof.
  split; [|split; [|split]].
  - destruct x; [reflexivity| |]; apply replace_quote_escaped.
  - apply replace_quote_length.
  - apply replace_quote_id.
  - reflexivity.
Qed.

Lemma safe_str_escapes_quotes_witness :
  HBase.safe_str (HBase.SStr "prod_00001") = "prod_00001".
Proof.
  exact (proj1 (proj2 (proj2 (safe_str_escapes_quotes HBase.SNone "prod_00001")))
           eq_refl).
Defined.

(** X19. Escaping loses nothing of a string: two strings with the same
    [safe_str] result are the same string. *)
Theorem safe_str_injective_on_strings (s1 s2 : string) :
  HBase.safe_str (HBase.SStr s1) = HBase.safe_str (HBase.SStr s2) -> s1 = s2.
Proof. apply replace_quote_inj. Qed.

Lemma safe_str_injective_on_strings_witness :
  "O'Fallon" = "O'Fallon".
Proof.
  apply (safe_str_injective_on_strings "O'Fallon" "O'Fallon"). reflexivity.
Defined.

Lemma write_sessions_spec (limit : Z) (sessions0 : list HBase.session) :
  forall (n : nat) (out : list string),
  Z.of_nat n <= Z.max 0 limit ->
  HBase.write_sessions limit sessions0 (Z.of_nat n, out) =
    (Z.of_nat (n + length (firstn (Z.to_nat limit - n) sessions0)),
     (out ++ concat (map HBase.puts (firstn (Z.to_nat limit - n) sessions0)))%list).
Proof.
  induction sessions0 as [|s rest IH]; intros n out Hn.
  - simpl. rewrite firstn_nil. simpl. rewrite Nat.add_0_r, app_nil_r. reflexivity.
  - simpl HBase.write_sessions. cbn [fst snd].
    destruct (Z.leb_spec limit (Z.of_nat n)) as [Hle|Hlt].
    + replace (Z.to_nat limit - n)%nat with 0%nat by lia.
      simpl. rewrite Nat.add_0_r, app_nil_r. reflexivity.
    + replace (Z.of_nat n + 1) with (Z.of_nat (S n)) by lia.
      rewrite IH by lia.
      replace (Z.to_nat limit - n)%nat with (S (Z.to_nat limit - S n)) by lia.
      cbn [firstn map concat length]. rewrite <- app_assoc.
      f_equal. f_equal. lia.
Qed.

Lemma write_files_spec (limit : Z) (files : list (list HBase.session)) :
  forall (n : nat) (out : list string),
  Z.of_nat n <= Z.max 0 limit ->
  HBase.write_files limit files (Z.of_nat n, out) =
    (Z.of_nat (n + length (firstn (Z.to_nat limit - n) (concat files))),
     (out ++ concat (map HBase.puts (firstn (Z.to_nat limit - n) (concat files))))%list).
Proof.
  induction files as [|f rest IH]; intros n out Hn.
  - simpl. rewrite firstn_nil. simpl. rewrite Nat.add_0_r, app_nil_r. reflexivity.
  - simpl HBase.write_files. rewrite write_sessions_spec by exact Hn.
    cbn [fst]. cbn [concat]. rewrite firstn_app.
    set (k := (Z.to_nat limit - n)%nat).
    assert (Hk : (length (firstn k f) = Nat.min k (length f))%nat)
      by apply length_firstn.
    destruct (Z.leb_spec limit (Z.of_nat (n + length (firstn k f)))) as [Hle|Hlt].
    + assert (Hz : (k - length f = 0)%nat) by lia.
      rewrite Hz. cbn [firstn]. rewrite app_nil_r. reflexivity.
    + rewrite IH by lia.
      replace (Z.to_nat limit - (n + length (firstn k f)))%nat
        with (k - length f)%nat by lia.
      rewrite map_app, concat_app, length_app, <- app_assoc.
      f_equal. f_equal. lia.
Qed.

(** X20. The sessions ingested: when at least one sessions file is found,
    [main] writes the two header lines, then the put lines of the first
    [limit] sessions of the files taken in order (all of them when there are
    fewer, none when [limit] is not positive), then the count line; the
    counter [written] is the number of these sessions and every one of them
    accounts for fifteen put lines. *)
Theorem main_ingests_first_sessions (limit : Z) (files : list (list HBase.session)) :
  files <> [] ->
  let ingested := firstn (Z.to_nat limit) (concat files) in
  HBase.main limit files =
    Some (Z.of_nat (length ingested),
          (HBase.header ++ concat (map HBase.puts ingested) ++ HBase.footer)%list) /\
  Z.of_nat (length ingested) = Z.max 0 (Z.min limit (Z.of_nat (length (concat files)))) /\
  length (concat (map HBase.puts ingested)) = (15 * length ingested)%nat.
Proof.
  intros Hfiles ingested. split; [|split].
  - unfold HBase.main. destruct files as [|f rest]; [congruence|].
    cbv zeta.
    change (HBase.write_files limit (f :: rest) (0, HBase.header))
      with (HBase.write_files limit (f :: rest) (Z.of_nat 0, HBase.header)).
    rewrite (write_files_spec limit (f :: rest) 0 HBase.header) by (simpl; lia).
    rewrite Nat.sub_0_r, Nat.add_0_l. cbn [fst snd].
    rewrite <- app_assoc. reflexivity.
  - unfold ingested. rewrite length_firstn. lia.
  - clear Hfiles. induction ingested as [|s l IH]; [reflexivity|].
    cbn [map concat]. rewrite length_app, IH. unfold HBase.puts.
    rewrite length_map. simpl length. lia.
Qed.

Lemma main_ingests_first_sessions_witness :
  let files := [[HBase.sample_session 0; HBase.sample_session 1];
                [HBase.sample_session 2]] in
  let ingested := firstn (Z.to_nat 2) (concat files) in
  HBase.main 2 files =
    Some (Z.of_nat (length ingested),
          (HBase.header ++ concat (map HBase.puts ingested) ++ HBase.footer)%list) /\
  Z.of_nat (length ingested) = Z.max 0 (Z.min 2 (Z.of_nat (length (concat files)))) /\
  length (concat (map HBase.puts ingested)) = (15 * length ingested)%nat.
Proof.
  apply (main_ingests_first_sessions 2
           [[HBase.sample_session 0; HBase.sample_session 1];
            [HBase.sample_session 2]]).
  discriminate.
Defined.
